(** * gprMax: the grid store and the model runner

    A shallow embedding of [gprMax/grid.py] and of [run_model] in
    [gprMax/gprMax.py].

    Conventions of the embedding.
    - Python integers are [Z].
    - Python floats are IEEE 754 binary64 numbers, [float] below: every
      operation rounds to the nearest float, overflows to an infinity and
      underflows to zero as the hardware does.  The samples of the field
      and coefficient arrays alone are idealised as exact rationals.
    - An exception is a value of [exn]; code that can raise returns a
      [result].
    - A numpy array is its shape and its row-major contents; indexing
      checks every index against its dimension and wraps negative ones. *)

From Stdlib Require Import ZArith QArith Qround Qabs Lia Lqa List Bool
  SpecFloat.
From stdpp Require Import base list strings pretty.

Open Scope Z_scope.

(** ** Exceptions and results *)

Inductive exn :=
| ValueError (arg : string)
| IndexError
| StopIteration
| ZeroDivisionError
| OverflowError
| TypeError (method : string)
| AttributeError (name : string).

Inductive result (A : Type) :=
| Ok (a : A)
| Raise (e : exn).
Arguments Ok {A} a.
Arguments Raise {A} e.

#[global] Instance result_ret : MRet result := fun _ a => Ok a.
#[global] Instance result_bind : MBind result := fun _ _ f m =>
  match m with
  | Ok a => f a
  | Raise e => Raise e
  end.

(** ** Python floats *)

(** A Python float is a binary64 number: [spec_float] of the Standard
    Library with a significand of 53 bits and exponents below 1024.  The
    operations round to the nearest float, ties to even. *)
Definition float : Type := spec_float.

Definition fadd : float -> float -> float := SFadd 53 1024.
Definition fsub : float -> float -> float := SFsub 53 1024.
Definition fmul : float -> float -> float := SFmul 53 1024.
Definition fdiv : float -> float -> float := SFdiv 53 1024.
Definition fsqrt : float -> float := SFsqrt 53 1024.

(** [a == b] and [a < b] on floats: false when one of them is a NaN,
    and [0.0 == -0.0]. *)
Definition feqb : float -> float -> bool := SFeqb.
Definition fltb : float -> float -> bool := SFltb.

(** [0.0]. *)
Definition f0 : float := S754_zero false.

(** The float of an integer, and the float that a decimal literal
    denotes: the float nearest to the number. *)
Definition float_of_Z (z : Z) : float := binary_normalize 53 1024 z 0 false.

Definition float_of_Q (q : Q) : float :=
  fdiv
    (match Qnum q with
     | Z0 => f0
     | Zpos p => S754_finite false p 0
     | Zneg p => S754_finite true p 0
     end)
    (S754_finite false (Qden q) 0).

(** [0.5]. *)
Definition half : float := float_of_Q (1 # 2).

(** The number that a finite float is. *)
Definition float_value (x : float) : option Q :=
  match x with
  | S754_zero _ => Some 0%Q
  | S754_finite s m e =>
      Some ((if s then - inject_Z (Zpos m) else inject_Z (Zpos m)) * 2 ^ e)%Q
  | S754_infinity _ | S754_nan => None
  end.

(** The same for the idealised arithmetic of the fields, where a float
    that is not finite counts as 0. *)
Definition exact (x : float) : Q :=
  match float_value x with Some q => q | None => 0%Q end.

(** ** Axes *)

Inductive axis := ax_x | ax_y | ax_z.

#[global] Instance axis_eq_dec : EqDecision axis.
Proof. solve_decision. Defined.

Definition axis_name (a : axis) : string :=
  match a with ax_x => "x" | ax_y => "y" | ax_z => "z" end.

(** [get_other_directions]: the dictionary
    [{'x': ('y', 'z'), 'y': ('x', 'z'), 'z': ('x', 'y')}]. *)
Definition get_other_directions (direction : axis) : axis * axis :=
  match direction with
  | ax_x => (ax_y, ax_z)
  | ax_y => (ax_x, ax_z)
  | ax_z => (ax_x, ax_y)
  end.

(** ** numpy arrays *)

Record ndarray (A : Type) := mk_ndarray { shape : list Z; data : list A }.
Arguments mk_ndarray {A} shape data.
Arguments shape {A} n.
Arguments data {A} n.

(** One index against one dimension: [0 <= i < dim] is taken as it is,
    [-dim <= i < 0] counts from the end, anything else is an
    [IndexError]. *)
Definition np_index (dim i : Z) : result Z :=
  if (0 <=? i) && (i <? dim) then Ok i
  else if (- dim <=? i) && (i <? 0) then Ok (i + dim)
  else Raise IndexError.

(** Row-major offset of an index tuple. *)
Fixpoint offset (dims idx : list Z) (acc : Z) : result Z :=
  match dims, idx with
  | [], [] => Ok acc
  | d :: dims', i :: idx' =>
      j ← np_index d i; offset dims' idx' (acc * d + j)
  | _, _ => Raise IndexError
  end.

Definition getitem {A} (a : ndarray A) (idx : list Z) : result A :=
  o ← offset (shape a) idx 0;
  match data a !! Z.to_nat o with
  | Some v => Ok v
  | None => Raise IndexError
  end.

Definition setitem {A} (a : ndarray A) (idx : list Z) (v : A)
  : result (ndarray A) :=
  o ← offset (shape a) idx 0;
  if decide (Z.to_nat o < length (data a))%nat
  then Ok (mk_ndarray (shape a) (<[Z.to_nat o := v]> (data a)))
  else Raise IndexError.

Definition size_of (dims : list Z) : Z := fold_right Z.mul 1 dims.

(** [np.full(shape, v)]: a negative dimension is a [ValueError].  An
    array of non-negative dimensions is taken to fit the memory of the
    machine: numpy's refusal of a size that it cannot address or
    allocate is not part of this model, and what is said of a call that
    returns holds for the sizes that numpy accepts. *)
Definition np_full {A} (dims : list Z) (v : A) : result (ndarray A) :=
  if forallb (fun d => 0 <=? d) dims
  then Ok (mk_ndarray dims (replicate (Z.to_nat (size_of dims)) v))
  else Raise (ValueError "negative dimensions are not allowed").

Definition np_ones (dims : list Z) : result (ndarray Z) := np_full dims 1.
Definition np_zeros (dims : list Z) : result (ndarray Z) := np_full dims 0.

(** ** Records of the model *)

Module Material.
(** The attributes of [Material] that [run_model] and
    [dispersion_check] read or write. *)
Record t := mk {
  numID : Z;
  ID : string;
  er : float;
  se : float;
  mr : float;
  sm : float;
  average : bool;
  deltaer : list float;
  tau : list float
}.
End Material.

Module Waveform.
Record t := mk {
  ID : string;
  type : string;
  freq : float;
  uservalues : list float
}.
End Waveform.

Module Source.
(** Voltage sources, Hertzian dipoles, magnetic dipoles and
    transmission lines: a position, a polarisation and, where it has
    one, a resistance. *)
Record t := mk {
  ID : string;
  polarisation : axis;
  positionx : Z;
  positiony : Z;
  positionz : Z;
  resistance : float
}.
End Source.

Module Rx.
Record t := mk {
  positionx : Z;
  positiony : Z;
  positionz : Z
}.
End Rx.

Module Snapshot.
Record t := mk {
  filename : string;
  time : Z
}.
End Snapshot.

(** [FDTDGrid]: the attributes the embedded code uses. *)
Record FDTDGrid := mk_FDTDGrid {
  nx : Z; ny : Z; nz : Z;
  dx : float; dy : float; dz : float;
  dt : float;
  iterations : Z;
  materials : list Material.t;
  waveforms : list Waveform.t;
  voltagesources : list Source.t;
  hertziandipoles : list Source.t;
  magneticdipoles : list Source.t;
  transmissionlines : list Source.t;
  rxs : list Rx.t;
  srcstepx : Z; srcstepy : Z; srcstepz : Z;
  rxstepx : Z; rxstepy : Z; rxstepz : Z;
  snapshots : list Snapshot.t;
  solid : ndarray Z;
  rigidE : ndarray Z;
  rigidH : ndarray Z;
  ID : ndarray Z
}.

(** [getattr(self, 'n' + co)] and [getattr(self, 'd' + coord)]. *)
Definition getattr_n (self : FDTDGrid) (co : axis) : Z :=
  match co with ax_x => nx self | ax_y => ny self | ax_z => nz self end.

Definition getattr_d (self : FDTDGrid) (coord : axis) : float :=
  match coord with ax_x => dx self | ax_y => dy self | ax_z => dz self end.

Definition set_geometry_arrays (G : FDTDGrid)
    (solid' rigidE' rigidH' ID' : ndarray Z) : FDTDGrid :=
  mk_FDTDGrid (nx G) (ny G) (nz G) (dx G) (dy G) (dz G) (dt G)
    (iterations G) (materials G) (waveforms G) (voltagesources G)
    (hertziandipoles G) (magneticdipoles G) (transmissionlines G) (rxs G)
    (srcstepx G) (srcstepy G) (srcstepz G)
    (rxstepx G) (rxstepy G) (rxstepz G) (snapshots G)
    solid' rigidE' rigidH' ID'.

Definition set_ID (G : FDTDGrid) (ID' : ndarray Z) : FDTDGrid :=
  set_geometry_arrays G (solid G) (rigidE G) (rigidH G) ID'.

Definition set_materials (G : FDTDGrid) (ms : list Material.t) : FDTDGrid :=
  mk_FDTDGrid (nx G) (ny G) (nz G) (dx G) (dy G) (dz G) (dt G)
    (iterations G) ms (waveforms G) (voltagesources G)
    (hertziandipoles G) (magneticdipoles G) (transmissionlines G) (rxs G)
    (srcstepx G) (srcstepy G) (srcstepz G)
    (rxstepx G) (rxstepy G) (rxstepz G) (snapshots G)
    (solid G) (rigidE G) (rigidH G) (ID G).

Definition set_sources (G : FDTDGrid) (hs ms vs : list Source.t) : FDTDGrid :=
  mk_FDTDGrid (nx G) (ny G) (nz G) (dx G) (dy G) (dz G) (dt G)
    (iterations G) (materials G) (waveforms G) vs hs ms
    (transmissionlines G) (rxs G)
    (srcstepx G) (srcstepy G) (srcstepz G)
    (rxstepx G) (rxstepy G) (rxstepz G) (snapshots G)
    (solid G) (rigidE G) (rigidH G) (ID G).

Definition set_rxs (G : FDTDGrid) (rs : list Rx.t) : FDTDGrid :=
  mk_FDTDGrid (nx G) (ny G) (nz G) (dx G) (dy G) (dz G) (dt G)
    (iterations G) (materials G) (waveforms G) (voltagesources G)
    (hertziandipoles G) (magneticdipoles G) (transmissionlines G) rs
    (srcstepx G) (srcstepy G) (srcstepz G)
    (rxstepx G) (rxstepy G) (rxstepz G) (snapshots G)
    (solid G) (rigidE G) (rigidH G) (ID G).

(** ** grid.py *)

(** [Grid.within_bounds]: its keyword arguments in the order
    they were given.  The method assigns nothing; the grid is returned
    next to the outcome to say so. *)
Fixpoint within_bounds_items (self : FDTDGrid) (kwargs : list (axis * Z))
  : result unit :=
  match kwargs with
  | [] => Ok tt
  | (co, val) :: rest =>
      if (val <? 0) || (getattr_n self co <? val)
      then Raise (ValueError (axis_name co))
      else within_bounds_items self rest
  end.

Definition within_bounds (self : FDTDGrid) (kwargs : list (axis * Z))
  : FDTDGrid * result unit :=
  (self, within_bounds_items self kwargs).

(** [FDTDGrid.initialise_geometry_arrays]. *)
Definition IDlookup : list (string * Z) :=
  [("Ex", 0); ("Ey", 1); ("Ez", 2); ("Hx", 3); ("Hy", 4); ("Hz", 5)]%string.

Definition initialise_geometry_arrays (self : FDTDGrid) : result FDTDGrid :=
  solid' ← np_ones [nx self + 1; ny self + 1; nz self + 1];
  rigidE' ← np_zeros [12; nx self + 1; ny self + 1; nz self + 1];
  rigidH' ← np_zeros [6; nx self + 1; ny self + 1; nz self + 1];
  ID' ← np_ones [6; nx self + 1; ny self + 1; nz self + 1];
  Ok (set_geometry_arrays self solid' rigidE' rigidH' ID').

(** The docstring of [initialise_geometry_arrays]: "Solid and ID arrays
    are initialised to free_space (one)". *)
Definition free_space_numID : Z := 1.

(** [Ix], [Iy], [Iz]: the components of current at a grid position.
    The samples of the magnetic field are rationals and the arithmetic
    on them is exact; the edge lengths enter with the numbers they
    are. *)
Definition Ix (x y z : Z) (Hy Hz : ndarray Q) (G : FDTDGrid) : result Q :=
  if (y =? 0) || (z =? 0) then Ok 0%Q
  else
    a ← getitem Hy [x; y; z - 1];
    b ← getitem Hy [x; y; z];
    c ← getitem Hz [x; y; z];
    d ← getitem Hz [x; y - 1; z];
    Ok (exact (dy G) * (a - b) + exact (dz G) * (c - d))%Q.

Definition Iy (x y z : Z) (Hx Hz : ndarray Q) (G : FDTDGrid) : result Q :=
  if (x =? 0) || (z =? 0) then Ok 0%Q
  else
    a ← getitem Hx [x; y; z];
    b ← getitem Hx [x; y; z - 1];
    c ← getitem Hz [x - 1; y; z];
    d ← getitem Hz [x; y; z];
    Ok (exact (dx G) * (a - b) + exact (dz G) * (c - d))%Q.

Definition Iz (x y z : Z) (Hx Hy : ndarray Q) (G : FDTDGrid) : result Q :=
  if (x =? 0) || (y =? 0) then Ok 0%Q
  else
    a ← getitem Hx [x; y - 1; z];
    b ← getitem Hx [x; y; z];
    c ← getitem Hy [x; y; z];
    d ← getitem Hy [x - 1; y; z];
    Ok (exact (dx G) * (a - b) + exact (dy G) * (c - d))%Q.

(** Division of Python floats: a divisor that compares equal to zero,
    [0.0] or [-0.0], raises; every other quotient is rounded, and may be
    an infinity or a NaN. *)
Definition py_div (a b : float) : result float :=
  if feqb b f0 then Raise ZeroDivisionError else Ok (fdiv a b).

(** [max] of a list of floats: the first element that no later one is
    greater than ([item > maxitem] is the test of the loop of [max]);
    the empty list is a [ValueError]. *)
Fixpoint max_from (m : float) (l : list float) : float :=
  match l with
  | [] => m
  | x :: l' => max_from (if fltb m x then x else m) l'
  end.

Definition py_max (l : list float) : result float :=
  match l with
  | [] => Raise (ValueError "max() arg is an empty sequence")
  | x :: l' => Ok (max_from x l')
  end.

(** Modelled from the spec: [round_value] of [gprMax.utilities], which is
    not part of the sources at hand; section 4.5 has it round to the
    nearest integer "with banker's rounding", that is, a tie goes to the
    even neighbour. *)
Definition round_value (value : Q) : Z :=
  let f := Qfloor value in
  let r := (value - inject_Z f)%Q in
  match (r ?= 1 # 2)%Q with
  | Lt => f
  | Gt => f + 1
  | Eq => if Z.even f then f else f + 1
  end.

(** Modelled from the spec: [round_value] on a float.  Section 4.5 is
    silent on a value that is not finite; Python's [round] raises
    [OverflowError] on an infinity and [ValueError] on a NaN. *)
Definition round_float (value : float) : result Z :=
  match value with
  | S754_infinity _ => Raise OverflowError
  | S754_nan => Raise (ValueError "cannot convert float NaN to integer")
  | _ => Ok (round_value (exact value))
  end.

(** [Grid.calculate_coord]: [val] is the float that [float(val)]
    gives. *)
Definition calculate_coord (self : FDTDGrid) (coord : axis) (val : float)
  : result Z :=
  q ← py_div val (getattr_d self coord);
  round_float q.

(** What [dispersion_check] returns: [False] or a float. *)
Inductive resolution :=
| res_False
| res_float (r : float).

Section DispersionCheck.
(** [c] of [gprMax.constants], and the frequency that the FFT of a
    waveform puts 60 dB below its peak (the [else] branch of the loop
    over the waveforms, made of numpy calls on the values of the
    waveform). *)
Variable c : float.
Variable spectrum_maxfreq : Waveform.t -> Z -> float -> result float.

Definition resolvedsteps : Z := 10.

(** The loop over [G.waveforms], filling [maxfreqs]. *)
Fixpoint find_maxfreqs (G : FDTDGrid) (ws : list Waveform.t)
  : result (list float) :=
  match ws with
  | [] => Ok []
  | waveform :: rest =>
      if String.eqb (Waveform.type waveform) "sine"
         || String.eqb (Waveform.type waveform) "contsine"
      then
        maxfreqs ← find_maxfreqs G rest;
        Ok (fmul (float_of_Z 4) (Waveform.freq waveform) :: maxfreqs)
      else if String.eqb (Waveform.type waveform) "impulse"
              || String.eqb (Waveform.type waveform) "zero"
      then find_maxfreqs G rest
      else
        f ← spectrum_maxfreq waveform (iterations G) (dt G);
        maxfreqs ← find_maxfreqs G rest;
        Ok (f :: maxfreqs)
  end.

(** From [if maxfreqs:] on.  [np.sqrt] gives a numpy float, and the
    divisions of numpy floats do not raise: a zero divisor gives an
    infinity or a NaN. *)
Definition dispersion_check (G : FDTDGrid) : result resolution :=
  maxfreqs ← find_maxfreqs G (waveforms G);
  match maxfreqs with
  | [] => Ok res_False
  | _ :: _ =>
      maxfreq ← py_max maxfreqs;
      maxer ← py_max (map Material.er (materials G));
      let minvelocity := fdiv c (fsqrt maxer) in
      let minwavelength := fdiv minvelocity maxfreq in
      Ok (res_float (fdiv minwavelength (float_of_Z resolvedsteps)))
  end.
End DispersionCheck.

(** ** gprMax.py: [run_model] *)

(** Truth value of a list: [if G.voltagesources:]. *)
Definition truthy {A} (l : list A) : bool :=
  match l with [] => false | _ :: _ => true end.

(** A [for] loop whose body can raise. *)
Fixpoint for_result {A S} (l : list A) (body : S -> A -> result S) (s : S)
  : result S :=
  match l with
  | [] => Ok s
  | a :: l' => s' ← body s a; for_result l' body s'
  end.

Section VoltageSourceMaterials.
(** Python's [str] of a float. *)
Variable str : float -> string.

(** [next(x for x in G.materials if x.numID == requirednumID)]. *)
Definition next_material (ms : list Material.t) (requirednumID : Z)
  : result Material.t :=
  match List.find (fun x => Material.numID x =? requirednumID) ms with
  | Some m => Ok m
  | None => Raise StopIteration
  end.

(** [deepcopy(material)] followed by the four assignments to the copy. *)
Definition derive_material (material : Material.t) (source : Source.t)
    (numID' : Z) (increment : float) : Material.t :=
  Material.mk numID'
    (Material.ID material +:+ "|VoltageSource_"
     +:+ str (Source.resistance source))
    (Material.er material)
    (fadd (Material.se material) increment)
    (Material.mr material) (Material.sm material)
    false
    (Material.deltaer material) (Material.tau material).

(** The body of [if source.resistance != 0:], one branch per
    polarisation, and the [append] that follows them. *)
Definition voltage_source_material (G : FDTDGrid) (source : Source.t)
  : result FDTDGrid :=
  let px := Source.positionx source in
  let py := Source.positiony source in
  let pz := Source.positionz source in
  let R := Source.resistance source in
  let numID' := Z.of_nat (length (materials G)) in
  match Source.polarisation source with
  | ax_x =>
      requirednumID ← getitem (ID G) [0; px; py; pz];
      material ← next_material (materials G) requirednumID;
      increment ← py_div (dx G) (fmul (fmul R (dy G)) (dz G));
      let newmaterial := derive_material material source numID' increment in
      ID' ← setitem (ID G) [0; px; py; pz] (Material.numID newmaterial);
      Ok (set_materials (set_ID G ID') (materials G ++ [newmaterial]))
  | ax_y =>
      requirednumID ← getitem (ID G) [1; px; py; pz];
      material ← next_material (materials G) requirednumID;
      increment ← py_div (dy G) (fmul (fmul R (dx G)) (dz G));
      let newmaterial := derive_material material source numID' increment in
      ID' ← setitem (ID G) [1; px; py; pz] (Material.numID newmaterial);
      Ok (set_materials (set_ID G ID') (materials G ++ [newmaterial]))
  | ax_z =>
      requirednumID ← getitem (ID G) [2; px; py; pz];
      material ← next_material (materials G) requirednumID;
      increment ← py_div (dz G) (fmul (fmul R (dx G)) (dy G));
      let newmaterial := derive_material material source numID' increment in
      ID' ← setitem (ID G) [2; px; py; pz] (Material.numID newmaterial);
      Ok (set_materials (set_ID G ID') (materials G ++ [newmaterial]))
  end.

(** Lines 269-299: the loop over [G.voltagesources]. *)
Definition voltage_source_materials (G : FDTDGrid) : result FDTDGrid :=
  if truthy (voltagesources G) then
    for_result (voltagesources G)
      (fun G source =>
         if negb (feqb (Source.resistance source) f0)
         then voltage_source_material G source
         else Ok G)
      G
  else Ok G.
End VoltageSourceMaterials.

(** The index of a polarisation in the first dimension of [G.ID]. *)
Definition ID_component (a : axis) : Z :=
  match a with ax_x => 0 | ax_y => 1 | ax_z => 2 end.

(** Lines 363-373: "Adjust position of sources and receivers if
    required". *)
Definition step_source (modelrun : Z) (G : FDTDGrid) (source : Source.t)
  : Source.t :=
  Source.mk (Source.ID source) (Source.polarisation source)
    (Source.positionx source + (modelrun - 1) * srcstepx G)
    (Source.positiony source + (modelrun - 1) * srcstepy G)
    (Source.positionz source + (modelrun - 1) * srcstepz G)
    (Source.resistance source).

Definition step_receiver (modelrun : Z) (G : FDTDGrid) (receiver : Rx.t)
  : Rx.t :=
  Rx.mk
    (Rx.positionx receiver + (modelrun - 1) * rxstepx G)
    (Rx.positiony receiver + (modelrun - 1) * rxstepy G)
    (Rx.positionz receiver + (modelrun - 1) * rxstepz G).

Definition adjust_positions (modelrun : Z) (G : FDTDGrid) : FDTDGrid :=
  let G1 :=
    if (0 <? srcstepx G) || (0 <? srcstepy G) || (0 <? srcstepz G)
    then set_sources G
           (map (step_source modelrun G) (hertziandipoles G))
           (map (step_source modelrun G) (magneticdipoles G))
           (map (step_source modelrun G) (voltagesources G))
    else G in
  if (0 <? rxstepx G1) || (0 <? rxstepy G1) || (0 <? rxstepz G1)
  then set_rxs G1 (map (step_receiver modelrun G1) (rxs G1))
  else G1.

(** ** The main FDTD loop *)

(** The routines the loop calls.  They live in other modules
    ([fields_output], [fields_update], [pml_call_updates], the source
    classes); a call is recorded with the arguments that change from one
    call to the next.  Console output and the run-time estimate are not
    part of the model. *)
Inductive Call :=
| write_output (timestep : Z)
| write_snapshot (snapshot : Snapshot.t)
| update_ex_dispersive_1pole_A
| update_ey_dispersive_1pole_A
| update_ez_dispersive_1pole_A
| update_ex_dispersive_multipole_A (maxpoles : Z)
| update_ey_dispersive_multipole_A (maxpoles : Z)
| update_ez_dispersive_multipole_A (maxpoles : Z)
| update_ex
| update_ey
| update_ez
| update_pml_electric
| VoltageSource_update_fields (v : Source.t) (abstime : float) (timestep : Z)
| HertzianDipole_update_fields (h : Source.t) (abstime : float) (timestep : Z)
| update_ex_dispersive_1pole_B
| update_ey_dispersive_1pole_B
| update_ez_dispersive_1pole_B
| update_ex_dispersive_multipole_B (maxpoles : Z)
| update_ey_dispersive_multipole_B (maxpoles : Z)
| update_ez_dispersive_multipole_B (maxpoles : Z)
| update_hx
| update_hy
| update_hz
| update_pml_magnetic
| MagneticDipole_update_fields (m : Source.t) (abstime : float) (timestep : Z).

(** [range(n)]. *)
Definition range (n : Z) : list Z := map Z.of_nat (seq 0 (Z.to_nat n)).

Section MainLoop.
(** What the called routines work on (the field arrays, the PML and
    dispersive arrays, the output file) and what a call does to it.
    The calls are taken to return, and to leave alone what the loop
    itself reads: [G.iterations], [G.dt], [G.snapshots], the three
    lists of sources and [Material.maxpoles]. *)
Context {World : Type}.
Variable exec : Call -> World -> World.
Variable G : FDTDGrid.
Variable maxpoles : Z.

(** The variables of the loop: [abstime], the world of the called
    routines, and the calls made so far. *)
Record Frame := mk_Frame {
  abstime : float;
  world : World;
  log : list Call
}.

Definition stmt := Frame -> Frame.

Definition skip : stmt := fun s => s.

Definition seq_stmt (a b : stmt) : stmt := fun s => b (a s).
Local Infix ">>" := seq_stmt (at level 62, right associativity).

Definition call (c : Call) : stmt := fun s =>
  mk_Frame (abstime s) (exec c (world s)) (log s ++ [c]).

(** A call that is given the current [abstime]. *)
Definition call_at (c : float -> Call) : stmt :=
  fun s => call (c (abstime s)) s.

Definition for_in {A} (l : list A) (body : A -> stmt) : stmt := fun s =>
  fold_left (fun s a => body a s) l s.

(** [abstime += 0.5 * G.dt]. *)
Definition increment_abstime : stmt := fun s =>
  mk_Frame (fadd (abstime s) (fmul half (dt G))) (world s) (log s).

(** The body of [for timestep in range(G.iterations):]. *)
Definition timestep_body (timestep : Z) : stmt :=
  call (write_output timestep) >>
  (if truthy (snapshots G) then
     for_in (snapshots G) (fun snapshot =>
       if Snapshot.time snapshot =? timestep + 1
       then call (write_snapshot snapshot) else skip)
   else skip) >>
  (if maxpoles =? 1 then
     call update_ex_dispersive_1pole_A >>
     call update_ey_dispersive_1pole_A >>
     call update_ez_dispersive_1pole_A
   else if 1 <? maxpoles then
     call (update_ex_dispersive_multipole_A maxpoles) >>
     call (update_ey_dispersive_multipole_A maxpoles) >>
     call (update_ez_dispersive_multipole_A maxpoles)
   else
     call update_ex >> call update_ey >> call update_ez) >>
  call update_pml_electric >>
  (if truthy (voltagesources G) then
     for_in (voltagesources G) (fun v =>
       call_at (fun abstime => VoltageSource_update_fields v abstime timestep))
   else skip) >>
  (if truthy (hertziandipoles G) then
     for_in (hertziandipoles G) (fun h =>
       call_at (fun abstime => HertzianDipole_update_fields h abstime timestep))
   else skip) >>
  (if maxpoles =? 1 then
     call update_ex_dispersive_1pole_B >>
     call update_ey_dispersive_1pole_B >>
     call update_ez_dispersive_1pole_B
   else if 1 <? maxpoles then
     call (update_ex_dispersive_multipole_B maxpoles) >>
     call (update_ey_dispersive_multipole_B maxpoles) >>
     call (update_ez_dispersive_multipole_B maxpoles)
   else skip) >>
  increment_abstime >>
  call update_hx >> call update_hy >> call update_hz >>
  call update_pml_magnetic >>
  (if truthy (magneticdipoles G) then
     for_in (magneticdipoles G) (fun m =>
       call_at (fun abstime => MagneticDipole_update_fields m abstime timestep))
   else skip) >>
  increment_abstime.

(** [abstime = 0] and the loop.  The integer 0 that [abstime] is until
    the first increment is the float [0.0] here. *)
Definition main_loop (w : World) : Frame :=
  for_in (range (iterations G)) timestep_body (mk_Frame f0 w []).
End MainLoop.

Arguments Frame World : clear implicits.

(** The frame at the end of timestep [n] of a run. *)
Definition frame_after {World} (exec : Call -> World -> World)
    (G : FDTDGrid) (maxpoles : Z) (w : World) (n : Z) : Frame World :=
  for_in (range (n + 1)) (timestep_body exec G maxpoles) (mk_Frame f0 w []).

(** [emits c calls step]: run in a frame whose [abstime] is [t], the
    statement [c] makes the calls [calls t] and leaves [abstime] at
    [step t]. *)
Definition emits {World} (c : @stmt World) (calls : float -> list Call)
    (step : float -> float) : Prop :=
  forall s,
    log (c s) = log s ++ calls (abstime s)
    /\ abstime (c s) = step (abstime s).

(** The calls [timestep_body] makes in a frame whose [abstime] is [t]. *)
Definition timestep_calls (G : FDTDGrid) (maxpoles : Z) (timestep : Z)
    (t : float) : list Call :=
  [write_output timestep]
  ++ map write_snapshot
       (List.filter (fun s => Snapshot.time s =? timestep + 1) (snapshots G))
  ++ (if maxpoles =? 1 then
        [update_ex_dispersive_1pole_A; update_ey_dispersive_1pole_A;
         update_ez_dispersive_1pole_A]
      else if 1 <? maxpoles then
        [update_ex_dispersive_multipole_A maxpoles;
         update_ey_dispersive_multipole_A maxpoles;
         update_ez_dispersive_multipole_A maxpoles]
      else [update_ex; update_ey; update_ez])
  ++ [update_pml_electric]
  ++ map (fun v => VoltageSource_update_fields v t timestep)
       (voltagesources G)
  ++ map (fun h => HertzianDipole_update_fields h t timestep)
       (hertziandipoles G)
  ++ (if maxpoles =? 1 then
        [update_ex_dispersive_1pole_B; update_ey_dispersive_1pole_B;
         update_ez_dispersive_1pole_B]
      else if 1 <? maxpoles then
        [update_ex_dispersive_multipole_B maxpoles;
         update_ey_dispersive_multipole_B maxpoles;
         update_ez_dispersive_multipole_B maxpoles]
      else [])
  ++ [update_hx; update_hy; update_hz]
  ++ [update_pml_magnetic]
  ++ map (fun m =>
            MagneticDipole_update_fields m (fadd t (fmul half (dt G)))
              timestep)
       (magneticdipoles G).

(** [abstime] after [k] timesteps: the sum that the two increments of
    every step have built up, each addition rounded. *)
Fixpoint abstime_after (G : FDTDGrid) (k : nat) : float :=
  match k with
  | O => f0
  | S k' =>
      fadd (fadd (abstime_after G k') (fmul half (dt G))) (fmul half (dt G))
  end.

(** ** The schedule in the words of the specification *)

(** Two calls are the same call when they are the same routine on the
    same arguments, the floats among them compared with [==]. *)
Definition Call_eq (a b : Call) : Prop :=
  match a, b with
  | VoltageSource_update_fields v t n, VoltageSource_update_fields v' t' n' =>
      v = v' /\ feqb t t' = true /\ n = n'
  | HertzianDipole_update_fields h t n, HertzianDipole_update_fields h' t' n' =>
      h = h' /\ feqb t t' = true /\ n = n'
  | MagneticDipole_update_fields m t n, MagneticDipole_update_fields m' t' n' =>
      m = m' /\ feqb t t' = true /\ n = n'
  | VoltageSource_update_fields _ _ _, _
  | HertzianDipole_update_fields _ _ _, _
  | MagneticDipole_update_fields _ _ _, _ => False
  | _, _ => a = b
  end.

(** Section 4.6, step 3: E-update, pass A. *)
Definition pass_A (maxpoles : Z) : list Call :=
  if maxpoles =? 0 then [update_ex; update_ey; update_ez]
  else if maxpoles =? 1 then
    [update_ex_dispersive_1pole_A; update_ey_dispersive_1pole_A;
     update_ez_dispersive_1pole_A]
  else
    [update_ex_dispersive_multipole_A maxpoles;
     update_ey_dispersive_multipole_A maxpoles;
     update_ez_dispersive_multipole_A maxpoles].

(** Section 4.6, step 6: E-update, pass B, dispersive only. *)
Definition pass_B (maxpoles : Z) : list Call :=
  if maxpoles =? 0 then []
  else if maxpoles =? 1 then
    [update_ex_dispersive_1pole_B; update_ey_dispersive_1pole_B;
     update_ez_dispersive_1pole_B]
  else
    [update_ex_dispersive_multipole_B maxpoles;
     update_ey_dispersive_multipole_B maxpoles;
     update_ez_dispersive_multipole_B maxpoles].

(** Section 4.6, steps 1 to 11 for step [n], run with [abstime = t]:
    the electric sources are given [t], the magnetic ones [t] raised by
    half a step. *)
Definition scheduled_step_at (G : FDTDGrid) (maxpoles : Z) (n : Z) (t : float)
  : list Call :=
  [write_output n]
  ++ map write_snapshot
       (List.filter (fun s => Snapshot.time s =? n + 1) (snapshots G))
  ++ pass_A maxpoles
  ++ [update_pml_electric]
  ++ map (fun v => VoltageSource_update_fields v t n) (voltagesources G)
  ++ map (fun h => HertzianDipole_update_fields h t n) (hertziandipoles G)
  ++ pass_B maxpoles
  ++ [update_hx; update_hy; update_hz]
  ++ [update_pml_magnetic]
  ++ map (fun m =>
            MagneticDipole_update_fields m (fadd t (fmul half (dt G))) n)
       (magneticdipoles G).

(** The same with the times that the claim gives: the electric sources
    are given [n * dt], the magnetic ones [(n + 1/2) * dt]. *)
Definition scheduled_step (G : FDTDGrid) (maxpoles : Z) (n : Z) : list Call :=
  [write_output n]
  ++ map write_snapshot
       (List.filter (fun s => Snapshot.time s =? n + 1) (snapshots G))
  ++ pass_A maxpoles
  ++ [update_pml_electric]
  ++ map (fun v =>
            VoltageSource_update_fields v (fmul (float_of_Z n) (dt G)) n)
       (voltagesources G)
  ++ map (fun h =>
            HertzianDipole_update_fields h (fmul (float_of_Z n) (dt G)) n)
       (hertziandipoles G)
  ++ pass_B maxpoles
  ++ [update_hx; update_hy; update_hz]
  ++ [update_pml_magnetic]
  ++ map (fun m =>
            MagneticDipole_update_fields m
              (fmul (fadd (float_of_Z n) half) (dt G)) n)
       (magneticdipoles G).

(** The kinds of calls. *)
Definition is_standard_E_update (c : Call) : bool :=
  match c with
  | update_ex | update_ey | update_ez => true
  | _ => false
  end.

Definition is_dispersive_update (c : Call) : bool :=
  match c with
  | update_ex_dispersive_1pole_A | update_ey_dispersive_1pole_A
  | update_ez_dispersive_1pole_A
  | update_ex_dispersive_multipole_A _ | update_ey_dispersive_multipole_A _
  | update_ez_dispersive_multipole_A _
  | update_ex_dispersive_1pole_B | update_ey_dispersive_1pole_B
  | update_ez_dispersive_1pole_B
  | update_ex_dispersive_multipole_B _ | update_ey_dispersive_multipole_B _
  | update_ez_dispersive_multipole_B _ => true
  | _ => false
  end.

Definition is_E_update (c : Call) : bool :=
  is_standard_E_update c || is_dispersive_update c.

(** The timestep of a [write_output] call. *)
Definition output_timestep (c : Call) : option Z :=
  match c with write_output n => Some n | _ => None end.

(** ** The field arrays *)

(** A sample of a field array.  The rationals stand for the finite
    floats; the two IEEE special values are added where a claim is about
    them. *)
Inductive sample := finite (q : Q) | inf | nan.

Definition isfinite (s : sample) : bool :=
  match s with finite _ => true | _ => false end.

Record Fields := mk_Fields {
  Ex : ndarray sample; Ey : ndarray sample; Ez : ndarray sample;
  Hx : ndarray sample; Hy : ndarray sample; Hz : ndarray sample
}.

(** [FDTDGrid.initialise_field_arrays]. *)
Definition initialise_field_arrays (self : FDTDGrid) : result Fields :=
  Ex' ← np_full [nx self; ny self + 1; nz self + 1] (finite 0);
  Ey' ← np_full [nx self + 1; ny self; nz self + 1] (finite 0);
  Ez' ← np_full [nx self + 1; ny self + 1; nz self] (finite 0);
  Hx' ← np_full [nx self + 1; ny self; nz self] (finite 0);
  Hy' ← np_full [nx self; ny self + 1; nz self] (finite 0);
  Hz' ← np_full [nx self; ny self; nz self + 1] (finite 0);
  Ok (mk_Fields Ex' Ey' Ez' Hx' Hy' Hz').

(** Is there a NaN or an Inf in one of the six arrays? *)
Definition has_nan_or_inf (F : Fields) : bool :=
  existsb (fun a => existsb (fun s => negb (isfinite s)) (data a))
    [Ex F; Ey F; Ez F; Hx F; Hy F; Hz F].

(** The check that section 4.6 and the error table of section 7 put at
    the end of a step: with a NaN or an Inf in a field at the end of
    timestep [n], the run does not go into timestep [n + 1]. *)
Definition aborts_on_nan_or_inf (exec : Call -> Fields -> Fields)
    (G : FDTDGrid) (maxpoles : Z) (F : Fields) : Prop :=
  forall n,
    0 <= n -> n + 1 < iterations G ->
    has_nan_or_inf (world (frame_after exec G maxpoles F n)) = true ->
    ~ In (write_output (n + 1)) (log (main_loop exec G maxpoles F)).

(** All the sources of a grid: the four lists [FDTDGrid] keeps. *)
Definition all_sources (G : FDTDGrid) : list Source.t :=
  hertziandipoles G ++ magneticdipoles G ++ voltagesources G
  ++ transmissionlines G.

Definition source_position (s : Source.t) : Z * Z * Z :=
  (Source.positionx s, Source.positiony s, Source.positionz s).

Definition rx_position (r : Rx.t) : Z * Z * Z :=
  (Rx.positionx r, Rx.positiony r, Rx.positionz r).

(** A position moved by [k] steps of [(sx, sy, sz)] cells. *)
Definition displaced (k sx sy sz : Z) (p : Z * Z * Z) : Z * Z * Z :=
  (p.1.1 + k * sx, p.1.2 + k * sy, p.2 + k * sz).

(** [s'] is the source [s] with its position sent through [f]. *)
Definition same_source_at (f : Z * Z * Z -> Z * Z * Z) (s s' : Source.t)
  : Prop :=
  source_position s' = f (source_position s)
  /\ Source.ID s' = Source.ID s
  /\ Source.polarisation s' = Source.polarisation s
  /\ Source.resistance s' = Source.resistance s.

(** ** Example inputs *)

Module Example.
(** One millimetre, a tenth, fifty and one as floats. *)
Definition mm : float := float_of_Q (1 # 1000).
Definition tenth : float := float_of_Q (1 # 10).
Definition fifty : float := float_of_Z 50.
Definition one : float := float_of_Z 1.

(** A perfect conductor and free space: the two materials differ in
    their conductivity and in their [average] flag. *)
Definition pec : Material.t :=
  Material.mk 0 "pec" one (S754_infinity false) one f0 false [] [].
Definition free_space : Material.t :=
  Material.mk 1 "free_space" one f0 one f0 true [] [].

Definition vs : Source.t := Source.mk "vs" ax_x 1 1 1 fifty.
Definition hd : Source.t := Source.mk "hd" ax_y 1 1 1 f0.
Definition md : Source.t := Source.mk "md" ax_z 1 1 1 f0.
Definition tl : Source.t := Source.mk "tl" ax_x 1 1 1 fifty.
Definition rx : Rx.t := Rx.mk 1 1 1.
Definition snap : Snapshot.t := Snapshot.mk "snapshot" 2.

Definition no_array : ndarray Z := mk_ndarray [] [].

(** A grid of 2 x 2 x 2 cells of one millimetre, two iterations, one
    source of each kind, [srcstepx = 1]. *)
Definition grid : FDTDGrid :=
  mk_FDTDGrid 2 2 2 mm mm mm tenth 2
    [pec; free_space] [] [vs] [hd] [md] [tl] [rx]
    1 0 0 0 0 0 [snap]
    no_array no_array no_array no_array.

(** The same grid run for four iterations. *)
Definition four_steps : FDTDGrid :=
  mk_FDTDGrid 2 2 2 mm mm mm tenth 4
    [pec; free_space] [] [vs] [hd] [md] [tl] [rx]
    1 0 0 0 0 0 [snap]
    no_array no_array no_array no_array.

(** Magnetic field arrays of the shapes the 2 x 2 x 2 grid gives them,
    the sample at offset [i] being [i]. *)
Definition counting (dims : list Z) : ndarray Q :=
  mk_ndarray dims
    (map (fun i => inject_Z (Z.of_nat i)) (seq 0 (Z.to_nat (size_of dims)))).
Definition aHx : ndarray Q := counting [3; 2; 2].
Definition aHy : ndarray Q := counting [2; 3; 2].
Definition aHz : ndarray Q := counting [2; 2; 3].

(** The grid after [initialise_geometry_arrays]. *)
Definition built : FDTDGrid :=
  match initialise_geometry_arrays grid with
  | Ok G' => G'
  | Raise _ => grid
  end.

(** [str] on the one resistance of the example. *)
Definition str_50 (r : float) : string := "50.0".

(** A world without state, for the properties that are about the calls
    only. *)
Definition no_effect (c : Call) (w : unit) : unit := w.

(** A run that has gone unstable: the update of Hx leaves Inf in every
    sample of the array. *)
Definition unstable (c : Call) (F : Fields) : Fields :=
  match c with
  | update_hx =>
      mk_Fields (Ex F) (Ey F) (Ez F)
        (mk_ndarray (shape (Hx F)) (map (fun _ => inf) (data (Hx F))))
        (Hy F) (Hz F)
  | _ => F
  end.

(** The field arrays after [initialise_field_arrays]. *)
Definition zero_fields : Fields :=
  match initialise_field_arrays grid with
  | Ok F => F
  | Raise _ =>
      let e := mk_ndarray [] [] in mk_Fields e e e e e e
  end.

(** Waveforms: sines of 1 GHz and of 1.75 GHz, and an impulse. *)
Definition sine : Waveform.t :=
  Waveform.mk "my_sine" "sine" (float_of_Z 1000000000) [].
Definition fast_sine : Waveform.t :=
  Waveform.mk "my_fast_sine" "contsine" (float_of_Z 1750000000) [].
Definition impulse : Waveform.t := Waveform.mk "my_impulse" "impulse" f0 [].

(** A dielectric of relative permittivity 9. *)
Definition dielectric : Material.t :=
  Material.mk 2 "dielectric" (float_of_Z 9) f0 one f0 true [] [].

Definition sine_grid : FDTDGrid :=
  mk_FDTDGrid 2 2 2 mm mm mm tenth 2
    [pec; free_space; dielectric] [sine; fast_sine] [vs] [hd] [md] [tl] [rx]
    1 0 0 0 0 0 [snap]
    no_array no_array no_array no_array.

Definition impulse_grid : FDTDGrid :=
  mk_FDTDGrid 2 2 2 mm mm mm tenth 2
    [pec; free_space] [impulse; impulse] [vs] [hd] [md] [tl] [rx]
    1 0 0 0 0 0 [snap]
    no_array no_array no_array no_array.

(** The speed of light in metres per second, and no spectrum. *)
Definition c : float := float_of_Z 299792458.
Definition no_spectrum (w : Waveform.t) (iterations : Z) (dt : float)
  : result float :=
  Raise IndexError.
End Example.

(** * More of grid.py and gprMax.py *)

(** ** grid.py: the other methods of [FDTDGrid] *)

(** [FDTDGrid.getWaveform]. *)
Definition getWaveform (self : FDTDGrid) (id : string) : result Waveform.t :=
  match List.find (fun x => String.eqb (Waveform.ID x) id) (waveforms self) with
  | Some waveform => Ok waveform
  | None => Raise StopIteration
  end.

(** A sample of [complextype]: real and imaginary part. *)
Definition complex : Type := Q * Q.

(** [FDTDGrid.initialise_std_update_coeff_arrays]: the two arrays it
    assigns to the grid. *)
Record StdCoeffs := mk_StdCoeffs {
  updatecoeffsE : ndarray Q;
  updatecoeffsH : ndarray Q
}.

Definition initialise_std_update_coeff_arrays (self : FDTDGrid)
  : result StdCoeffs :=
  E ← np_full [Z.of_nat (length (materials self)); 5] 0%Q;
  H ← np_full [Z.of_nat (length (materials self)); 5] 0%Q;
  Ok (mk_StdCoeffs E H).

(** [FDTDGrid.initialise_dispersive_arrays], [maxpoles] standing for
    [Material.maxpoles]: the four arrays it assigns to the grid. *)
Record DispersiveArrays := mk_DispersiveArrays {
  Tx : ndarray complex;
  Ty : ndarray complex;
  Tz : ndarray complex;
  updatecoeffsdispersive : ndarray complex
}.

Definition initialise_dispersive_arrays (maxpoles : Z) (self : FDTDGrid)
  : result DispersiveArrays :=
  Tx' ← np_full [maxpoles; nx self; ny self + 1; nz self + 1] (0%Q, 0%Q);
  Ty' ← np_full [maxpoles; nx self + 1; ny self; nz self + 1] (0%Q, 0%Q);
  Tz' ← np_full [maxpoles; nx self + 1; ny self + 1; nz self] (0%Q, 0%Q);
  coeffs ← np_full [Z.of_nat (length (materials self)); 3 * maxpoles]
             (0%Q, 0%Q);
  Ok (mk_DispersiveArrays Tx' Ty' Tz' coeffs).

Definition set_waveforms (G : FDTDGrid) (ws : list Waveform.t) : FDTDGrid :=
  mk_FDTDGrid (nx G) (ny G) (nz G) (dx G) (dy G) (dz G) (dt G)
    (iterations G) (materials G) ws (voltagesources G)
    (hertziandipoles G) (magneticdipoles G) (transmissionlines G) (rxs G)
    (srcstepx G) (srcstepy G) (srcstepz G)
    (rxstepx G) (rxstepy G) (rxstepz G) (snapshots G)
    (solid G) (rigidE G) (rigidH G) (ID G).

(** A numpy array holds as many samples as its shape says. *)
Definition well_formed {A} (a : ndarray A) : Prop :=
  length (data a) = Z.to_nat (size_of (shape a)).

(** ** grid.py: the generic [Grid] *)

Module Grid.
(** The attributes that [Grid.__init__] sets. *)
Record t (A : Type) := mk {
  nx : Z; ny : Z; nz : Z;
  dx : Z; dy : Z; dz : Z;
  i_max : Z; j_max : Z; k_max : Z;
  grid : ndarray A
}.
Arguments mk {A} _ _ _ _ _ _ _ _ _ _.
Arguments nx {A} _.
Arguments ny {A} _.
Arguments nz {A} _.
Arguments dx {A} _.
Arguments dy {A} _.
Arguments dz {A} _.
Arguments i_max {A} _.
Arguments j_max {A} _.
Arguments k_max {A} _.
Arguments grid {A} _.

(** [grid.shape[i]]: an index into the tuple of the dimensions. *)
Definition shape_item {A} (a : ndarray A) (i : nat) : result Z :=
  match shape a !! i with
  | Some d => Ok d
  | None => Raise IndexError
  end.

Definition init {A} (grid : ndarray A) : result (t A) :=
  nx ← shape_item grid 0;
  ny ← shape_item grid 1;
  nz ← shape_item grid 2;
  Ok (mk nx ny nz 1 1 1 (nx - 1) (ny - 1) (nz - 1) grid).

Definition n_edges {A} (self : t A) : Z :=
  let l := nx self in
  let m := ny self in
  let n := nz self in
  (l * m * (n - 1)) + (m * n * (l - 1)) + (l * n * (m - 1)).

Definition n_nodes {A} (self : t A) : Z := nx self * ny self * nz self.

Definition n_cells {A} (self : t A) : Z :=
  (nx self - 1) * (ny self - 1) * (nz self - 1).

Definition get {A} (self : t A) (i j k : Z) : result A :=
  getitem (grid self) [i; j; k].

Definition getattr_n {A} (self : t A) (co : axis) : Z :=
  match co with ax_x => nx self | ax_y => ny self | ax_z => nz self end.

(** [Grid.within_bounds] on a generic grid: the method that [FDTDGrid]
    inherits. *)
Fixpoint within_bounds {A} (self : t A) (kwargs : list (axis * Z))
  : result unit :=
  match kwargs with
  | [] => Ok tt
  | (co, val) :: rest =>
      if (val <? 0) || (getattr_n self co <? val)
      then Raise (ValueError (axis_name co))
      else within_bounds self rest
  end.

(** The index tuple that has [i] on the axis [co] and 0 elsewhere. *)
Definition on_axis (co : axis) (i : Z) : Z * Z * Z :=
  match co with
  | ax_x => (i, 0, 0)
  | ax_y => (0, i, 0)
  | ax_z => (0, 0, i)
  end.
End Grid.

(** The waveforms that [dispersion_check] passes over. *)
Definition silent (w : Waveform.t) : bool :=
  String.eqb (Waveform.type w) "impulse" || String.eqb (Waveform.type w) "zero".

(** ** gprMax.py: the catalogue and the ID array *)

(** The update coefficients of a material are stored in the row of its
    place in [G.materials] and read in the row of its [numID]: the two
    are meant to agree. *)
Definition catalogue_ok (ms : list Material.t) : Prop :=
  forall i m, ms !! i = Some m -> Material.numID m = Z.of_nat i.

(** Every entry of [G.ID] is the [numID] of a place in the catalogue. *)
Definition ID_valid (G : FDTDGrid) : Prop :=
  Forall (fun v => 0 <= v < Z.of_nat (length (materials G))) (data (ID G)).

(** The place of the edge of a source in [G.ID]. *)
Definition source_edge (source : Source.t) : list Z :=
  [ID_component (Source.polarisation source); Source.positionx source;
   Source.positiony source; Source.positionz source].

(** The conductivity that the resistance of a source adds to its edge:
    [d_a / (R * d_b * d_c)], the product taken from the left, every
    operation rounded. *)
Definition source_conductivity (G : FDTDGrid) (source : Source.t) : float :=
  fdiv (getattr_d G (Source.polarisation source))
    (fmul
       (fmul (Source.resistance source)
          (getattr_d G (get_other_directions (Source.polarisation source)).1))
       (getattr_d G (get_other_directions (Source.polarisation source)).2)).

(** The material that governs the edge of a source: the first material
    of the catalogue whose [numID] is the entry of [ID] at the edge. *)
Definition governs (G : FDTDGrid) (s : Source.t) (m : Material.t) : Prop :=
  exists pre post,
    materials G = pre ++ m :: post
    /\ getitem (ID G) (source_edge s) = Ok (Material.numID m)
    /\ Forall (fun x => Material.numID x <> Material.numID m) pre.

(** What the claim says of a voltage source with a resistance: the
    grid [G'] is the grid [G] with a copy [new] of the governing
    material at the end of the catalogue, and with the [numID] of the
    copy in [ID] at the edge of the source. *)
Definition derived_at (str : float -> string) (G : FDTDGrid) (s : Source.t)
    (G' : FDTDGrid) : Prop :=
  exists m new,
    governs G s m
    /\ materials G' = materials G ++ [new]
    /\ Material.se new = fadd (Material.se m) (source_conductivity G s)
    /\ Material.average new = false
    /\ Material.numID new = Z.of_nat (length (materials G))
    /\ Material.ID new
       = Material.ID m +:+ "|VoltageSource_" +:+ str (Source.resistance s)
    /\ Material.er new = Material.er m /\ Material.mr new = Material.mr m
    /\ Material.sm new = Material.sm m
    /\ Material.deltaer new = Material.deltaer m
    /\ Material.tau new = Material.tau m
    /\ setitem (ID G) (source_edge s) (Material.numID new) = Ok (ID G')
    /\ G' = set_materials (set_ID G (ID G')) (materials G').

(** What the claim says of one voltage source: nothing happens for a
    resistance of zero. *)
Definition source_pass (str : float -> string) (G : FDTDGrid) (s : Source.t)
    (G' : FDTDGrid) : Prop :=
  if feqb (Source.resistance s) f0 then G' = G else derived_at str G s G'.

(** The sources of a list dealt with one after the other. *)
Inductive passes (pass : FDTDGrid -> Source.t -> FDTDGrid -> Prop)
  : FDTDGrid -> list Source.t -> FDTDGrid -> Prop :=
| passes_nil G : passes pass G [] G
| passes_cons G s G1 l G' :
    pass G s G1 -> passes pass G1 l G' -> passes pass G (s :: l) G'.

(** The state of the grid that the loop over the voltage sources keeps
    while it runs. *)
Definition built_like (G G0 : FDTDGrid) : Prop :=
  catalogue_ok (materials G0) /\ ID_valid G0 /\ well_formed (ID G0)
  /\ shape (ID G0) = [6; nx G + 1; ny G + 1; nz G + 1]
  /\ (dx G0, dy G0, dz G0) = (dx G, dy G, dz G).

(** A voltage source that the loop can handle: without resistance, or
    on a node of the grid and with a divisor [R * d_b * d_c] that has
    not come out as zero. *)
Definition source_in_grid (G : FDTDGrid) (s : Source.t) : Prop :=
  feqb (Source.resistance s) f0 = false ->
  0 <= Source.positionx s <= nx G /\ 0 <= Source.positiony s <= ny G
  /\ 0 <= Source.positionz s <= nz G
  /\ feqb
       (fmul
          (fmul (Source.resistance s)
             (getattr_d G (get_other_directions (Source.polarisation s)).1))
          (getattr_d G (get_other_directions (Source.polarisation s)).2))
       f0 = false.

(** ** gprMax.py: [run_model] from the built grid on *)

(** A position that numpy indexes from the front. *)
Definition on_front (s : Source.t) : Prop :=
  0 <= Source.positionx s /\ 0 <= Source.positiony s
  /\ 0 <= Source.positionz s.

(** The sources that [run_model] steps, in the order of its
    [itertools.chain]. *)
Definition stepped_sources (G : FDTDGrid) : list Source.t :=
  hertziandipoles G ++ magneticdipoles G ++ voltagesources G.

Definition source_coordinate (s : Source.t) (co : axis) : Z :=
  match co with
  | ax_x => Source.positionx s
  | ax_y => Source.positiony s
  | ax_z => Source.positionz s
  end.

Definition srcstep (G : FDTDGrid) (co : axis) : Z :=
  match co with
  | ax_x => srcstepx G
  | ax_y => srcstepy G
  | ax_z => srcstepz G
  end.


(** The name of the output file (lines 354-358), [root] standing for
    [os.path.splitext(inputfile)[0]] and [pretty] for [str] on an
    integer. *)
Definition outputfile (root : string) (modelrun numbermodelruns : Z) : string :=
  if numbermodelruns =? 1 then root +:+ ".out"
  else root +:+ pretty modelrun +:+ ".out".

(** What a run leaves: the grid, and for a run that is more than a
    build of the geometry the name of its output file and the frame at
    the end of the main loop. *)
Record Run (World : Type) := mk_Run {
  run_grid : FDTDGrid;
  run_outputfile : option string;
  run_frame : option (Frame World)
}.
Arguments mk_Run {World} _ _ _.
Arguments run_grid {World} _.
Arguments run_outputfile {World} _.
Arguments run_frame {World} _.

(** The methods that grid.py gives to [FDTDGrid], its own and those
    of [Grid], each with the number of positional arguments it takes
    besides [self]. *)
Definition FDTDGrid_methods : list (string * nat) :=
  [("n_edges", 0%nat); ("n_nodes", 0%nat); ("n_cells", 0%nat);
   ("get", 3%nat); ("within_bounds", 0%nat); ("calculate_coord", 2%nat);
   ("initialise_geometry_arrays", 0%nat);
   ("initialise_field_arrays", 0%nat); ("getWaveform", 1%nat);
   ("initialise_std_update_coeff_arrays", 0%nat);
   ("initialise_dispersive_arrays", 0%nat)].

(** A call [G.name(...)] with [nargs] positional arguments, up to the
    point where the body of the method would start: a name that the
    class does not have is an [AttributeError], a number of arguments
    that the method does not take a [TypeError]. *)
Definition method_call (name : string) (nargs : nat) : result unit :=
  match List.find (fun m => String.eqb m.1 name) FDTDGrid_methods with
  | None => Raise (AttributeError name)
  | Some m => if Nat.eqb m.2 nargs then Ok tt else Raise (TypeError name)
  end.

(** Lines 301-306: [G.initialise_dispersive_arrays(len(G.materials))]
    when [Material.maxpoles != 0], and
    [G.initialise_std_updatecoeff_arrays(len(G.materials))]. *)
Definition initialise_coefficient_arrays (maxpoles : Z) : result unit :=
  _ ← (if negb (maxpoles =? 0)
       then method_call "initialise_dispersive_arrays" 1
       else Ok tt);
  method_call "initialise_std_updatecoeff_arrays" 1.

(** [run_model] from line 301 on.  The update coefficients, geometry
    views and file preparation between the parts kept here are the work
    of other modules; they are taken to leave alone the attributes of
    the grid that the parts kept here read. *)
Definition after_voltage_sources {World} (exec : Call -> World -> World)
    (geometry_only : bool) (modelrun numbermodelruns : Z) (root : string)
    (maxpoles : Z) (G1 : FDTDGrid) (w : World) : result (Run World) :=
  _ ← initialise_coefficient_arrays maxpoles;
  if negb geometry_only then
    let G2 := adjust_positions modelrun G1 in
    Ok (mk_Run G2 (Some (outputfile root modelrun numbermodelruns))
          (Some (main_loop exec G2 maxpoles w)))
  else Ok (mk_Run G1 None None).

(** [run_model] from line 267 on, [G] the grid that the build of lines
    253-265 has left. *)
Definition run_model {World} (str : float -> string)
    (exec : Call -> World -> World) (geometry_only : bool)
    (modelrun numbermodelruns : Z) (root : string) (maxpoles : Z)
    (G : FDTDGrid) (w : World) : result (Run World) :=
  G1 ← voltage_source_materials str G;
  after_voltage_sources exec geometry_only modelrun numbermodelruns root
    maxpoles G1 w.

(** ** gprMax.py: [main] *)

(** The command line arguments that [main] and [run_model] read. *)
Record Args := mk_Args {
  geometry_only : bool;
  n : Z;
  mpi : bool;
  write_python : bool;
  opt_taguchi : bool
}.

(** What [main] sets off: a call of [run_model], a call of [mpi_runs],
    a call of [fitness_max] on an output file. *)
Inductive Event :=
| run_model_call (modelrun numbermodelruns : Z)
| mpi_runs_call (numbermodelruns : Z)
| fitness_max_call (outputfile : string).

Inductive outcome :=
| CmdInputError (message : string)
| Completed (events : list Event).

(** [range(1, n + 1)]. *)
Definition range_from_1 (n : Z) : list Z := map (fun i => i + 1) (range n).

(** One pass of the [while i < maxiterations] loop of the Taguchi
    routine, [N] the number of experiments that [select_OA] gave. *)
Definition taguchi_iteration (args : Args) (N : Z) (root : string)
  : list Event :=
  (if mpi args then [mpi_runs_call N]
   else map (fun modelrun => run_model_call modelrun N) (range_from_1 N))
  ++ map (fun exp => fitness_max_call (root +:+ pretty exp +:+ ".out"))
       (range_from_1 N)
  ++ map (fun modelrun => run_model_call modelrun 1) (range_from_1 1)
  ++ [fitness_max_call (root +:+ ".out")].

Definition maxiterations : Z := 2.

Definition main (args : Args) (N : Z) (root : string) : outcome :=
  let numbermodelruns := n args in
  if opt_taguchi args && (1 <? numbermodelruns) then
    CmdInputError
      "When a Taguchi optimisation is being carried out the number of model runs argument is not required"
  else if opt_taguchi args then
    Completed
      (flat_map (fun i => taguchi_iteration args N root) (range maxiterations))
  else if mpi args && (numbermodelruns =? 1) then
    CmdInputError "MPI is not beneficial when there is only one model to run"
  else if mpi args then Completed [mpi_runs_call numbermodelruns]
  else
    Completed
      (map (fun modelrun => run_model_call modelrun numbermodelruns)
         (range_from_1 numbermodelruns)).

(** The output files that the events write and read.  A call of
    [run_model] writes its output file unless the run is for the
    geometry only; the runs of [mpi_runs] are those of its workers. *)
Definition written_file (args : Args) (root : string) (e : Event)
  : option string :=
  match e with
  | run_model_call modelrun numbermodelruns =>
      if geometry_only args then None
      else Some (outputfile root modelrun numbermodelruns)
  | _ => None
  end.

Definition read_file (e : Event) : option string :=
  match e with
  | fitness_max_call f => Some f
  | _ => None
  end.

(** Every file that the events read is one of [written] or was written
    by an event before the read. *)
Fixpoint reads_written (args : Args) (root : string) (written : list string)
    (evs : list Event) : Prop :=
  match evs with
  | [] => True
  | e :: rest =>
      match read_file e with Some f => In f written | None => True end
      /\ reads_written args root
           (written ++ match written_file args root e with
                       | Some f => [f]
                       | None => []
                       end) rest
  end.

(** ** gprMax.py: [mpi_runs] *)

(** The message tags. *)
Definition READY : Z := 0.
Definition DONE : Z := 1.
Definition EXIT : Z := 2.
Definition START : Z := 3.

(** [comm.send(data, dest=dest, tag=tag)]. *)
Record Send := mk_Send { send_data : option Z; dest : Z; tag : Z }.

(** The variables of the master process. *)
Record Master := mk_Master { master_modelrun : Z; closedworkers : Z }.

(** The [while closedworkers < numworkers] loop of the master, run on
    the messages [(source, tag)] that [comm.recv] hands it one after the
    other.  It returns its variables, what it sent, and whether it left
    the loop ([false]: it waits for a message that the list does not
    have). *)
Fixpoint master_loop (numworkers numbermodelruns : Z) (st : Master)
    (inbox : list (Z * Z)) : Master * list Send * bool :=
  if closedworkers st <? numworkers then
    match inbox with
    | [] => (st, [], false)
    | (source, tag) :: rest =>
        if tag =? READY then
          if master_modelrun st <? numbermodelruns + 1 then
            let '(st', sent, done) :=
              master_loop numworkers numbermodelruns
                (mk_Master (master_modelrun st + 1) (closedworkers st)) rest in
            (st', mk_Send (Some (master_modelrun st)) source START :: sent, done)
          else
            let '(st', sent, done) :=
              master_loop numworkers numbermodelruns st rest in
            (st', mk_Send None source EXIT :: sent, done)
        else if tag =? DONE then
          master_loop numworkers numbermodelruns st rest
        else if tag =? EXIT then
          master_loop numworkers numbermodelruns
            (mk_Master (master_modelrun st) (closedworkers st + 1)) rest
        else master_loop numworkers numbermodelruns st rest
    end
  else (st, [], true).

(** The master from its first line: [modelrun = 1], [numworkers = size
    - 1], [closedworkers = 0]. *)
Definition master (size numbermodelruns : Z) (inbox : list (Z * Z))
  : Master * list Send * bool :=
  master_loop (size - 1) numbermodelruns (mk_Master 1 0) inbox.

(** The model runs that the master hands out, in the order of its
    sends, and the number of [EXIT] messages in its mail. *)
Definition started_runs (sent : list Send) : list Z :=
  omap (fun m => if tag m =? START then send_data m else None) sent.

Definition exits_received (inbox : list (Z * Z)) : Z :=
  Z.of_nat (length (List.filter (fun m => m.2 =? EXIT) inbox)).

(** What a worker does: it sends a tag to the master, or runs a model. *)
Inductive WorkerAction :=
| worker_send (tag : Z)
| worker_run_model (modelrun : option Z).

(** The [while True] loop of a worker on the messages [(data, tag)]
    that the master sends it, and the [send] after the loop.  [false]:
    the worker waits for a message that the list does not have. *)
Fixpoint worker (inbox : list (option Z * Z)) : list WorkerAction * bool :=
  match inbox with
  | [] => ([worker_send READY], false)
  | (modelrun, tag) :: rest =>
      if tag =? START then
        let '(actions, done) := worker rest in
        (worker_send READY :: worker_run_model modelrun :: worker_send DONE
           :: actions, done)
      else if tag =? EXIT then
        ([worker_send READY; worker_send EXIT], true)
      else
        let '(actions, done) := worker rest in
        (worker_send READY :: actions, done)
  end.

(** The model runs among the actions of a worker, and the [START]
    messages among its mail up to the first [EXIT]. *)
Definition runs_of (actions : list WorkerAction) : list (option Z) :=
  omap (fun a => match a with worker_run_model m => Some m | _ => None end)
    actions.

Fixpoint started (inbox : list (option Z * Z)) : list (option Z) :=
  match inbox with
  | [] => []
  | (modelrun, tag) :: rest =>
      if tag =? START then modelrun :: started rest
      else if tag =? EXIT then []
      else started rest
  end.

(** ** The calls of a run, taken apart *)

(** The state that a list of calls leaves. *)
Definition replay {World} (exec : Call -> World -> World) (calls : list Call)
    (w : World) : World :=
  fold_left (fun w c => exec c w) calls w.

(** The snapshot that a call writes. *)
Definition snapshot_of (c : Call) : option Snapshot.t :=
  match c with
  | write_snapshot s => Some s
  | _ => None
  end.

(** The snapshots that fall into a run of [iterations] timesteps. *)
Definition in_run (iterations : Z) (s : Snapshot.t) : bool :=
  (1 <=? Snapshot.time s) && (Snapshot.time s <=? iterations).

Definition Snapshot_eqb (a b : Snapshot.t) : bool :=
  String.eqb (Snapshot.filename a) (Snapshot.filename b)
  && (Snapshot.time a =? Snapshot.time b).

Definition writes_snapshot (s : Snapshot.t) (c : Call) : bool :=
  match c with
  | write_snapshot s' => Snapshot_eqb s s'
  | _ => false
  end.

(** * Properties *)

(** ** Results and arrays *)

Lemma bind_Ok {A B} (m : result A) (f : A -> result B) (b : B) :
  m ≫= f = Ok b -> exists a, m = Ok a /\ f a = Ok b.
Proof. destruct m as [a|e]; simpl; [eauto | discriminate]. Qed.

Lemma np_index_Ok (dim i j : Z) :
  np_index dim i = Ok j -> 0 <= j < dim.
Proof.
  unfold np_index.
  destruct ((0 <=? i) && (i <? dim)) eqn:E1.
  - intros [= <-]. apply andb_true_iff in E1 as [H1 H2]. lia.
  - destruct ((- dim <=? i) && (i <? 0)) eqn:E2; [|discriminate].
    intros [= <-]. apply andb_true_iff in E2 as [H1 H2]. lia.
Qed.

Lemma np_index_in_range (dim i : Z) :
  0 <= i < dim -> np_index dim i = Ok i.
Proof.
  intros H. unfold np_index.
  replace ((0 <=? i) && (i <? dim)) with true; [reflexivity|].
  symmetry. apply andb_true_iff. lia.
Qed.

Lemma offset_bounds (dims idx : list Z) (acc o : Z) :
  offset dims idx acc = Ok o -> 0 <= acc ->
  acc * size_of dims <= o < (acc + 1) * size_of dims.
Proof.
  revert idx acc. induction dims as [|d dims IH]; intros [|i idx] acc; simpl;
    try discriminate.
  - intros [= <-] _. lia.
  - intros H Hacc. apply bind_Ok in H as (j & Hj & H).
    apply np_index_Ok in Hj. apply IH in H; [|nia].
    fold (size_of dims). nia.
Qed.

Lemma getitem_np_full {A} (dims idx : list Z) (v : A) (a : ndarray A) (o : Z) :
  np_full dims v = Ok a -> offset dims idx 0 = Ok o -> getitem a idx = Ok v.
Proof.
  unfold np_full. destruct (forallb _ dims); [|discriminate].
  intros [= <-] Ho. unfold getitem. simpl. rewrite Ho. simpl.
  apply offset_bounds in Ho; [|lia].
  rewrite lookup_replicate_2; [reflexivity|lia].
Qed.

Lemma np_full_data {A} (dims : list Z) (v : A) (a : ndarray A) :
  np_full dims v = Ok a ->
  shape a = dims /\ Forall (eq v) (data a)
  /\ length (data a) = Z.to_nat (size_of dims).
Proof.
  unfold np_full. destruct (forallb _ dims); [|discriminate].
  intros [= <-]. simpl. split; [reflexivity|]. split.
  - apply Forall_forall. intros x Hx. apply elem_of_replicate in Hx as [-> _]. reflexivity.
  - apply length_replicate.
Qed.

Lemma np_full_Ok {A} (dims : list Z) (v : A) :
  Forall (fun d => 0 <= d) dims -> exists a, np_full dims v = Ok a.
Proof.
  intros H. unfold np_full.
  replace (forallb (fun d => 0 <=? d) dims) with true; [eauto|].
  symmetry. apply forallb_forall. intros d Hd.
  rewrite Forall_forall in H. apply Z.leb_le, H. by apply list_elem_of_In.
Qed.

Lemma getitem_setitem {A} (a a' : ndarray A) (idx : list Z) (v : A) :
  setitem a idx v = Ok a' -> getitem a' idx = Ok v.
Proof.
  unfold setitem, getitem. intros H.
  apply bind_Ok in H as (o & Ho & H).
  destruct (decide _) as [Hlt|]; [|discriminate].
  injection H as <-. simpl. rewrite Ho. simpl.
  by rewrite list_lookup_insert_eq.
Qed.

Lemma setitem_Ok {A} (a : ndarray A) (idx : list Z) (u v : A) :
  getitem a idx = Ok u ->
  exists a', setitem a idx v = Ok a' /\ shape a' = shape a
             /\ length (data a') = length (data a).
Proof.
  unfold setitem, getitem. intros H.
  apply bind_Ok in H as (o & Ho & H). rewrite Ho. simpl.
  destruct (data a !! Z.to_nat o) eqn:E; [|discriminate].
  apply lookup_lt_Some in E.
  destruct (decide _); [|contradiction].
  eexists. split; [reflexivity|]. simpl. by rewrite length_insert.
Qed.

Lemma np_index_Raise (dim i : Z) (e : exn) :
  np_index dim i = Raise e -> e = IndexError.
Proof.
  unfold np_index. destruct (_ && _); [discriminate|].
  destruct (_ && _); [discriminate|]. congruence.
Qed.

Lemma np_index_defined (dim i : Z) :
  (exists j, np_index dim i = Ok j) <-> - dim <= i < dim.
Proof.
  unfold np_index.
  destruct (Z.leb_spec 0 i), (Z.ltb_spec i dim), (Z.leb_spec (- dim) i),
    (Z.ltb_spec i 0); simpl; split; intros Hx; eauto; try lia;
    destruct Hx as [j Hx]; discriminate.
Qed.

Lemma offset3_defined (d0 d1 d2 i j k : Z) :
  (exists o, offset [d0; d1; d2] [i; j; k] 0 = Ok o)
  <-> - d0 <= i < d0 /\ - d1 <= j < d1 /\ - d2 <= k < d2.
Proof.
  rewrite <- !np_index_defined. cbn [offset]. split.
  - intros (o & H). apply bind_Ok in H as (i' & Hi & H).
    apply bind_Ok in H as (j' & Hj & H). apply bind_Ok in H as (k' & Hk & H).
    repeat split; eexists; eassumption.
  - intros ((i' & ->) & (j' & ->) & (k' & ->)). simpl. eauto.
Qed.

Lemma getitem_Raise {A} (a : ndarray A) (idx : list Z) (e : exn) :
  getitem a idx = Raise e -> e = IndexError.
Proof.
  unfold getitem. destruct (offset (shape a) idx 0) as [o|e'] eqn:E; simpl.
  - destruct (data a !! Z.to_nat o); [discriminate | congruence].
  - intros [= <-]. revert E. generalize 0 as acc. revert idx.
    induction (shape a) as [|d dims IH]; intros [|i idx] acc; simpl;
      try congruence.
    destruct (np_index d i) as [j|e''] eqn:Ej; simpl.
    + apply IH.
    + intros [= <-]. by eapply np_index_Raise.
Qed.

Lemma getitem_Ok_offset {A} (a : ndarray A) (idx : list Z) :
  well_formed a ->
  (exists v, getitem a idx = Ok v) <-> (exists o, offset (shape a) idx 0 = Ok o).
Proof.
  intros Hwf. unfold getitem. split.
  - intros (v & H). apply bind_Ok in H as (o & Ho & _). eauto.
  - intros (o & Ho). rewrite Ho. simpl.
    apply offset_bounds in Ho as Hb; [|lia].
    destruct (lookup_lt_is_Some_2 (data a) (Z.to_nat o)) as [v Hv].
    { rewrite Hwf. lia. }
    rewrite Hv. eauto.
Qed.

(** ** [within_bounds] *)

Lemma within_bounds_items_Ok (G : FDTDGrid) (kwargs : list (axis * Z)) :
  within_bounds_items G kwargs = Ok tt
  <-> Forall (fun kv => 0 <= kv.2 <= getattr_n G kv.1) kwargs.
Proof.
  induction kwargs as [|[co val] rest IH]; simpl.
  - split; [constructor | reflexivity].
  - destruct ((val <? 0) || (getattr_n G co <? val)) eqn:E.
    + split; [discriminate|]. intros H. inversion H as [|? ? Hkv _]; subst.
      simpl in Hkv. apply orb_true_iff in E as [E|E]; lia.
    + apply orb_false_iff in E as [E1 E2]. rewrite IH. split.
      * intros H. constructor; [simpl; lia | exact H].
      * intros H. by inversion H.
Qed.

(** With several keyword arguments the error names the first one that
    is out of bounds. *)
Lemma within_bounds_items_Raise (G : FDTDGrid) (kwargs : list (axis * Z))
    (e : exn) :
  within_bounds_items G kwargs = Raise e ->
  exists pre co val post,
    kwargs = pre ++ (co, val) :: post
    /\ Forall (fun kv => 0 <= kv.2 <= getattr_n G kv.1) pre
    /\ (val < 0 \/ getattr_n G co < val)
    /\ e = ValueError (axis_name co).
Proof.
  induction kwargs as [|[co val] rest IH]; simpl; [discriminate|].
  destruct ((val <? 0) || (getattr_n G co <? val)) eqn:E.
  - intros [= <-]. exists [], co, val, rest.
    apply orb_true_iff in E. repeat split; [constructor | lia].
  - intros H. apply IH in H as (pre & co' & val' & post & -> & Hpre & Hout & ->).
    apply orb_false_iff in E as [E1 E2].
    exists ((co, val) :: pre), co', val', post.
    repeat split; [constructor; [simpl; lia | exact Hpre] | exact Hout].
Qed.

(** C8: called on one axis [co] with the coordinate [val],
    [within_bounds] raises the error that names the axis exactly when
    [val < 0] or [val > n_co]; for [0 <= val <= n_co] it returns, and the
    grid is the one it was given. *)
Theorem within_bounds_spec (G : FDTDGrid) (co : axis) (val : Z) :
  ((within_bounds G [(co, val)]).2 = Raise (ValueError (axis_name co))
   <-> val < 0 \/ getattr_n G co < val)
  /\ (0 <= val <= getattr_n G co ->
      within_bounds G [(co, val)] = (G, Ok tt)).
Proof.
  unfold within_bounds. simpl.
  destruct ((val <? 0) || (getattr_n G co <? val)) eqn:E.
  - apply orb_true_iff in E. split.
    + split; [intros _; lia | reflexivity].
    + lia.
  - apply orb_false_iff in E as [E1 E2]. split.
    + split; [discriminate | lia].
    + reflexivity.
Qed.

Lemma within_bounds_spec_witness :
  0 <= 2 <= getattr_n Example.grid ax_y
  /\ within_bounds Example.grid [(ax_y, 2)] = (Example.grid, Ok tt).
Proof.
  split; [simpl; lia|].
  apply (proj2 (within_bounds_spec Example.grid ax_y 2)). simpl. lia.
Defined.

(** ** [initialise_geometry_arrays] *)

Lemma offset3_in_range (d1 d2 d3 x y z : Z) :
  0 <= x < d1 -> 0 <= y < d2 -> 0 <= z < d3 ->
  offset [d1; d2; d3] [x; y; z] 0 = Ok ((x * d2 + y) * d3 + z).
Proof.
  intros Hx Hy Hz. simpl.
  rewrite (np_index_in_range d1 x Hx). simpl.
  rewrite (np_index_in_range d2 y Hy). simpl.
  rewrite (np_index_in_range d3 z Hz). reflexivity.
Qed.

Lemma offset4_in_range (d0 d1 d2 d3 c x y z : Z) :
  0 <= c < d0 -> 0 <= x < d1 -> 0 <= y < d2 -> 0 <= z < d3 ->
  offset [d0; d1; d2; d3] [c; x; y; z] 0
  = Ok (((c * d1 + x) * d2 + y) * d3 + z).
Proof.
  intros Hc Hx Hy Hz. simpl.
  rewrite (np_index_in_range d0 c Hc). simpl.
  rewrite (np_index_in_range d1 x Hx). simpl.
  rewrite (np_index_in_range d2 y Hy). simpl.
  rewrite (np_index_in_range d3 z Hz). reflexivity.
Qed.

(** C7, as the code has it: after [initialise_geometry_arrays] every
    entry of [solid] and of [ID] is 1, the number the docstring of the
    method gives to free_space ("initialised to free_space (one)"). *)
Theorem initialise_geometry_arrays_free_space (G : FDTDGrid) :
  0 <= nx G -> 0 <= ny G -> 0 <= nz G ->
  exists G',
    initialise_geometry_arrays G = Ok G'
    /\ free_space_numID = 1
    /\ Forall (eq free_space_numID) (data (solid G'))
    /\ Forall (eq free_space_numID) (data (ID G'))
    /\ (forall x y z,
          0 <= x <= nx G -> 0 <= y <= ny G -> 0 <= z <= nz G ->
          getitem (solid G') [x; y; z] = Ok free_space_numID)
    /\ (forall c x y z,
          0 <= c < 6 ->
          0 <= x <= nx G -> 0 <= y <= ny G -> 0 <= z <= nz G ->
          getitem (ID G') [c; x; y; z] = Ok free_space_numID).
Proof.
  intros Hx Hy Hz. unfold initialise_geometry_arrays, np_ones, np_zeros.
  destruct (np_full_Ok [nx G + 1; ny G + 1; nz G + 1] 1) as [s Hs].
  { repeat constructor; lia. }
  destruct (np_full_Ok [12; nx G + 1; ny G + 1; nz G + 1] 0) as [rE HrE].
  { repeat constructor; lia. }
  destruct (np_full_Ok [6; nx G + 1; ny G + 1; nz G + 1] 0) as [rH HrH].
  { repeat constructor; lia. }
  destruct (np_full_Ok [6; nx G + 1; ny G + 1; nz G + 1] 1) as [i Hi].
  { repeat constructor; lia. }
  rewrite Hs, HrE, HrH, Hi. simpl.
  eexists. split; [reflexivity|]. simpl.
  split; [reflexivity|].
  split; [apply (np_full_data _ _ _ Hs)|].
  split; [apply (np_full_data _ _ _ Hi)|].
  split.
  - intros x y z Hx' Hy' Hz'.
    eapply getitem_np_full; [exact Hs|].
    apply offset3_in_range; lia.
  - intros c x y z Hc Hx' Hy' Hz'.
    eapply getitem_np_full; [exact Hi|].
    apply offset4_in_range; lia.
Qed.

Lemma initialise_geometry_arrays_free_space_witness :
  exists G',
    initialise_geometry_arrays Example.grid = Ok G'
    /\ getitem (solid G') [2; 0; 1] = Ok 1
    /\ getitem (ID G') [5; 2; 2; 2] = Ok 1.
Proof.
  destruct (initialise_geometry_arrays_free_space Example.grid)
    as (G' & HG & _ & _ & _ & Hsolid & HID); [simpl; lia ..|].
  exists G'. split; [exact HG|]. split.
  - apply Hsolid; simpl; lia.
  - apply HID; simpl; lia.
Defined.

(** C7, as it is stated, fails: the entries are not the catalogue index
    0. *)
Lemma initialise_geometry_arrays_not_zero :
  ~ (forall G', initialise_geometry_arrays Example.grid = Ok G' ->
       (forall idx v, getitem (solid G') idx = Ok v -> v = 0)
       /\ (forall idx v, getitem (ID G') idx = Ok v -> v = 0)).
Proof.
  intros H.
  destruct (initialise_geometry_arrays Example.grid) as [G'|] eqn:E;
    [|discriminate].
  destruct (H G' eq_refl) as [_ HID].
  vm_compute in E. injection E as <-.
  specialize (HID [0; 0; 0; 0] 1 eq_refl). discriminate.
Qed.

(** ** [Ix], [Iy], [Iz] *)

Lemma getitem3_defined {A} (a : ndarray A) (d1 d2 d3 x y z : Z) :
  shape a = [d1; d2; d3] -> well_formed a ->
  (exists v, getitem a [x; y; z] = Ok v)
  <-> - d1 <= x < d1 /\ - d2 <= y < d2 /\ - d3 <= z < d3.
Proof.
  intros Hs Hwf. rewrite (getitem_Ok_offset a _ Hwf), Hs.
  apply offset3_defined.
Qed.

Lemma getitem3_outside {A} (a : ndarray A) (d1 d2 d3 x y z : Z) :
  shape a = [d1; d2; d3] -> well_formed a ->
  d1 <= x \/ d2 <= y \/ d3 <= z ->
  getitem a [x; y; z] = Raise IndexError.
Proof.
  intros Hs Hwf Hout. destruct (getitem a [x; y; z]) as [v|e] eqn:E.
  - assert (H : exists v, getitem a [x; y; z] = Ok v) by eauto.
    apply (getitem3_defined a d1 d2 d3 x y z Hs Hwf) in H. lia.
  - f_equal. by eapply getitem_Raise.
Qed.

(** The four reads of a component: when one of them is outside its
    array the outcome is [IndexError]. *)
Lemma four_reads_raise (g h : ndarray Q) (i1 i2 i3 i4 : list Z)
    (k : Q -> Q -> Q -> Q -> result Q) :
  getitem g i1 = Raise IndexError \/ getitem g i2 = Raise IndexError
  \/ getitem h i3 = Raise IndexError \/ getitem h i4 = Raise IndexError ->
  (a ← getitem g i1; b ← getitem g i2; c ← getitem h i3;
   d ← getitem h i4; k a b c d) = Raise IndexError.
Proof.
  intros H.
  destruct (getitem g i1) as [a|e1] eqn:E1; simpl;
    [|f_equal; by eapply getitem_Raise].
  destruct (getitem g i2) as [b|e2] eqn:E2; simpl;
    [|f_equal; by eapply getitem_Raise].
  destruct (getitem h i3) as [c|e3] eqn:E3; simpl;
    [|f_equal; by eapply getitem_Raise].
  destruct (getitem h i4) as [d|e4] eqn:E4; simpl;
    [|f_equal; by eapply getitem_Raise].
  destruct H as [H|[H|[H|H]]]; discriminate.
Qed.

Ltac on_lower_face :=
  match goal with
  | |- (if ?b then _ else _) = _ =>
      replace b with true; [reflexivity|];
      symmetry; apply orb_true_iff; lia
  end.

Ltac off_lower_face :=
  match goal with
  | |- context [if ?b then _ else _] =>
      replace b with false; [|symmetry; apply orb_false_iff; lia]
  end.

Ltac read_inside H :=
  match goal with
  | |- exists v, getitem ?a [?i; ?j; ?k] = Ok v =>
      eapply getitem3_defined; [eassumption | eassumption | lia]
  end.

(** C4, as the code has it: at a position [0 <= x <= nx],
    [0 <= y <= ny], [0 <= z <= nz] of the grid, with magnetic field
    arrays of the shapes that [initialise_field_arrays] gives them, a
    component of current is zero on the lower face of either of its two
    transverse coordinates; off these faces it is the sum, weighted by
    the cell edges, of the differences of the four surrounding H
    samples when the position is below the upper faces [x = nx],
    [y = ny], [z = nz], and on an upper face the evaluation raises
    [IndexError]. *)
Theorem current_components (x y z : Z) (Hx Hy Hz : ndarray Q) (G : FDTDGrid) :
  shape Hx = [nx G + 1; ny G; nz G] -> well_formed Hx ->
  shape Hy = [nx G; ny G + 1; nz G] -> well_formed Hy ->
  shape Hz = [nx G; ny G; nz G + 1] -> well_formed Hz ->
  0 <= x <= nx G -> 0 <= y <= ny G -> 0 <= z <= nz G ->
  (y = 0 \/ z = 0 -> Ix x y z Hy Hz G = Ok 0%Q)
  /\ (x = 0 \/ z = 0 -> Iy x y z Hx Hz G = Ok 0%Q)
  /\ (x = 0 \/ y = 0 -> Iz x y z Hx Hy G = Ok 0%Q)
  /\ (x < nx G -> y < ny G -> z < nz G ->
      (0 < y -> 0 < z ->
       exists a b c d : Q,
         getitem Hy [x; y; z - 1] = Ok a /\ getitem Hy [x; y; z] = Ok b
         /\ getitem Hz [x; y; z] = Ok c /\ getitem Hz [x; y - 1; z] = Ok d
         /\ Ix x y z Hy Hz G
            = Ok (exact (dy G) * (a - b) + exact (dz G) * (c - d))%Q)
      /\ (0 < x -> 0 < z ->
          exists a b c d : Q,
            getitem Hx [x; y; z] = Ok a /\ getitem Hx [x; y; z - 1] = Ok b
            /\ getitem Hz [x - 1; y; z] = Ok c /\ getitem Hz [x; y; z] = Ok d
            /\ Iy x y z Hx Hz G
               = Ok (exact (dx G) * (a - b) + exact (dz G) * (c - d))%Q)
      /\ (0 < x -> 0 < y ->
          exists a b c d : Q,
            getitem Hx [x; y - 1; z] = Ok a /\ getitem Hx [x; y; z] = Ok b
            /\ getitem Hy [x; y; z] = Ok c /\ getitem Hy [x - 1; y; z] = Ok d
            /\ Iz x y z Hx Hy G
               = Ok (exact (dx G) * (a - b) + exact (dy G) * (c - d))%Q))
  /\ (x = nx G \/ y = ny G \/ z = nz G ->
      (0 < y -> 0 < z -> Ix x y z Hy Hz G = Raise IndexError)
      /\ (0 < x -> 0 < z -> Iy x y z Hx Hz G = Raise IndexError)
      /\ (0 < x -> 0 < y -> Iz x y z Hx Hy G = Raise IndexError)).
Proof.
  intros HsX HwX HsY HwY HsZ HwZ Hx0 Hy0 Hz0.
  split; [intros H; unfold Ix; on_lower_face|].
  split; [intros H; unfold Iy; on_lower_face|].
  split; [intros H; unfold Iz; on_lower_face|].
  split.
  - intros Hx1 Hy1 Hz1. split; [|split]; intros Hp Hq.
    + assert (Ha : exists v, getitem Hy [x; y; z - 1] = Ok v) by read_inside Hy.
      assert (Hb : exists v, getitem Hy [x; y; z] = Ok v) by read_inside Hy.
      assert (Hc : exists v, getitem Hz [x; y; z] = Ok v) by read_inside Hz.
      assert (Hd : exists v, getitem Hz [x; y - 1; z] = Ok v) by read_inside Hz.
      destruct Ha as [a Ha], Hb as [b Hb], Hc as [c Hc], Hd as [d Hd].
      exists a, b, c, d. repeat (split; [assumption|]).
      unfold Ix. off_lower_face. by rewrite Ha, Hb, Hc, Hd.
    + assert (Ha : exists v, getitem Hx [x; y; z] = Ok v) by read_inside Hx.
      assert (Hb : exists v, getitem Hx [x; y; z - 1] = Ok v) by read_inside Hx.
      assert (Hc : exists v, getitem Hz [x - 1; y; z] = Ok v) by read_inside Hz.
      assert (Hd : exists v, getitem Hz [x; y; z] = Ok v) by read_inside Hz.
      destruct Ha as [a Ha], Hb as [b Hb], Hc as [c Hc], Hd as [d Hd].
      exists a, b, c, d. repeat (split; [assumption|]).
      unfold Iy. off_lower_face. by rewrite Ha, Hb, Hc, Hd.
    + assert (Ha : exists v, getitem Hx [x; y - 1; z] = Ok v) by read_inside Hx.
      assert (Hb : exists v, getitem Hx [x; y; z] = Ok v) by read_inside Hx.
      assert (Hc : exists v, getitem Hy [x; y; z] = Ok v) by read_inside Hy.
      assert (Hd : exists v, getitem Hy [x - 1; y; z] = Ok v) by read_inside Hy.
      destruct Ha as [a Ha], Hb as [b Hb], Hc as [c Hc], Hd as [d Hd].
      exists a, b, c, d. repeat (split; [assumption|]).
      unfold Iz. off_lower_face. by rewrite Ha, Hb, Hc, Hd.
  - intros Hup. split; [|split]; intros Hp Hq.
    + unfold Ix. off_lower_face. apply four_reads_raise.
      destruct Hup as [-> | [-> | ->]].
      * left. eapply getitem3_outside; eauto. lia.
      * right. right. left. eapply getitem3_outside; eauto. lia.
      * right. left. eapply getitem3_outside; eauto. lia.
    + unfold Iy. off_lower_face. apply four_reads_raise.
      destruct Hup as [-> | [-> | ->]].
      * right. right. right. eapply getitem3_outside; eauto. lia.
      * left. eapply getitem3_outside; eauto. lia.
      * left. eapply getitem3_outside; eauto. lia.
    + unfold Iz. off_lower_face. apply four_reads_raise.
      destruct Hup as [-> | [-> | ->]].
      * right. right. left. eapply getitem3_outside; eauto. lia.
      * right. left. eapply getitem3_outside; eauto. lia.
      * right. left. eapply getitem3_outside; eauto. lia.
Qed.

Lemma current_components_witness :
  Ix 1 1 1 Example.aHy Example.aHz Example.grid
  = Ok (exact Example.mm * (8 - 9) + exact Example.mm * (10 - 7))%Q
  /\ Iy 0 1 1 Example.aHx Example.aHz Example.grid = Ok 0%Q
  /\ Iz 1 1 2 Example.aHx Example.aHy Example.grid = Raise IndexError.
Proof.
  assert (H : forall x y z,
    0 <= x <= 2 -> 0 <= y <= 2 -> 0 <= z <= 2 -> _) by
    (intros x y z; exact (current_components x y z Example.aHx Example.aHy
       Example.aHz Example.grid eq_refl eq_refl eq_refl eq_refl eq_refl
       eq_refl)).
  split; [|split].
  - destruct (H 1 1 1) as (_ & _ & _ & Hin & _); try (simpl; lia).
    destruct Hin as (HIx & _); try (simpl; lia).
    destruct HIx as (a & b & c & d & Ha & Hb & Hc & Hd & ->); try lia.
    injection Ha as <-. injection Hb as <-. injection Hc as <-.
    injection Hd as <-. reflexivity.
  - destruct (H 0 1 1) as (_ & HIy & _); try (simpl; lia).
    apply HIy. by left.
  - destruct (H 1 1 2) as (_ & _ & _ & _ & Hup); try (simpl; lia).
    destruct Hup as (_ & _ & HIz); [right; right; reflexivity|].
    apply HIz; lia.
Defined.

(** C4, as it is stated, fails on the upper faces: the node (2, 1, 1) is
    a position of the 2 x 2 x 2 grid, off the lower faces of y and z,
    and [Ix] returns nothing there. *)
Lemma current_components_not_on_upper_face :
  (within_bounds Example.grid [(ax_x, 2); (ax_y, 1); (ax_z, 1)]).2 = Ok tt
  /\ ~ (exists i, Ix 2 1 1 Example.aHy Example.aHz Example.grid = Ok i).
Proof.
  split; [reflexivity|]. intros [i H]. vm_compute in H. discriminate.
Qed.

(** ** Stepping of sources and receivers between runs *)

Lemma step_source_displaced (k : Z) (G : FDTDGrid) (l : list Source.t) :
  Forall2
    (same_source_at (displaced (k - 1) (srcstepx G) (srcstepy G) (srcstepz G)))
    l (map (step_source k G) l).
Proof.
  induction l as [|s l IH]; simpl; constructor; [|exact IH].
  repeat split.
Qed.

Lemma step_receiver_displaced (k : Z) (G : FDTDGrid) (l : list Rx.t) :
  map rx_position (map (step_receiver k G) l)
  = map (fun r => displaced (k - 1) (rxstepx G) (rxstepy G) (rxstepz G)
                    (rx_position r)) l.
Proof. rewrite map_map. reflexivity. Qed.

Lemma any_positive (a b c : Z) (v : bool) :
  (0 <? a) || (0 <? b) || (0 <? c) = v
  <-> if v then 0 < a \/ 0 < b \/ 0 < c else ~ (0 < a \/ 0 < b \/ 0 < c).
Proof.
  destruct v.
  - rewrite !orb_true_iff, !Z.ltb_lt. tauto.
  - rewrite !orb_false_iff, !Z.ltb_ge. lia.
Qed.

(** C5, as the code has it: for run [modelrun], when one of the three
    source steps is positive every Hertzian dipole, magnetic dipole and
    voltage source is moved by [(modelrun - 1) * srcstep] cells along
    each axis, and when one of the three receiver steps is positive every
    receiver is moved by [(modelrun - 1) * rxstep] cells along each
    axis; otherwise they stay, and the transmission lines stay in every
    case. *)
Theorem adjust_positions_spec (modelrun : Z) (G : FDTDGrid) :
  let G' := adjust_positions modelrun G in
  let moved :=
    same_source_at
      (displaced (modelrun - 1) (srcstepx G) (srcstepy G) (srcstepz G)) in
  (0 < srcstepx G \/ 0 < srcstepy G \/ 0 < srcstepz G ->
   Forall2 moved (hertziandipoles G) (hertziandipoles G')
   /\ Forall2 moved (magneticdipoles G) (magneticdipoles G')
   /\ Forall2 moved (voltagesources G) (voltagesources G'))
  /\ (~ (0 < srcstepx G \/ 0 < srcstepy G \/ 0 < srcstepz G) ->
      hertziandipoles G' = hertziandipoles G
      /\ magneticdipoles G' = magneticdipoles G
      /\ voltagesources G' = voltagesources G)
  /\ (0 < rxstepx G \/ 0 < rxstepy G \/ 0 < rxstepz G ->
      map rx_position (rxs G')
      = map (fun r =>
               displaced (modelrun - 1) (rxstepx G) (rxstepy G) (rxstepz G)
                 (rx_position r))
          (rxs G))
  /\ (~ (0 < rxstepx G \/ 0 < rxstepy G \/ 0 < rxstepz G) ->
      rxs G' = rxs G)
  /\ transmissionlines G' = transmissionlines G.
Proof.
  intros G' moved. subst G' moved. unfold adjust_positions.
  destruct ((0 <? srcstepx G) || (0 <? srcstepy G) || (0 <? srcstepz G))
    eqn:Es; rewrite any_positive in Es;
  (destruct ((0 <? rxstepx _) || (0 <? rxstepy _) || (0 <? rxstepz _))
     eqn:Er; rewrite any_positive in Er; simpl in Er |- *;
   repeat split; intros; try tauto;
   auto using step_source_displaced, step_receiver_displaced).
  exact (step_receiver_displaced modelrun (set_sources G _ _ _) (rxs G)).
Qed.

Lemma adjust_positions_spec_witness :
  map source_position (voltagesources (adjust_positions 3 Example.grid))
  = [(3, 1, 1)].
Proof.
  destruct (adjust_positions_spec 3 Example.grid) as (Hs & _).
  destruct Hs as (_ & _ & Hv); [left; reflexivity|].
  simpl in Hv. inversion Hv as [|s s' l l' Hm Hnil]; subst.
  inversion Hnil; subst. destruct Hm as (Hp & _).
  simpl. rewrite Hp. reflexivity.
Defined.

(** C5, as it is stated, fails: a transmission line is a source of the
    grid, and it is not moved. *)
Lemma adjust_positions_leaves_transmission_lines :
  ~ (0 < srcstepx Example.grid \/ 0 < srcstepy Example.grid
     \/ 0 < srcstepz Example.grid ->
     map source_position (all_sources (adjust_positions 2 Example.grid))
     = map (fun s => displaced (2 - 1) (srcstepx Example.grid)
                       (srcstepy Example.grid) (srcstepz Example.grid)
                       (source_position s))
         (all_sources Example.grid)).
Proof.
  intros H. specialize (H (or_introl eq_refl)).
  vm_compute in H. discriminate.
Qed.

(** ** Materials of the voltage sources *)

Lemma py_div_Ok (a b : float) :
  feqb b f0 = false -> py_div a b = Ok (fdiv a b).
Proof. intros Hb. unfold py_div. by rewrite Hb. Qed.

Lemma py_div_inv (a b q : float) :
  py_div a b = Ok q -> feqb b f0 = false /\ q = fdiv a b.
Proof.
  unfold py_div. destruct (feqb b f0); [discriminate|].
  intros [= <-]. split; reflexivity.
Qed.

Lemma next_material_Ok (ms : list Material.t) (n : Z) (m : Material.t) :
  next_material ms n = Ok m -> In m ms /\ Material.numID m = n.
Proof.
  unfold next_material.
  destruct (List.find _ ms) as [m'|] eqn:E; [|discriminate].
  intros [= <-]. apply List.find_some in E as [Hin Hn].
  split; [exact Hin | lia].
Qed.

Lemma voltage_source_material_appends (str : float -> string)
    (G G' : FDTDGrid)
    (source : Source.t) :
  voltage_source_material str G source = Ok G' ->
  exists m, materials G' = materials G ++ [m]
            /\ Material.numID m = Z.of_nat (length (materials G))
            /\ Material.average m = false.
Proof.
  unfold voltage_source_material.
  destruct (Source.polarisation source); intros H;
    apply bind_Ok in H as (n & _ & H);
    apply bind_Ok in H as (m & _ & H);
    apply bind_Ok in H as (i & _ & H);
    apply bind_Ok in H as (ID' & _ & H);
    injection H as <-; eexists; simpl; repeat split.
Qed.

(** Over the whole loop the catalogue grows by one material for each
    voltage source with a resistance, the earlier entries staying in
    place. *)
Lemma voltage_source_materials_grow (str : float -> string)
    (G G' : FDTDGrid) :
  voltage_source_materials str G = Ok G' ->
  exists new,
    materials G' = materials G ++ new
    /\ length new
       = length (List.filter
                   (fun s => negb (feqb (Source.resistance s) f0))
                   (voltagesources G))
    /\ Forall (fun m => Material.average m = false) new.
Proof.
  unfold voltage_source_materials.
  assert (Hloop : forall l G0 G1,
    for_result l
      (fun G source =>
         if negb (feqb (Source.resistance source) f0)
         then voltage_source_material str G source else Ok G) G0 = Ok G1 ->
    exists new,
      materials G1 = materials G0 ++ new
      /\ length new
         = length (List.filter
                     (fun s => negb (feqb (Source.resistance s) f0)) l)
      /\ Forall (fun m => Material.average m = false) new).
  { induction l as [|s l IH]; intros G0 G1; simpl.
    - intros [= <-]. exists []. rewrite app_nil_r. repeat split. constructor.
    - intros H. apply bind_Ok in H as (G2 & Hs & H).
      apply IH in H as (new & Hms & Hlen & Hav).
      destruct (negb (feqb (Source.resistance s) f0)).
      + apply voltage_source_material_appends in Hs as (m & Hm & _ & Hfalse).
        exists (m :: new). rewrite Hms, Hm, <- app_assoc. simpl.
        repeat split; [congruence | by constructor].
      + injection Hs as <-. exists new. repeat split; assumption. }
  destruct (truthy (voltagesources G)) eqn:E.
  - apply Hloop.
  - destruct (voltagesources G); [|discriminate].
    intros [= <-]. exists []. rewrite app_nil_r. repeat split. constructor.
Qed.

(** ** The main loop *)

Section MainLoopFacts.
Context {World : Type}.
Variable exec : Call -> World -> World.
Variable G : FDTDGrid.
Variable maxpoles : Z.

Local Abbreviation stmt := (@stmt World).

Lemma emits_skip : emits (@skip World) (fun _ => []) (fun t => t).
Proof. intros s. unfold skip. by rewrite app_nil_r. Qed.

Lemma emits_call (c : Call) : emits (call exec c) (fun _ => [c]) (fun t => t).
Proof. intros s. split; reflexivity. Qed.

Lemma emits_call_at (g : float -> Call) :
  emits (call_at exec g) (fun t => [g t]) (fun t => t).
Proof. intros s. split; reflexivity. Qed.

Lemma emits_increment :
  emits (@increment_abstime World G) (fun _ => [])
    (fun t => fadd t (fmul half (dt G))).
Proof. intros s. simpl. by rewrite app_nil_r. Qed.

Lemma emits_seq (a b : stmt) fa sa fb sb :
  emits a fa sa -> emits b fb sb ->
  emits (seq_stmt a b) (fun t => fa t ++ fb (sa t)) (fun t => sb (sa t)).
Proof.
  intros Ha Hb s. unfold seq_stmt.
  destruct (Ha s) as [Hla Hta]. destruct (Hb (a s)) as [Hlb Htb].
  rewrite Hlb, Htb, Hla, Hta, app_assoc. split; reflexivity.
Qed.

Lemma emits_for_call_at {A} (l : list A) (g : A -> float -> Call) :
  emits (for_in l (fun a => call_at exec (g a)))
    (fun t => map (fun a => g a t) l) (fun t => t).
Proof.
  unfold for_in. induction l as [|a l IH]; intros s; simpl.
  - by rewrite app_nil_r.
  - destruct (IH (call_at exec (g a) s)) as [Hl Ht].
    rewrite Hl, Ht. simpl. rewrite <- app_assoc. split; reflexivity.
Qed.

Lemma emits_for_filter {A} (l : list A) (p : A -> bool) (f : A -> Call) :
  emits (for_in l (fun a => if p a then call exec (f a) else skip))
    (fun _ => map f (List.filter p l)) (fun t => t).
Proof.
  unfold for_in. induction l as [|a l IH]; intros s; simpl.
  - by rewrite app_nil_r.
  - destruct (IH ((if p a then call exec (f a) else skip) s)) as [Hl Ht].
    rewrite Hl, Ht. destruct (p a); simpl.
    + rewrite <- app_assoc. split; reflexivity.
    + split; reflexivity.
Qed.

Lemma emits_truthy {A} (l : list A) (body : A -> stmt) calls step :
  emits (for_in l body) calls step ->
  emits (if truthy l then for_in l body else skip) calls step.
Proof. destruct l; intros H; exact H. Qed.

Lemma emits_ext (c : stmt) calls step calls' step' :
  emits c calls step ->
  (forall t, calls t = calls' t) -> (forall t, step t = step' t) ->
  emits c calls' step'.
Proof.
  intros H Hc Hs s. destruct (H s) as [Hl Ht].
  rewrite <- Hc, <- Hs. split; assumption.
Qed.

Ltac emits_step timestep :=
  first
    [ apply emits_call
    | apply emits_increment
    | apply emits_skip
    | apply emits_truthy
    | apply emits_for_call_at
    | apply (emits_for_filter (snapshots G)
               (fun s => Snapshot.time s =? timestep + 1) write_snapshot)
    | eapply emits_seq ].

Lemma timestep_body_emits (timestep : Z) :
  emits (timestep_body exec G maxpoles timestep)
    (timestep_calls G maxpoles timestep)
    (fun t => fadd (fadd t (fmul half (dt G))) (fmul half (dt G))).
Proof.
  unfold timestep_body, timestep_calls.
  destruct (maxpoles =? 1); [|destruct (1 <? maxpoles)];
    (eapply emits_ext;
     [ repeat emits_step timestep
     | intros t; cbn [app]; rewrite ?app_nil_r; reflexivity
     | reflexivity ]).
Qed.
Lemma loop_from (len start : nat) (s : Frame World) :
  abstime s = abstime_after G start ->
  let s' :=
    for_in (map Z.of_nat (seq start len)) (timestep_body exec G maxpoles) s in
  log s'
  = log s
    ++ flat_map
         (fun i => timestep_calls G maxpoles (Z.of_nat i) (abstime_after G i))
         (seq start len)
  /\ abstime s' = abstime_after G (start + len).
Proof.
  revert start s. induction len as [|len IH]; intros start s Hs; simpl.
  - rewrite app_nil_r, Nat.add_0_r. split; [reflexivity | exact Hs].
  - destruct (timestep_body_emits (Z.of_nat start) s) as [Hl Ht].
    unfold for_in in IH.
    destruct (IH (S start) (timestep_body exec G maxpoles (Z.of_nat start) s))
      as [Hl' Ht'].
    { rewrite Ht, Hs. reflexivity. }
    unfold for_in. simpl. rewrite Hl', Ht', Hl, Hs, <- app_assoc.
    split; [reflexivity|]. f_equal. lia.
Qed.

Lemma main_loop_log (w : World) :
  log (main_loop exec G maxpoles w)
  = flat_map
      (fun i => timestep_calls G maxpoles (Z.of_nat i) (abstime_after G i))
      (seq 0 (Z.to_nat (iterations G)))
  /\ abstime (main_loop exec G maxpoles w)
     = abstime_after G (Z.to_nat (iterations G)).
Proof.
  unfold main_loop, range.
  apply (loop_from (Z.to_nat (iterations G)) 0 (mk_Frame f0 w [])).
  reflexivity.
Qed.
End MainLoopFacts.

Lemma flat_map_map {A B C} (f : B -> list C) (g : A -> B) (l : list A) :
  flat_map f (map g l) = flat_map (fun a => f (g a)) l.
Proof. induction l as [|a l IH]; simpl; [reflexivity | by rewrite IH]. Qed.

Lemma pass_A_branches (maxpoles : Z) :
  0 <= maxpoles ->
  (if maxpoles =? 1 then
     [update_ex_dispersive_1pole_A; update_ey_dispersive_1pole_A;
      update_ez_dispersive_1pole_A]
   else if 1 <? maxpoles then
     [update_ex_dispersive_multipole_A maxpoles;
      update_ey_dispersive_multipole_A maxpoles;
      update_ez_dispersive_multipole_A maxpoles]
   else [update_ex; update_ey; update_ez])
  = pass_A maxpoles.
Proof.
  intros H. unfold pass_A.
  destruct (Z.eqb_spec maxpoles 0) as [->|H0]; [reflexivity|].
  destruct (Z.eqb_spec maxpoles 1) as [->|H1]; [reflexivity|].
  destruct (Z.ltb_spec 1 maxpoles); [reflexivity | lia].
Qed.

Lemma pass_B_branches (maxpoles : Z) :
  0 <= maxpoles ->
  (if maxpoles =? 1 then
     [update_ex_dispersive_1pole_B; update_ey_dispersive_1pole_B;
      update_ez_dispersive_1pole_B]
   else if 1 <? maxpoles then
     [update_ex_dispersive_multipole_B maxpoles;
      update_ey_dispersive_multipole_B maxpoles;
      update_ez_dispersive_multipole_B maxpoles]
   else [])
  = pass_B maxpoles.
Proof.
  intros H. unfold pass_B.
  destruct (Z.eqb_spec maxpoles 0) as [->|H0]; [reflexivity|].
  destruct (Z.eqb_spec maxpoles 1) as [->|H1]; [reflexivity|].
  destruct (Z.ltb_spec 1 maxpoles); [reflexivity | lia].
Qed.

Lemma timestep_calls_scheduled (G : FDTDGrid) (maxpoles n : Z) (t : float) :
  0 <= maxpoles ->
  timestep_calls G maxpoles n t = scheduled_step_at G maxpoles n t.
Proof.
  intros Hmp. unfold timestep_calls, scheduled_step_at.
  by rewrite (pass_A_branches maxpoles Hmp), (pass_B_branches maxpoles Hmp).
Qed.

(** C1, as the code has it: the calls of a run are, for
    [n = 0 .. iterations - 1] in turn: the output of step [n]; the
    snapshots whose time is [n + 1]; pass A of the electric update; the
    electric PML correction; the voltage sources, then the Hertzian
    dipoles, each with the value that [abstime] has; pass B of the
    dispersive update when [maxpoles > 0]; the magnetic update; the
    magnetic PML correction; the magnetic dipoles with [abstime] raised
    by [0.5 * dt].  The value of [abstime] in step [n] is not the
    product [n * dt]: it is the sum that the [2 * n] additions of
    [0.5 * dt] made so far have built up from 0, each of them
    rounded. *)
Theorem main_loop_schedule {World : Type} (exec : Call -> World -> World)
    (G : FDTDGrid) (maxpoles : Z) (w : World) :
  0 <= maxpoles ->
  log (main_loop exec G maxpoles w)
  = flat_map
      (fun n => scheduled_step_at G maxpoles n (abstime_after G (Z.to_nat n)))
      (range (iterations G))
  /\ abstime (main_loop exec G maxpoles w)
     = abstime_after G (Z.to_nat (iterations G))
  /\ abstime_after G 0 = f0
  /\ forall n,
       abstime_after G (S n)
       = fadd (fadd (abstime_after G n) (fmul half (dt G)))
           (fmul half (dt G)).
Proof.
  intros Hmp.
  destruct (main_loop_log exec G maxpoles w) as [Hl Ht].
  rewrite Hl, Ht. split; [|repeat split].
  unfold range. rewrite flat_map_map.
  apply flat_map_ext. intros i. rewrite Nat2Z.id.
  by apply timestep_calls_scheduled.
Qed.

Lemma main_loop_schedule_witness :
  log (main_loop Example.no_effect Example.grid 1 tt)
  = flat_map
      (fun n =>
         scheduled_step_at Example.grid 1 n
           (abstime_after Example.grid (Z.to_nat n)))
      [0; 1].
Proof.
  apply (main_loop_schedule Example.no_effect Example.grid 1 tt). lia.
Defined.

(** C1, as it is stated, fails: with [dt = 0.1] the voltage source is
    called in step 3 with the sum 0.29999999999999999 of six additions
    of 0.05, and the product [3 * 0.1] is 0.30000000000000004. *)
Lemma abstime_is_not_n_dt :
  ~ Forall2 Call_eq
      (log (main_loop Example.no_effect Example.four_steps 0 tt))
      (flat_map (scheduled_step Example.four_steps 0)
         (range (iterations Example.four_steps))).
Proof.
  intros H.
  eapply (Forall2_lookup_lr _ _ _ 42) in H;
    [|vm_compute; reflexivity|vm_compute; reflexivity].
  destruct H as (_ & H & _). vm_compute in H. discriminate.
Qed.

(** ** The path of the electric update *)

Lemma filter_flat_map {A B} (p : B -> bool) (f : A -> list B) (l : list A) :
  List.filter p (flat_map f l) = flat_map (fun a => List.filter p (f a)) l.
Proof.
  induction l as [|a l IH]; simpl; [reflexivity|].
  by rewrite List.filter_app, IH.
Qed.

Lemma filter_map_none {A B} (p : B -> bool) (f : A -> B) (l : list A) :
  (forall a, p (f a) = false) -> List.filter p (map f l) = [].
Proof.
  intros H. induction l as [|a l IH]; simpl; [reflexivity|].
  by rewrite H.
Qed.

Lemma timestep_calls_E_updates (G : FDTDGrid) (maxpoles n : Z) (t : float) :
  List.filter is_E_update (timestep_calls G maxpoles n t)
  = (if maxpoles =? 1 then
       [update_ex_dispersive_1pole_A; update_ey_dispersive_1pole_A;
        update_ez_dispersive_1pole_A;
        update_ex_dispersive_1pole_B; update_ey_dispersive_1pole_B;
        update_ez_dispersive_1pole_B]
     else if 1 <? maxpoles then
       [update_ex_dispersive_multipole_A maxpoles;
        update_ey_dispersive_multipole_A maxpoles;
        update_ez_dispersive_multipole_A maxpoles;
        update_ex_dispersive_multipole_B maxpoles;
        update_ey_dispersive_multipole_B maxpoles;
        update_ez_dispersive_multipole_B maxpoles]
     else [update_ex; update_ey; update_ez]).
Proof.
  unfold timestep_calls.
  rewrite !List.filter_app, !filter_map_none by reflexivity.
  destruct (maxpoles =? 1); [|destruct (1 <? maxpoles)]; reflexivity.
Qed.

(** C6: which electric update runs depends on [maxpoles] alone.  With
    [maxpoles = 0] every step runs [update_ex], [update_ey], [update_ez]
    and no dispersive routine; with [maxpoles = 1] it runs the one-pole
    pass A and pass B; with [maxpoles > 1] the multipole pass A and
    pass B. *)
Theorem electric_update_path {World : Type} (exec : Call -> World -> World)
    (G : FDTDGrid) (maxpoles : Z) (w : World) :
  let E_updates := List.filter is_E_update (log (main_loop exec G maxpoles w)) in
  let every_step (calls : list Call) :=
    flat_map (fun _ => calls) (range (iterations G)) in
  (maxpoles = 0 ->
   E_updates = every_step [update_ex; update_ey; update_ez])
  /\ (maxpoles = 1 ->
      E_updates
      = every_step
          [update_ex_dispersive_1pole_A; update_ey_dispersive_1pole_A;
           update_ez_dispersive_1pole_A;
           update_ex_dispersive_1pole_B; update_ey_dispersive_1pole_B;
           update_ez_dispersive_1pole_B])
  /\ (1 < maxpoles ->
      E_updates
      = every_step
          [update_ex_dispersive_multipole_A maxpoles;
           update_ey_dispersive_multipole_A maxpoles;
           update_ez_dispersive_multipole_A maxpoles;
           update_ex_dispersive_multipole_B maxpoles;
           update_ey_dispersive_multipole_B maxpoles;
           update_ez_dispersive_multipole_B maxpoles]).
Proof.
  intros E_updates every_step. subst E_updates every_step.
  destruct (main_loop_log exec G maxpoles w) as [-> _].
  unfold range. rewrite filter_flat_map.
  repeat split; intros H; rewrite flat_map_map; apply flat_map_ext; intros i;
    rewrite timestep_calls_E_updates.
  - subst maxpoles. reflexivity.
  - subst maxpoles. reflexivity.
  - destruct (Z.eqb_spec maxpoles 1); [lia|].
    destruct (Z.ltb_spec 1 maxpoles); [reflexivity | lia].
Qed.

Lemma electric_update_path_witness :
  List.filter is_E_update (log (main_loop Example.no_effect Example.grid 0 tt))
  = [update_ex; update_ey; update_ez; update_ex; update_ey; update_ez].
Proof.
  apply (proj1 (electric_update_path Example.no_effect Example.grid 0 tt)).
  reflexivity.
Defined.

(** ** The loop and the values of the fields *)

Lemma omap_map_none {A B C} (f : B -> option C) (g : A -> B) (l : list A) :
  (forall a, f (g a) = None) -> omap f (map g l) = [].
Proof.
  intros H. induction l as [|a l IH]; csimpl; [reflexivity|].
  by rewrite H.
Qed.

Lemma omap_flat_map {A B C} (f : B -> option C) (g : A -> list B)
    (l : list A) :
  omap f (flat_map g l) = flat_map (fun a => omap f (g a)) l.
Proof.
  induction l as [|a l IH]; [reflexivity|].
  cbn [flat_map]. by rewrite omap_app, IH.
Qed.

Lemma timestep_calls_outputs (G : FDTDGrid) (maxpoles n : Z) (t : float) :
  omap output_timestep (timestep_calls G maxpoles n t) = [n].
Proof.
  unfold timestep_calls.
  rewrite !omap_app, !omap_map_none by reflexivity.
  destruct (maxpoles =? 1); [|destruct (1 <? maxpoles)]; reflexivity.
Qed.

(** The frame at the end of timestep [n] is a frame of the run. *)
Lemma main_loop_through {World : Type} (exec : Call -> World -> World)
    (G : FDTDGrid) (maxpoles : Z) (w : World) (n : Z) :
  0 <= n -> n + 1 <= iterations G ->
  main_loop exec G maxpoles w
  = for_in
      (map Z.of_nat
         (seq (Z.to_nat (n + 1)) (Z.to_nat (iterations G - (n + 1)))))
      (timestep_body exec G maxpoles)
      (frame_after exec G maxpoles w n).
Proof.
  intros Hn Hlt. unfold main_loop, frame_after, for_in, range.
  rewrite <- fold_left_app, <- map_app.
  replace (Z.to_nat (iterations G))
    with (Z.to_nat (n + 1) + Z.to_nat (iterations G - (n + 1)))%nat by lia.
  rewrite seq_app. reflexivity.
Qed.

(** C2, as the code has it: the loop makes no test of the fields.  The
    calls of a run are the same whatever the called routines leave in
    the arrays, an output is written for every timestep of
    [range(iterations)] and for no other, and so every timestep is
    entered: no run is cut short. *)
Theorem main_loop_ignores_fields {W1 W2 : Type}
    (exec1 : Call -> W1 -> W1) (exec2 : Call -> W2 -> W2)
    (G : FDTDGrid) (maxpoles : Z) (w1 : W1) (w2 : W2) :
  log (main_loop exec1 G maxpoles w1) = log (main_loop exec2 G maxpoles w2)
  /\ omap output_timestep (log (main_loop exec1 G maxpoles w1))
     = range (iterations G)
  /\ (forall n, 0 <= n < iterations G ->
      In (write_output n) (log (main_loop exec1 G maxpoles w1))).
Proof.
  destruct (main_loop_log exec1 G maxpoles w1) as [-> _].
  destruct (main_loop_log exec2 G maxpoles w2) as [-> _].
  split; [reflexivity|]. split.
  - rewrite omap_flat_map. unfold range.
    induction (seq 0 (Z.to_nat (iterations G))) as [|i l IH]; [reflexivity|].
    cbn [flat_map map]. by rewrite timestep_calls_outputs, IH.
  - intros n Hn. apply in_flat_map. exists (Z.to_nat n). split.
    + apply in_seq. lia.
    + rewrite Z2Nat.id by lia. unfold timestep_calls. by left.
Qed.

Lemma main_loop_ignores_fields_witness :
  In (write_output 1)
    (log (main_loop Example.unstable Example.grid 0 Example.zero_fields)).
Proof.
  apply (main_loop_ignores_fields Example.unstable Example.unstable
           Example.grid 0 Example.zero_fields Example.zero_fields).
  simpl. lia.
Defined.

(** Whatever routine leaves a NaN or an Inf behind, and in whatever
    step but the last, the next step is entered. *)
Lemma nan_or_inf_does_not_abort (exec : Call -> Fields -> Fields)
    (G : FDTDGrid) (maxpoles : Z) (F : Fields) (n : Z) :
  0 <= n -> n + 1 < iterations G ->
  has_nan_or_inf (world (frame_after exec G maxpoles F n)) = true ->
  ~ aborts_on_nan_or_inf exec G maxpoles F.
Proof.
  intros Hn Hlt Hnan Habort. apply (Habort n Hn Hlt Hnan).
  destruct (main_loop_log exec G maxpoles F) as [-> _].
  apply in_flat_map. exists (Z.to_nat (n + 1)). split.
  - apply in_seq. lia.
  - rewrite Z2Nat.id by lia. unfold timestep_calls. by left.
Qed.

(** C2, as it is stated, fails: Hx holds Inf at the end of timestep 0
    and the run goes on to write the output of timestep 1. *)
Lemma unstable_run_goes_on :
  ~ aborts_on_nan_or_inf Example.unstable Example.grid 0 Example.zero_fields.
Proof.
  intros H. apply (H 0); [lia | simpl; lia | reflexivity |].
  vm_compute. repeat (try (left; reflexivity); right).
Qed.

(** ** [calculate_coord] *)

Lemma round_value_integer (q : Q) (x : Z) :
  (q == inject_Z x)%Q -> round_value q = x.
Proof.
  intros Hq. unfold round_value. cbv zeta.
  rewrite (Qfloor_comp _ _ Hq), Qfloor_Z.
  assert (Hr : (q - inject_Z x < 1 # 2)%Q).
  { assert (H0 : (q - inject_Z x == 0)%Q) by (rewrite Hq; ring).
    rewrite H0. reflexivity. }
  assert (Hc : (q - inject_Z x ?= 1 # 2)%Q = Lt) by (apply Qlt_alt; exact Hr).
  rewrite Hc. reflexivity.
Qed.

(** Ties go to the even neighbour. *)
Example round_value_ties :
  map round_value [1 # 2; 3 # 2; 5 # 2; - (1 # 2); 7 # 4; 5 # 4]%Q
  = [0; 2; 2; 0; 2; 1].
Proof. reflexivity. Qed.








(** The nodes 0 to 2000 of the one-millimetre grid all come back. *)
Example calculate_coord_first_nodes :
  forallb
    (fun x =>
       match calculate_coord Example.grid ax_z
               (fmul (float_of_Z x) (getattr_d Example.grid ax_z)) with
       | Ok y => y =? x
       | Raise _ => false
       end)
    (range 2001) = true.
Proof. vm_compute. reflexivity. Qed.

(** ** [dispersion_check] *)

(** The order of the floats: nothing is less than itself, and an element
    greater than the running maximum takes over what the maximum was not
    less than. *)
Lemma fltb_irrefl (x : float) : fltb x x = false.
Proof.
  unfold fltb, SFltb, SFcompare.
  destruct x as [[]|[]| |[] m e]; try reflexivity;
    rewrite Z.compare_refl; change (Pos.compare_cont Eq m m) with (Pos.compare m m);
    rewrite Pos.compare_refl; reflexivity.
Qed.

Ltac compare_cases :=
  repeat match goal with
         | H : context [Z.compare ?a ?b] |- _ =>
             destruct (Z.compare_spec a b); simpl in H
         | |- context [Z.compare ?a ?b] =>
             destruct (Z.compare_spec a b); simpl
         | H : context [Pos.compare ?a ?b] |- _ =>
             destruct (Pos.compare_spec a b); simpl in H
         | |- context [Pos.compare ?a ?b] =>
             destruct (Pos.compare_spec a b); simpl
         end.

Lemma fltb_max (m a x : float) :
  fltb m a = false -> fltb m x = true -> fltb x a = false.
Proof.
  unfold fltb, SFltb, SFcompare.
  destruct m as [[]|[]| |[] mm em], a as [[]|[]| |[] ma ea],
    x as [[]|[]| |[] mx ex]; simpl; try discriminate; try reflexivity;
    change (Pos.compare_cont Eq ?p ?q) with (Pos.compare p q);
    intros H1 H2; compare_cases; try discriminate; try reflexivity; try lia.
Qed.

Lemma max_from_upper (l seen : list float) (m : float) :
  Forall (fun a => fltb m a = false) seen ->
  Forall (fun a => fltb (max_from m l) a = false) (seen ++ l).
Proof.
  revert seen m. induction l as [|x l IH]; intros seen m Hseen; simpl.
  - by rewrite app_nil_r.
  - replace (seen ++ x :: l) with ((seen ++ [x]) ++ l)
      by (by rewrite <- app_assoc).
    apply IH. apply Forall_app. split.
    + destruct (fltb m x) eqn:E; [|exact Hseen].
      eapply Forall_impl; [exact Hseen|]. intros a Ha. simpl in Ha.
      exact (fltb_max m a x Ha E).
    + constructor; [|constructor].
      destruct (fltb m x) eqn:E; [apply fltb_irrefl | exact E].
Qed.

Lemma max_from_member (l : list float) (m : float) :
  In (max_from m l) (m :: l).
Proof.
  revert m. induction l as [|x l IH]; intros m; simpl.
  - by left.
  - destruct (fltb m x).
    + destruct (IH x) as [H|H]; [right; by left | right; by right].
    + destruct (IH m) as [H|H]; [by left | right; by right].
Qed.

(** [py_max] returns an element of the list that no element is greater
    than. *)
Lemma py_max_spec (l : list float) (m : float) :
  py_max l = Ok m -> In m l /\ Forall (fun x => fltb m x = false) l.
Proof.
  destruct l as [|x l]; simpl; [discriminate|]. intros [= <-].
  split; [apply max_from_member|].
  apply (max_from_upper l [x] x). constructor; [apply fltb_irrefl|constructor].
Qed.

Lemma py_max_nonempty (l : list float) :
  l <> [] -> exists m, py_max l = Ok m.
Proof. destruct l; [congruence | simpl; eauto]. Qed.

Section DispersionCheckFacts.
Variable c : float.
Variable spectrum_maxfreq : Waveform.t -> Z -> float -> result float.

Lemma find_maxfreqs_sines (G : FDTDGrid) (ws : list Waveform.t) :
  Forall (fun w => Waveform.type w = "sine" \/ Waveform.type w = "contsine")
    ws ->
  find_maxfreqs spectrum_maxfreq G ws
  = Ok (map (fun w => fmul (float_of_Z 4) (Waveform.freq w)) ws).
Proof.
  induction 1 as [|w ws Hw _ IH]; simpl; [reflexivity|].
  rewrite IH. destruct Hw as [-> | ->]; reflexivity.
Qed.

Lemma find_maxfreqs_silent (G : FDTDGrid) (ws : list Waveform.t) :
  Forall (fun w => Waveform.type w = "impulse" \/ Waveform.type w = "zero")
    ws ->
  find_maxfreqs spectrum_maxfreq G ws = Ok [].
Proof.
  induction 1 as [|w ws Hw _ IH]; simpl; [reflexivity|].
  rewrite IH. destruct Hw as [-> | ->]; reflexivity.
Qed.

(** C10: [dispersion_check] returns [False] when every waveform of the
    grid (there may be none) is an impulse or a zero.  When the
    waveforms are sines or continuous sines, and there is one, it raises
    the [ValueError] of [max] on a catalogue without materials, and with
    materials it returns the float [((c / sqrt maxer) / maxfreq) / 10],
    each operation rounded, where [maxfreq] is one of the floats
    [4 * freq] of the waveforms, [maxer] one of the permittivities of the
    materials, and none of the others is greater. *)
Theorem dispersion_check_spec (G : FDTDGrid) :
  (Forall (fun w => Waveform.type w = "impulse" \/ Waveform.type w = "zero")
     (waveforms G) ->
   dispersion_check c spectrum_maxfreq G = Ok res_False)
  /\ (Forall
        (fun w => Waveform.type w = "sine" \/ Waveform.type w = "contsine")
        (waveforms G) ->
      waveforms G <> [] ->
      (materials G = [] ->
       dispersion_check c spectrum_maxfreq G
       = Raise (ValueError "max() arg is an empty sequence"))
      /\ (materials G <> [] ->
          exists maxfreq maxer : float,
            In maxfreq
              (map (fun w => fmul (float_of_Z 4) (Waveform.freq w))
                 (waveforms G))
            /\ Forall (fun w =>
                         fltb maxfreq
                           (fmul (float_of_Z 4) (Waveform.freq w)) = false)
                 (waveforms G)
            /\ In maxer (map Material.er (materials G))
            /\ Forall (fun m => fltb maxer (Material.er m) = false)
                 (materials G)
            /\ dispersion_check c spectrum_maxfreq G
               = Ok (res_float
                       (fdiv (fdiv (fdiv c (fsqrt maxer)) maxfreq)
                          (float_of_Z 10))))).
Proof.
  unfold dispersion_check. split.
  - intros H. by rewrite (find_maxfreqs_silent G _ H).
  - intros Hws Hne. rewrite (find_maxfreqs_sines G _ Hws).
    cbn [mbind result_bind].
    destruct (py_max_nonempty
                (map (fun w => fmul (float_of_Z 4) (Waveform.freq w))
                   (waveforms G))) as [maxfreq Hfreq].
    { destruct (waveforms G); [congruence | discriminate]. }
    destruct (map _ (waveforms G)) as [|f fs] eqn:E; [discriminate|].
    rewrite Hfreq. cbn [mbind result_bind]. split.
    + intros ->. reflexivity.
    + intros Hm.
      destruct (py_max_nonempty (map Material.er (materials G)))
        as [maxer Her].
      { destruct (materials G); [congruence | discriminate]. }
      rewrite Her. cbn [mbind result_bind].
      apply py_max_spec in Hfreq, Her.
      destruct Hfreq as [Hf1 Hf2], Her as [He1 He2].
      exists maxfreq, maxer. rewrite <- E in Hf2.
      rewrite Forall_map in Hf2. rewrite Forall_map in He2.
      repeat split; assumption.
Qed.
End DispersionCheckFacts.

(** On the example the largest [4 * freq] is 7 GHz and the largest
    permittivity 9. *)
Lemma dispersion_check_spec_witness :
  dispersion_check Example.c Example.no_spectrum Example.impulse_grid
  = Ok res_False
  /\ dispersion_check Example.c Example.no_spectrum Example.sine_grid
     = Ok (res_float
             (fdiv (fdiv (fdiv Example.c (float_of_Z 3))
                      (float_of_Z 7000000000)) (float_of_Z 10))).
Proof.
  split.
  - apply (dispersion_check_spec Example.c Example.no_spectrum
             Example.impulse_grid).
    repeat constructor.
  - destruct (proj2 (dispersion_check_spec Example.c Example.no_spectrum
                       Example.sine_grid))
      as [_ (maxfreq & maxer & Hf & Hfa & He & Hea & Hr)];
      [ constructor; [by left|]; constructor; [by right | constructor]
      | discriminate | discriminate | ].
    assert (Hmaxfreq : maxfreq = float_of_Z 7000000000).
    { pose proof (List.Forall_inv (List.Forall_inv_tail Hfa)) as Hfast.
      vm_compute in Hf. destruct Hf as [<-|[<-|[]]]; [|reflexivity].
      vm_compute in Hfast. discriminate Hfast. }
    assert (Hmaxer : maxer = float_of_Z 9).
    { pose proof (List.Forall_inv
                    (List.Forall_inv_tail (List.Forall_inv_tail Hea)))
        as Hnine.
      vm_compute in He. destruct He as [<-|[<-|[<-|[]]]]; [| |reflexivity];
        vm_compute in Hnine; discriminate Hnine. }
    rewrite Hr, Hmaxfreq, Hmaxer. vm_compute. reflexivity.
Defined.

(** C10, the cases it does not cover: on the example the float returned
    is not the float of the stated quotient, whose divisor is the
    product [10 * maxfreq]; and with sines to check and no material the
    check returns nothing, it raises. *)
Lemma dispersion_check_not_the_stated_quotient :
  dispersion_check Example.c Example.no_spectrum Example.sine_grid
  <> Ok (res_float
           (fdiv (fdiv Example.c (fsqrt (float_of_Z 9)))
              (fmul (float_of_Z 10)
                 (fmul (float_of_Z 4) (float_of_Z 1750000000)))))
  /\ ~ (exists r,
          dispersion_check Example.c Example.no_spectrum
            (set_materials Example.sine_grid []) = Ok r).
Proof.
  split.
  - vm_compute. discriminate.
  - intros [r Hr]. vm_compute in Hr. discriminate.
Qed.

(** * More properties *)

(** ** Arrays *)

Lemma getitem_setitem_other {A} (a a' : ndarray A) (idx idx' : list Z)
    (u v : A) :
  setitem a idx v = Ok a' -> getitem a idx' = Ok u ->
  getitem a' idx' = Ok u \/ getitem a' idx' = Ok v.
Proof.
  unfold setitem, getitem. intros Hset Hget.
  apply bind_Ok in Hset as (o & Ho & Hset).
  destruct (decide _) as [Hlt|]; [|discriminate].
  injection Hset as <-. simpl.
  apply bind_Ok in Hget as (o' & Ho' & Hget). rewrite Ho'. simpl.
  destruct (data a !! Z.to_nat o') as [u'|] eqn:E; [|discriminate].
  injection Hget as ->.
  destruct (decide (Z.to_nat o = Z.to_nat o')) as [Heq|Hne].
  - right. rewrite <- Heq, list_lookup_insert_eq by exact Hlt. reflexivity.
  - left. rewrite list_lookup_insert_ne by exact Hne. rewrite E. reflexivity.
Qed.

Lemma setitem_shape {A} (a a' : ndarray A) (idx : list Z) (v : A) :
  setitem a idx v = Ok a' ->
  shape a' = shape a /\ length (data a') = length (data a)
  /\ exists o, (o < length (data a))%nat /\ data a' = <[o := v]> (data a).
Proof.
  unfold setitem. intros H. apply bind_Ok in H as (o & _ & H).
  destruct (decide _) as [Hlt|]; [|discriminate].
  injection H as <-. simpl. rewrite length_insert. eauto.
Qed.

(** Whether an index tuple is inside an array does not depend on where
    the count of the offset starts. *)
Lemma offset_Ok_acc (dims idx : list Z) (acc acc' o : Z) :
  offset dims idx acc = Ok o -> exists o', offset dims idx acc' = Ok o'.
Proof.
  revert idx acc acc' o.
  induction dims as [|d dims IH]; intros [|i idx] acc acc' o; simpl;
    try discriminate; [eauto|].
  intros H. apply bind_Ok in H as (j & Hj & H). rewrite Hj. simpl.
  eapply IH. exact H.
Qed.

Lemma offset_inj (dims idx1 idx2 : list Z) (acc1 acc2 o : Z) :
  offset dims idx1 acc1 = Ok o -> offset dims idx2 acc2 = Ok o ->
  0 <= acc1 -> 0 <= acc2 ->
  Forall (fun i => 0 <= i) idx1 -> Forall (fun i => 0 <= i) idx2 ->
  acc1 = acc2 /\ idx1 = idx2.
Proof.
  revert idx1 idx2 acc1 acc2.
  induction dims as [|d dims IH]; intros [|i1 idx1] [|i2 idx2] acc1 acc2;
    simpl; try discriminate.
  - intros [= <-] [= <-] _ _ _ _. split; reflexivity.
  - intros H1 H2 Ha1 Ha2 Hp1 Hp2.
    apply bind_Ok in H1 as (j1 & Hj1 & H1).
    apply bind_Ok in H2 as (j2 & Hj2 & H2).
    inversion Hp1 as [|? ? Hi1 Hp1']; subst.
    inversion Hp2 as [|? ? Hi2 Hp2']; subst.
    pose proof (np_index_Ok _ _ _ Hj1) as Hr1.
    pose proof (np_index_Ok _ _ _ Hj2) as Hr2.
    assert (j1 = i1).
    { unfold np_index in Hj1.
      destruct ((0 <=? i1) && (i1 <? d)) eqn:E; [congruence|].
      destruct ((- d <=? i1) && (i1 <? 0)) eqn:E'; [|discriminate].
      apply andb_true_iff in E' as [_ E']. lia. }
    assert (j2 = i2).
    { unfold np_index in Hj2.
      destruct ((0 <=? i2) && (i2 <? d)) eqn:E; [congruence|].
      destruct ((- d <=? i2) && (i2 <? 0)) eqn:E'; [|discriminate].
      apply andb_true_iff in E' as [_ E']. lia. }
    subst j1 j2.
    destruct (IH _ _ _ _ H1 H2) as [Hacc Hidx]; [nia | nia | assumption ..|].
    assert (acc1 = acc2) as ->
      by (destruct (Z.lt_trichotomy acc1 acc2) as [H|[H|H]]; nia).
    assert (i1 = i2) as -> by lia.
    subst idx2. split; reflexivity.
Qed.

(** ** grid.py *)

(** X1: [within_bounds] on any number of axes returns exactly when every
    coordinate is within [0, n] of its axis; otherwise the error names
    the first axis, in the order of the arguments, whose coordinate is
    out of bounds, whatever the later ones are.  The grid is not
    touched. *)
Theorem within_bounds_all_axes (G : FDTDGrid) (kwargs : list (axis * Z)) :
  ((within_bounds G kwargs).2 = Ok tt
   <-> Forall (fun kv => 0 <= kv.2 <= getattr_n G kv.1) kwargs)
  /\ (forall e, (within_bounds G kwargs).2 = Raise e ->
      exists pre co val post,
        kwargs = pre ++ (co, val) :: post
        /\ Forall (fun kv => 0 <= kv.2 <= getattr_n G kv.1) pre
        /\ (val < 0 \/ getattr_n G co < val)
        /\ e = ValueError (axis_name co))
  /\ (within_bounds G kwargs).1 = G.
Proof.
  unfold within_bounds. simpl. split; [apply within_bounds_items_Ok|].
  split; [intros e; apply within_bounds_items_Raise | reflexivity].
Qed.

Lemma within_bounds_all_axes_witness :
  exists pre co val post,
    [(ax_x, 1); (ax_y, 5); (ax_z, -1)] = pre ++ (co, val) :: post
    /\ Forall (fun kv => 0 <= kv.2 <= getattr_n Example.grid kv.1) pre
    /\ (val < 0 \/ getattr_n Example.grid co < val)
    /\ ValueError "y" = ValueError (axis_name co).
Proof.
  apply (proj1 (proj2 (within_bounds_all_axes Example.grid
                         [(ax_x, 1); (ax_y, 5); (ax_z, -1)]))).
  reflexivity.
Defined.

Lemma np_full_well_formed {A} (dims : list Z) (v : A) (a : ndarray A) :
  np_full dims v = Ok a -> well_formed a.
Proof.
  intros H. destruct (np_full_data _ _ _ H) as (Hs & _ & Hl).
  unfold well_formed. rewrite Hs. exact Hl.
Qed.

Lemma np_full_dims {A} (dims : list Z) (v : A) (a : ndarray A) :
  np_full dims v = Ok a -> Forall (fun d => 0 <= d) dims.
Proof.
  unfold np_full. destruct (forallb _ dims) eqn:E; [|discriminate].
  intros _. rewrite forallb_forall in E. apply Forall_forall. intros d Hd.
  apply Z.leb_le, E. by apply list_elem_of_In.
Qed.

Ltac dims_nonneg H :=
  let Hd := fresh "Hd" in
  pose proof (np_full_dims _ _ _ H) as Hd;
  repeat match goal with
         | Hf : Forall _ (_ :: _) |- _ =>
             let H1 := fresh "Hd" in
             apply Forall_cons in Hf as [H1 Hf]
         end.

(** X2: [initialise_geometry_arrays] does not return when one of nx, ny,
    nz is below -1 (a dimension of the arrays would be negative).  When
    it returns, the two rigid masks hold zeros only, in the shapes 12
    and 6 by (nx+1, ny+1, nz+1), the four arrays hold as many entries as
    their shapes say, and the catalogue, the waveforms, the sources and
    the receivers of the grid are the ones it had. *)
Theorem initialise_geometry_arrays_outcome (G G' : FDTDGrid) :
  initialise_geometry_arrays G = Ok G' ->
  (-1 <= nx G /\ -1 <= ny G /\ -1 <= nz G)
  /\ shape (rigidE G') = [12; nx G + 1; ny G + 1; nz G + 1]
  /\ shape (rigidH G') = [6; nx G + 1; ny G + 1; nz G + 1]
  /\ Forall (eq 0) (data (rigidE G')) /\ Forall (eq 0) (data (rigidH G'))
  /\ well_formed (solid G') /\ well_formed (ID G')
  /\ well_formed (rigidE G') /\ well_formed (rigidH G')
  /\ materials G' = materials G /\ waveforms G' = waveforms G
  /\ voltagesources G' = voltagesources G
  /\ hertziandipoles G' = hertziandipoles G
  /\ magneticdipoles G' = magneticdipoles G
  /\ transmissionlines G' = transmissionlines G
  /\ rxs G' = rxs G.
Proof.
  unfold initialise_geometry_arrays, np_ones, np_zeros. intros H.
  apply bind_Ok in H as (s & Hs & H). apply bind_Ok in H as (rE & HrE & H).
  apply bind_Ok in H as (rH & HrH & H). apply bind_Ok in H as (i & Hi & H).
  injection H as <-. simpl.
  destruct (np_full_data _ _ _ HrE) as (HsE & HzE & _).
  destruct (np_full_data _ _ _ HrH) as (HsH & HzH & _).
  split.
  { dims_nonneg Hs. lia. }
  repeat split; eauto using np_full_well_formed.
Qed.

Lemma initialise_geometry_arrays_outcome_witness :
  exists G',
    initialise_geometry_arrays Example.grid = Ok G'
    /\ shape (rigidE G') = [12; 3; 3; 3]
    /\ Forall (eq 0) (data (rigidH G'))
    /\ materials G' = [Example.pec; Example.free_space].
Proof.
  eexists. split; [reflexivity|].
  edestruct (initialise_geometry_arrays_outcome Example.grid _ eq_refl)
    as (_ & HsE & _ & _ & HzH & _ & _ & _ & _ & Hm & _).
  split; [exact HsE|]. split; [exact HzH | exact Hm].
Defined.

(** X3: [initialise_field_arrays] does not return for a grid with a
    negative number of cells.  When it returns, the six arrays hold no
    NaN and no Inf, and every sample, at the places the Yee staggering
    gives to each component, is zero. *)
Theorem initialise_field_arrays_zero (G : FDTDGrid) (F : Fields) :
  initialise_field_arrays G = Ok F ->
  (0 <= nx G /\ 0 <= ny G /\ 0 <= nz G)
  /\ has_nan_or_inf F = false
  /\ (forall x y z, 0 <= x < nx G -> 0 <= y <= ny G -> 0 <= z <= nz G ->
      getitem (Ex F) [x; y; z] = Ok (finite 0))
  /\ (forall x y z, 0 <= x <= nx G -> 0 <= y < ny G -> 0 <= z <= nz G ->
      getitem (Ey F) [x; y; z] = Ok (finite 0))
  /\ (forall x y z, 0 <= x <= nx G -> 0 <= y <= ny G -> 0 <= z < nz G ->
      getitem (Ez F) [x; y; z] = Ok (finite 0))
  /\ (forall x y z, 0 <= x <= nx G -> 0 <= y < ny G -> 0 <= z < nz G ->
      getitem (Hx F) [x; y; z] = Ok (finite 0))
  /\ (forall x y z, 0 <= x < nx G -> 0 <= y <= ny G -> 0 <= z < nz G ->
      getitem (Hy F) [x; y; z] = Ok (finite 0))
  /\ (forall x y z, 0 <= x < nx G -> 0 <= y < ny G -> 0 <= z <= nz G ->
      getitem (Hz F) [x; y; z] = Ok (finite 0)).
Proof.
  unfold initialise_field_arrays. intros H.
  apply bind_Ok in H as (ex & Hex & H). apply bind_Ok in H as (ey & Hey & H).
  apply bind_Ok in H as (ez & Hez & H). apply bind_Ok in H as (hx & Hhx & H).
  apply bind_Ok in H as (hy & Hhy & H). apply bind_Ok in H as (hz & Hhz & H).
  injection H as <-.
  split.
  { dims_nonneg Hhx. dims_nonneg Hhy. lia. }
  split.
  - unfold has_nan_or_inf. simpl.
    assert (Hfin : forall a : ndarray sample,
               Forall (eq (finite 0)) (data a) ->
               existsb (fun s => negb (isfinite s)) (data a) = false).
    { intros a Ha. apply not_true_iff_false. intros H.
      apply existsb_exists in H as (s & Hs & Hneg).
      rewrite Forall_forall in Ha. apply list_elem_of_In in Hs.
      rewrite <- (Ha s Hs) in Hneg. discriminate. }
    rewrite !Hfin; [reflexivity | eapply np_full_data; eassumption ..].
  - simpl. repeat split; intros x y z Hx Hy Hz;
      (eapply getitem_np_full; [eassumption|]);
      apply offset3_in_range; lia.
Qed.

Lemma initialise_field_arrays_zero_witness :
  exists F,
    initialise_field_arrays Example.grid = Ok F
    /\ has_nan_or_inf F = false
    /\ getitem (Ex F) [1; 2; 2] = Ok (finite 0).
Proof.
  eexists. split; [reflexivity|].
  edestruct (initialise_field_arrays_zero Example.grid _ eq_refl)
    as (_ & Hfin & HEx & _).
  split; [exact Hfin|]. apply HEx; simpl; lia.
Defined.

Lemma getitem_np_full_iff {A} (dims idx : list Z) (v : A) (a : ndarray A) :
  np_full dims v = Ok a ->
  getitem a idx = Ok v <-> exists o, offset dims idx 0 = Ok o.
Proof.
  intros Ha. split.
  - intros H. unfold getitem in H. apply bind_Ok in H as (o & Ho & _).
    destruct (np_full_data _ _ _ Ha) as (Hs & _). rewrite Hs in Ho. eauto.
  - intros (o & Ho). eapply getitem_np_full; eassumption.
Qed.

Lemma offset_pole (maxpoles p : Z) (dims idx : list Z) :
  0 <= p < maxpoles ->
  (exists o, offset (maxpoles :: dims) (p :: idx) 0 = Ok o)
  <-> (exists o, offset dims idx 0 = Ok o).
Proof.
  intros Hp. simpl. rewrite (np_index_in_range _ _ Hp). simpl.
  split; intros (o & Ho); eapply offset_Ok_acc; exact Ho.
Qed.

(** X4: the arrays of the dispersive update fit the electric field
    arrays: for every pole [p] below [maxpoles], Tx (Ty, Tz) has a
    sample at [p, x, y, z], and it is zero, exactly where Ex (Ey, Ez)
    has one at [x, y, z]. *)
Theorem dispersive_arrays_fit_fields (maxpoles : Z) (G : FDTDGrid)
    (F : Fields) (T : DispersiveArrays) :
  initialise_field_arrays G = Ok F ->
  initialise_dispersive_arrays maxpoles G = Ok T ->
  forall p x y z,
    0 <= p < maxpoles ->
    (getitem (Tx T) [p; x; y; z] = Ok (0%Q, 0%Q)
     <-> getitem (Ex F) [x; y; z] = Ok (finite 0))
    /\ (getitem (Ty T) [p; x; y; z] = Ok (0%Q, 0%Q)
        <-> getitem (Ey F) [x; y; z] = Ok (finite 0))
    /\ (getitem (Tz T) [p; x; y; z] = Ok (0%Q, 0%Q)
        <-> getitem (Ez F) [x; y; z] = Ok (finite 0)).
Proof.
  unfold initialise_field_arrays, initialise_dispersive_arrays.
  intros HF HT p x y z Hp.
  apply bind_Ok in HF as (ex & Hex & HF). apply bind_Ok in HF as (ey & Hey & HF).
  apply bind_Ok in HF as (ez & Hez & HF). apply bind_Ok in HF as (hx & _ & HF).
  apply bind_Ok in HF as (hy & _ & HF). apply bind_Ok in HF as (hz & _ & HF).
  injection HF as <-.
  apply bind_Ok in HT as (tx & Htx & HT). apply bind_Ok in HT as (ty & Hty & HT).
  apply bind_Ok in HT as (tz & Htz & HT). apply bind_Ok in HT as (cf & _ & HT).
  injection HT as <-. simpl.
  rewrite (getitem_np_full_iff _ _ _ _ Htx), (getitem_np_full_iff _ _ _ _ Hex).
  rewrite (getitem_np_full_iff _ _ _ _ Hty), (getitem_np_full_iff _ _ _ _ Hey).
  rewrite (getitem_np_full_iff _ _ _ _ Htz), (getitem_np_full_iff _ _ _ _ Hez).
  repeat split; apply (offset_pole maxpoles p _ [x; y; z] Hp).
Qed.

Lemma dispersive_arrays_fit_fields_witness :
  exists F T,
    initialise_field_arrays Example.grid = Ok F
    /\ initialise_dispersive_arrays 2 Example.grid = Ok T
    /\ (getitem (Tz T) [1; 2; 2; 1] = Ok (0%Q, 0%Q)
        <-> getitem (Ez F) [2; 2; 1] = Ok (finite 0)).
Proof.
  eexists. eexists. split; [reflexivity|]. split; [reflexivity|].
  apply (dispersive_arrays_fit_fields 2 Example.grid _ _ eq_refl eq_refl
           1 2 2 1).
  lia.
Defined.




(** X6: [getWaveform] returns the first waveform of the grid that has
    the identifier, also when later ones share it, and raises
    StopIteration exactly when no waveform has it. *)
Theorem getWaveform_first (G : FDTDGrid) (id : string) :
  (getWaveform G id = Raise StopIteration
   <-> Forall (fun w => Waveform.ID w <> id) (waveforms G))
  /\ (forall w, getWaveform G id = Ok w ->
      exists pre post,
        waveforms G = pre ++ w :: post
        /\ Waveform.ID w = id
        /\ Forall (fun w' => Waveform.ID w' <> id) pre).
Proof.
  unfold getWaveform. induction (waveforms G) as [|w0 ws [IH1 IH2]]; simpl.
  - split; [split; [constructor | reflexivity] | discriminate].
  - destruct (String.eqb_spec (Waveform.ID w0) id) as [Heq|Hne].
    + split.
      * split; [discriminate|]. intros H. inversion H; subst. contradiction.
      * intros w [= <-]. exists [], ws. repeat split; [assumption | constructor].
    + split.
      * rewrite IH1. split; [by constructor | intros H; by inversion H].
      * intros w Hw. destruct (IH2 w Hw) as (pre & post & -> & Hid & Hpre).
        exists (w0 :: pre), post. repeat split; [assumption | by constructor].
Qed.

Lemma getWaveform_first_witness :
  exists pre post,
    waveforms Example.impulse_grid = pre ++ Example.impulse :: post
    /\ Waveform.ID Example.impulse = "my_impulse"
    /\ Forall (fun w' => Waveform.ID w' <> "my_impulse") pre.
Proof.
  apply (proj2 (getWaveform_first Example.impulse_grid "my_impulse")).
  reflexivity.
Defined.

(** X7: [initialise_std_update_coeff_arrays] always succeeds; both
    arrays hold a row of five zeros for every place of the catalogue,
    and no row beyond it: the row index [len(G.materials)] is an
    IndexError. *)
Theorem std_update_coeff_arrays_rows (G : FDTDGrid) :
  exists C,
    initialise_std_update_coeff_arrays G = Ok C
    /\ (forall i j,
          0 <= i < Z.of_nat (length (materials G)) -> 0 <= j < 5 ->
          getitem (updatecoeffsE C) [i; j] = Ok 0%Q
          /\ getitem (updatecoeffsH C) [i; j] = Ok 0%Q)
    /\ (forall i j,
          Z.of_nat (length (materials G)) <= i ->
          getitem (updatecoeffsE C) [i; j] = Raise IndexError
          /\ getitem (updatecoeffsH C) [i; j] = Raise IndexError).
Proof.
  unfold initialise_std_update_coeff_arrays.
  destruct (np_full_Ok [Z.of_nat (length (materials G)); 5] 0%Q) as [E HE].
  { repeat constructor; lia. }
  rewrite HE. simpl. eexists. split; [reflexivity|]. simpl.
  destruct (np_full_data _ _ _ HE) as (Hs & _). split.
  - intros i j Hi Hj.
    assert (Hget : getitem E [i; j] = Ok 0%Q).
    { eapply getitem_np_full; [exact HE|]. simpl.
      rewrite (np_index_in_range _ _ Hi). simpl.
      rewrite (np_index_in_range _ _ Hj). reflexivity. }
    split; exact Hget.
  - intros i j Hi.
    assert (Hget : getitem E [i; j] = Raise IndexError).
    { unfold getitem. rewrite Hs. simpl. unfold np_index.
      replace ((0 <=? i) && (i <? Z.of_nat (length (materials G))))
        with false by (symmetry; apply andb_false_iff; lia).
      replace ((- Z.of_nat (length (materials G)) <=? i) && (i <? 0))
        with false by (symmetry; apply andb_false_iff; lia).
      reflexivity. }
    split; exact Hget.
Qed.

Lemma std_update_coeff_arrays_rows_witness :
  exists C,
    initialise_std_update_coeff_arrays Example.grid = Ok C
    /\ getitem (updatecoeffsE C) [1; 4] = Ok 0%Q
    /\ getitem (updatecoeffsH C) [2; 0] = Raise IndexError.
Proof.
  destruct (std_update_coeff_arrays_rows Example.grid) as (C & HC & Hin & Hout).
  exists C. split; [exact HC|]. split.
  - apply (Hin 1 4); simpl; lia.
  - apply (Hout 2 0). simpl. lia.
Defined.

(** ** The components of current *)

(** X8: on magnetic field arrays of the shapes that
    [initialise_field_arrays] gives them, [Ix], [Iy] and [Iz] return a
    value, and raise nothing, at every cell [0 <= x < nx],
    [0 <= y < ny], [0 <= z < nz] of the grid. *)
Theorem currents_defined_in_grid (x y z : Z) (Hx Hy Hz : ndarray Q)
    (G : FDTDGrid) :
  shape Hx = [nx G + 1; ny G; nz G] -> well_formed Hx ->
  shape Hy = [nx G; ny G + 1; nz G] -> well_formed Hy ->
  shape Hz = [nx G; ny G; nz G + 1] -> well_formed Hz ->
  0 <= x < nx G -> 0 <= y < ny G -> 0 <= z < nz G ->
  exists ix iy iz : Q,
    Ix x y z Hy Hz G = Ok ix /\ Iy x y z Hx Hz G = Ok iy
    /\ Iz x y z Hx Hy G = Ok iz.
Proof.
  intros HsX HwX HsY HwY HsZ HwZ Hx' Hy' Hz'.
  assert (HIx : exists ix, Ix x y z Hy Hz G = Ok ix).
  { destruct (Z.eq_dec y 0) as [->|]; [by exists 0%Q|].
    destruct (Z.eq_dec z 0) as [->|].
    { exists 0%Q. unfold Ix. by rewrite orb_true_r. }
    assert (Ha : exists v, getitem Hy [x; y; z - 1] = Ok v)
      by read_inside Hy.
    assert (Hb : exists v, getitem Hy [x; y; z] = Ok v)
      by read_inside Hy.
    assert (Hc : exists v, getitem Hz [x; y; z] = Ok v)
      by read_inside Hz.
    assert (Hd : exists v, getitem Hz [x; y - 1; z] = Ok v)
      by read_inside Hz.
    destruct Ha as [a Ha], Hb as [b Hb], Hc as [c Hc], Hd as [d Hd].
    unfold Ix. off_lower_face. rewrite Ha, Hb, Hc, Hd. simpl. eauto. }
  assert (HIy : exists iy, Iy x y z Hx Hz G = Ok iy).
  { destruct (Z.eq_dec x 0) as [->|]; [by exists 0%Q|].
    destruct (Z.eq_dec z 0) as [->|].
    { exists 0%Q. unfold Iy. by rewrite orb_true_r. }
    assert (Ha : exists v, getitem Hx [x; y; z] = Ok v)
      by read_inside Hx.
    assert (Hb : exists v, getitem Hx [x; y; z - 1] = Ok v)
      by read_inside Hx.
    assert (Hc : exists v, getitem Hz [x - 1; y; z] = Ok v)
      by read_inside Hz.
    assert (Hd : exists v, getitem Hz [x; y; z] = Ok v)
      by read_inside Hz.
    destruct Ha as [a Ha], Hb as [b Hb], Hc as [c Hc], Hd as [d Hd].
    unfold Iy. off_lower_face. rewrite Ha, Hb, Hc, Hd. simpl. eauto. }
  assert (HIz : exists iz, Iz x y z Hx Hy G = Ok iz).
  { destruct (Z.eq_dec x 0) as [->|]; [by exists 0%Q|].
    destruct (Z.eq_dec y 0) as [->|].
    { exists 0%Q. unfold Iz. by rewrite orb_true_r. }
    assert (Ha : exists v, getitem Hx [x; y - 1; z] = Ok v)
      by read_inside Hx.
    assert (Hb : exists v, getitem Hx [x; y; z] = Ok v)
      by read_inside Hx.
    assert (Hc : exists v, getitem Hy [x; y; z] = Ok v)
      by read_inside Hy.
    assert (Hd : exists v, getitem Hy [x - 1; y; z] = Ok v)
      by read_inside Hy.
    destruct Ha as [a Ha], Hb as [b Hb], Hc as [c Hc], Hd as [d Hd].
    unfold Iz. off_lower_face. rewrite Ha, Hb, Hc, Hd. simpl. eauto. }
  destruct HIx as [ix HIx], HIy as [iy HIy], HIz as [iz HIz].
  exists ix, iy, iz. auto.
Qed.

Lemma currents_defined_in_grid_witness :
  exists ix iy iz : Q,
    Ix 1 1 1 Example.aHy Example.aHz Example.grid = Ok ix
    /\ Iy 1 1 1 Example.aHx Example.aHz Example.grid = Ok iy
    /\ Iz 1 1 1 Example.aHx Example.aHy Example.grid = Ok iz.
Proof.
  apply (currents_defined_in_grid 1 1 1 Example.aHx Example.aHy Example.aHz
           Example.grid); try reflexivity; simpl; lia.
Defined.

Lemma getitem_uniform {A} (a : ndarray A) (idx : list Z) (h v : A) :
  Forall (eq h) (data a) -> getitem a idx = Ok v -> v = h.
Proof.
  intros Hall H. unfold getitem in H. apply bind_Ok in H as (o & _ & H).
  destruct (data a !! Z.to_nat o) as [u|] eqn:E; [|discriminate].
  injection H as <-. rewrite Forall_forall in Hall. symmetry.
  apply Hall. eapply list_elem_of_lookup_2. exact E.
Qed.

(** X9: a uniform magnetic field carries no current: when all the
    samples of each magnetic field array are equal, whatever [Ix], [Iy]
    and [Iz] return is zero. *)
Theorem uniform_field_no_current (x y z : Z) (Hx Hy Hz : ndarray Q)
    (G : FDTDGrid) (hx hy hz : Q) :
  Forall (eq hx) (data Hx) -> Forall (eq hy) (data Hy) ->
  Forall (eq hz) (data Hz) ->
  (forall i, Ix x y z Hy Hz G = Ok i -> (i == 0)%Q)
  /\ (forall i, Iy x y z Hx Hz G = Ok i -> (i == 0)%Q)
  /\ (forall i, Iz x y z Hx Hy G = Ok i -> (i == 0)%Q).
Proof.
  intros HuX HuY HuZ. unfold Ix, Iy, Iz.
  repeat split; intros i H;
    (destruct (_ || _); [injection H as <-; reflexivity|]);
    apply bind_Ok in H as (a & Ha & H); apply bind_Ok in H as (b & Hb & H);
    apply bind_Ok in H as (c & Hc & H); apply bind_Ok in H as (d & Hd & H);
    injection H as <-;
    repeat match goal with
           | Hg : getitem ?arr _ = Ok ?v, Hu : Forall (eq _) (data ?arr) |- _ =>
               apply (getitem_uniform _ _ _ _ Hu) in Hg; subst v
           end;
    ring.
Qed.

Lemma uniform_field_no_current_witness :
  exists i,
    Ix 1 1 1 (mk_ndarray [2; 3; 2] (replicate 12 (7 # 2)))
      (mk_ndarray [2; 2; 3] (replicate 12 (1 # 3))) Example.grid = Ok i
    /\ (i == 0)%Q.
Proof.
  destruct (uniform_field_no_current 1 1 1
              (mk_ndarray [3; 2; 2] (replicate 12 0%Q))
              (mk_ndarray [2; 3; 2] (replicate 12 (7 # 2)))
              (mk_ndarray [2; 2; 3] (replicate 12 (1 # 3)))
              Example.grid 0 (7 # 2) (1 # 3)) as (HIx & _);
    [cbv [replicate data]; repeat constructor ..|].
  eexists. split; [reflexivity|]. apply HIx. reflexivity.
Defined.

(** ** The catalogue and the ID array through the voltage sources *)

Lemma for_result_invariant {A S} (P : S -> Prop) (l : list A)
    (body : S -> A -> result S) (s s' : S) :
  (forall s0 a s1, In a l -> P s0 -> body s0 a = Ok s1 -> P s1) ->
  P s -> for_result l body s = Ok s' -> P s'.
Proof.
  revert s. induction l as [|a l IH]; intros s Hstep Hs; simpl.
  - intros [= <-]. exact Hs.
  - intros H. apply bind_Ok in H as (s1 & Ha & H).
    apply (IH s1); [intros; eapply Hstep; eauto; by right | | exact H].
    eapply Hstep; eauto. by left.
Qed.

(** What one pass of the loop does, read backwards from its result. *)
Lemma voltage_source_material_inv (str : float -> string) (G G' : FDTDGrid)
    (source : Source.t) :
  voltage_source_material str G source = Ok G' ->
  exists v m ID',
    getitem (ID G) (source_edge source) = Ok v
    /\ next_material (materials G) v = Ok m
    /\ setitem (ID G) (source_edge source) (Z.of_nat (length (materials G)))
       = Ok ID'
    /\ G' = set_materials (set_ID G ID')
              (materials G
               ++ [derive_material str m source
                     (Z.of_nat (length (materials G)))
                     (source_conductivity G source)]).
Proof.
  unfold voltage_source_material, source_edge, source_conductivity, py_div.
  destruct (Source.polarisation source); simpl; intros H;
    apply bind_Ok in H as (v & Hv & H);
    apply bind_Ok in H as (m & Hm & H);
    apply bind_Ok in H as (inc & Hinc & H);
    apply bind_Ok in H as (ID' & HID & H);
    injection H as <-;
    (destruct (feqb _ f0); [discriminate|]); injection Hinc as <-;
    exists v, m, ID'; repeat split; assumption.
Qed.

Lemma voltage_loop_invariant (str : float -> string) (P : FDTDGrid -> Prop)
    (G G' : FDTDGrid) :
  (forall G0 s G1, In s (voltagesources G) -> P G0 ->
     voltage_source_material str G0 s = Ok G1 -> P G1) ->
  P G -> voltage_source_materials str G = Ok G' -> P G'.
Proof.
  intros Hstep HG. unfold voltage_source_materials.
  destruct (truthy (voltagesources G)); [|intros [= <-]; exact HG].
  apply for_result_invariant; [|exact HG].
  intros G0 s G1 Hin HP. destruct (negb _); [by apply Hstep|].
  intros [= <-]. exact HP.
Qed.

Lemma catalogue_ok_app (ms : list Material.t) (m : Material.t) :
  catalogue_ok ms -> Material.numID m = Z.of_nat (length ms) ->
  catalogue_ok (ms ++ [m]).
Proof.
  intros Hok Hm i m' Hi.
  destruct (decide (i < length ms)%nat) as [Hlt|Hge].
  - rewrite lookup_app_l in Hi by exact Hlt. by apply Hok.
  - rewrite lookup_app_r in Hi by lia.
    destruct (i - length ms)%nat as [|k] eqn:E; simpl in Hi; [|discriminate].
    injection Hi as <-. rewrite Hm. f_equal. lia.
Qed.

(** X10: the loop over the voltage sources keeps the catalogue in step
    with the coefficient tables: if the [numID] of every material is its
    place in [G.materials] before the loop, it is so after it, the
    derived materials included. *)
Theorem voltage_source_materials_keep_catalogue (str : float -> string)
    (G G' : FDTDGrid) :
  catalogue_ok (materials G) ->
  voltage_source_materials str G = Ok G' ->
  catalogue_ok (materials G').
Proof.
  intros Hok. apply (voltage_loop_invariant str (fun G => catalogue_ok (materials G)));
    [|exact Hok].
  intros G0 s G1 _ H0 H.
  apply voltage_source_material_inv in H as (v & m & ID' & _ & _ & _ & ->).
  simpl. apply catalogue_ok_app; [exact H0 | reflexivity].
Qed.

(** X11: the loop over the voltage sources keeps the ID array valid: if
    every entry of [G.ID] is a place of the catalogue before the loop,
    every entry is one after it. *)
Theorem voltage_source_materials_keep_ID_valid (str : float -> string)
    (G G' : FDTDGrid) :
  ID_valid G ->
  voltage_source_materials str G = Ok G' ->
  ID_valid G'.
Proof.
  intros Hok. apply (voltage_loop_invariant str ID_valid); [|exact Hok].
  intros G0 s G1 _ H0 H.
  apply voltage_source_material_inv in H as (v & m & ID' & _ & _ & Hset & ->).
  apply setitem_shape in Hset as (_ & _ & o & Ho & Hdata).
  unfold ID_valid in *. simpl. rewrite Hdata, length_app. simpl.
  apply Forall_insert; [|lia].
  eapply Forall_impl; [exact H0|]. simpl. intros x Hx. lia.
Qed.

(** X12: the ID array that [initialise_geometry_arrays] makes is valid
    exactly when the catalogue has a material at place 1, the number
    the array is filled with: with fewer than two materials every entry
    of the new array names a material that does not exist. *)
Theorem initialise_geometry_arrays_ID_valid (G G' : FDTDGrid) :
  initialise_geometry_arrays G = Ok G' ->
  ((2 <= length (materials G))%nat -> ID_valid G')
  /\ ((length (materials G) < 2)%nat ->
      Forall (fun v => ~ 0 <= v < Z.of_nat (length (materials G')))
        (data (ID G'))).
Proof.
  unfold initialise_geometry_arrays, np_ones, np_zeros. intros H.
  apply bind_Ok in H as (s & _ & H). apply bind_Ok in H as (rE & _ & H).
  apply bind_Ok in H as (rH & _ & H). apply bind_Ok in H as (i & Hi & H).
  injection H as <-. unfold ID_valid. simpl.
  destruct (np_full_data _ _ _ Hi) as (_ & Hones & _).
  split; intros Hlen; (eapply Forall_impl; [exact Hones|]);
    simpl; intros x <-; lia.
Qed.

Lemma initialise_geometry_arrays_ID_valid_witness :
  ID_valid Example.built.
Proof.
  apply (initialise_geometry_arrays_ID_valid Example.grid Example.built);
    [reflexivity | simpl; lia].
Defined.

Lemma example_catalogue_ok : catalogue_ok (materials Example.built).
Proof.
  intros i m H. destruct i as [|[|i]]; simpl in H; [| |discriminate];
    injection H as <-; reflexivity.
Qed.

Lemma voltage_source_materials_keep_catalogue_witness :
  exists G',
    voltage_source_materials Example.str_50 Example.built = Ok G'
    /\ catalogue_ok (materials G').
Proof.
  eexists. split; [reflexivity|].
  apply (voltage_source_materials_keep_catalogue Example.str_50 Example.built);
    [apply example_catalogue_ok | reflexivity].
Defined.

Lemma example_ID_valid : ID_valid Example.built.
Proof.
  unfold ID_valid. apply Forall_forall. intros x Hx.
  vm_compute in Hx. apply list_elem_of_In in Hx.
  repeat (destruct Hx as [<-|Hx]; [simpl; lia|]). destruct Hx.
Qed.

Lemma voltage_source_materials_keep_ID_valid_witness :
  exists G',
    voltage_source_materials Example.str_50 Example.built = Ok G'
    /\ ID_valid G'.
Proof.
  eexists. split; [reflexivity|].
  apply (voltage_source_materials_keep_ID_valid Example.str_50 Example.built);
    [apply example_ID_valid | reflexivity].
Defined.

Lemma getitem_setitem_ne {A} (a a' : ndarray A) (idx idx' : list Z) (v : A) :
  setitem a idx v = Ok a' ->
  Forall (fun i => 0 <= i) idx -> Forall (fun i => 0 <= i) idx' ->
  idx <> idx' ->
  getitem a' idx' = getitem a idx'.
Proof.
  unfold setitem, getitem. intros Hset Hp Hp' Hne.
  apply bind_Ok in Hset as (o & Ho & Hset).
  destruct (decide _) as [Hlt|]; [|discriminate].
  injection Hset as <-. simpl.
  destruct (offset (shape a) idx' 0) as [o'|e] eqn:Ho'; simpl; [|reflexivity].
  assert (Hoo : o <> o').
  { intros ->. destruct (offset_inj _ _ _ _ _ _ Ho Ho') as [_ Heq];
      [lia | lia | assumption ..|]. contradiction. }
  apply offset_bounds in Ho; [|lia]. apply offset_bounds in Ho'; [|lia].
  rewrite list_lookup_insert_ne; [reflexivity|].
  assert (0 <= o /\ 0 <= o') as [H1 H2]; [|lia].
  split; nia.
Qed.

Lemma source_edge_nonneg (s : Source.t) :
  0 <= Source.positionx s -> 0 <= Source.positiony s ->
  0 <= Source.positionz s ->
  Forall (fun i => 0 <= i) (source_edge s).
Proof.
  intros Hx Hy Hz. unfold source_edge.
  repeat constructor; try assumption.
  destruct (Source.polarisation s); simpl; lia.
Qed.

(** X13: one pass of the loop over the voltage sources writes one entry
    of the ID array and nothing else of the geometry: the entries of
    [ID] at every other place, the solid array and the rigid masks are
    as before, the materials that were in the catalogue stay in their
    places, and sources, receivers and cell sizes are untouched. *)
Theorem voltage_source_material_frame (str : float -> string) (G G' : FDTDGrid)
    (source : Source.t) :
  voltage_source_material str G source = Ok G' ->
  0 <= Source.positionx source -> 0 <= Source.positiony source ->
  0 <= Source.positionz source ->
  (forall idx, Forall (fun i => 0 <= i) idx -> idx <> source_edge source ->
     getitem (ID G') idx = getitem (ID G) idx)
  /\ solid G' = solid G /\ rigidE G' = rigidE G /\ rigidH G' = rigidH G
  /\ (forall i m, materials G !! i = Some m -> materials G' !! i = Some m)
  /\ voltagesources G' = voltagesources G
  /\ hertziandipoles G' = hertziandipoles G
  /\ magneticdipoles G' = magneticdipoles G
  /\ rxs G' = rxs G
  /\ (dx G', dy G', dz G') = (dx G, dy G, dz G).
Proof.
  intros H Hx Hy Hz.
  apply voltage_source_material_inv in H as (v & m & ID' & _ & _ & Hset & ->).
  simpl. split.
  - intros idx Hidx Hne. eapply getitem_setitem_ne; eauto.
    by apply source_edge_nonneg.
  - repeat split. intros i m' Hi. apply lookup_app_l_Some. exact Hi.
Qed.

Lemma voltage_source_material_frame_witness :
  exists G',
    voltage_source_material Example.str_50 Example.built Example.vs = Ok G'
    /\ getitem (ID G') [0; 1; 1; 0] = Ok 1
    /\ solid G' = solid Example.built.
Proof.
  eexists. split; [reflexivity|].
  edestruct (voltage_source_material_frame Example.str_50 Example.built _
               Example.vs eq_refl) as (HID & Hsolid & _); [simpl; lia ..|].
  split; [|exact Hsolid].
  rewrite HID; [reflexivity | repeat constructor; lia | discriminate].
Defined.

Lemma voltage_source_material_succeeds (str : float -> string) (G : FDTDGrid)
    (s : Source.t) (v : Z) (m : Material.t) :
  getitem (ID G) (source_edge s) = Ok v ->
  next_material (materials G) v = Ok m ->
  feqb
    (fmul
       (fmul (Source.resistance s)
          (getattr_d G (get_other_directions (Source.polarisation s)).1))
       (getattr_d G (get_other_directions (Source.polarisation s)).2))
    f0 = false ->
  exists G', voltage_source_material str G s = Ok G'.
Proof.
  unfold source_edge, voltage_source_material. intros HID Hnext Hdiv.
  destruct (setitem_Ok (ID G) _ v (Z.of_nat (length (materials G))) HID)
    as (ID' & Hset & _).
  destruct (Source.polarisation s); simpl in *;
    rewrite HID; simpl; rewrite Hnext; simpl;
    rewrite py_div_Ok by exact Hdiv; simpl;
    rewrite Hset; simpl; eauto.
Qed.

Lemma next_material_in_catalogue (ms : list Material.t) (v : Z) :
  catalogue_ok ms -> 0 <= v < Z.of_nat (length ms) ->
  exists m, next_material ms v = Ok m.
Proof.
  intros Hok Hv. unfold next_material.
  destruct (List.find _ ms) as [m|] eqn:E; [eauto|].
  destruct (lookup_lt_is_Some_2 ms (Z.to_nat v)) as [m Hm]; [lia|].
  pose proof (Hok _ _ Hm) as Hnum.
  apply list_elem_of_lookup_2, list_elem_of_In in Hm.
  apply (List.find_none _ _ E) in Hm. simpl in Hm. lia.
Qed.

Lemma getitem_in_data {A} (a : ndarray A) (idx : list Z) (v : A) :
  getitem a idx = Ok v -> In v (data a).
Proof.
  unfold getitem. intros H. apply bind_Ok in H as (o & _ & H).
  destruct (data a !! Z.to_nat o) eqn:E; [|discriminate]. injection H as <-.
  apply list_elem_of_In. eapply list_elem_of_lookup_2. exact E.
Qed.

Lemma voltage_step_built_like (str : float -> string) (G G0 : FDTDGrid)
    (s : Source.t) :
  built_like G G0 -> source_in_grid G s ->
  feqb (Source.resistance s) f0 = false ->
  exists G1, voltage_source_material str G0 s = Ok G1 /\ built_like G G1.
Proof.
  intros (Hcat & Hval & Hwf & Hshape & Hd) Hs HR.
  destruct (Hs HR) as (Hx & Hy & Hz & Hdiv).
  assert (Hget : exists v, getitem (ID G0) (source_edge s) = Ok v).
  { apply getitem_Ok_offset; [exact Hwf|]. rewrite Hshape. unfold source_edge.
    eexists. apply offset4_in_range; try lia.
    destruct (Source.polarisation s); simpl; lia. }
  destruct Hget as [v Hv].
  assert (Hvalid : 0 <= v < Z.of_nat (length (materials G0))).
  { apply getitem_in_data in Hv. unfold ID_valid in Hval.
    rewrite Forall_forall in Hval. apply Hval. by apply list_elem_of_In. }
  destruct (next_material_in_catalogue _ _ Hcat Hvalid) as [m Hm].
  injection Hd as Hdx Hdy Hdz.
  destruct (voltage_source_material_succeeds str G0 s v m Hv Hm)
    as [G1 HG1].
  { destruct (Source.polarisation s); simpl in *;
      rewrite ?Hdx, ?Hdy, ?Hdz; exact Hdiv. }
  exists G1. split; [exact HG1|].
  apply voltage_source_material_inv in HG1
    as (v' & m' & ID' & _ & _ & Hset & ->).
  apply setitem_shape in Hset as (Hsh & Hlen & o & Ho & Hdata).
  unfold built_like, ID_valid, well_formed. simpl.
  split; [apply catalogue_ok_app; [exact Hcat | reflexivity]|].
  split.
  { rewrite Hdata, length_app. simpl. apply Forall_insert; [|lia].
    eapply Forall_impl; [exact Hval|]. simpl. intros x Hx'. lia. }
  split; [rewrite Hlen, Hsh; exact Hwf|].
  split; [rewrite Hsh; exact Hshape|]. congruence.
Qed.

Lemma voltage_loop_returns (str : float -> string) (G : FDTDGrid) :
  built_like G G ->
  Forall (source_in_grid G) (voltagesources G) ->
  exists G', voltage_source_materials str G = Ok G' /\ built_like G G'.
Proof.
  intros HG Hsrc. unfold voltage_source_materials.
  assert (Hloop : forall l G0,
    built_like G G0 -> Forall (source_in_grid G) l ->
    exists G1,
      for_result l
        (fun G source =>
           if negb (feqb (Source.resistance source) f0)
           then voltage_source_material str G source else Ok G) G0 = Ok G1
      /\ built_like G G1).
  { induction l as [|s l IH]; intros G0 H0 Hl; simpl; [eauto|].
    inversion Hl as [|? ? Hs Hl']; subst.
    destruct (feqb (Source.resistance s) f0) eqn:E; simpl.
    - apply IH; assumption.
    - destruct (voltage_step_built_like str G G0 s H0 Hs E) as (G1 & -> & H1).
      simpl. apply IH; assumption. }
  destruct (truthy (voltagesources G)); [apply Hloop; assumption | eauto].
Qed.

(** X14: on a built grid the loop over the voltage sources raises
    nothing.  If the [numID]s of the catalogue are its places, [ID] has
    the shape 6 by (nx+1, ny+1, nz+1) and holds places of the catalogue
    only, and every voltage source with a resistance lies on a node of
    the grid and has a divisor [R * d_b * d_c] that the floats have not
    rounded to zero, the loop returns, and the grid it returns is again
    of this kind. *)
Theorem voltage_source_materials_succeed (str : float -> string) (G : FDTDGrid) :
  built_like G G ->
  Forall (source_in_grid G) (voltagesources G) ->
  exists G', voltage_source_materials str G = Ok G' /\ built_like G G'.
Proof. exact (voltage_loop_returns str G). Qed.

Lemma example_built_like : built_like Example.built Example.built.
Proof.
  split; [apply example_catalogue_ok|].
  split; [apply example_ID_valid|]. repeat split.
Qed.

Lemma voltage_source_materials_succeed_witness :
  exists G',
    voltage_source_materials Example.str_50 Example.built = Ok G'
    /\ built_like Example.built G'.
Proof.
  apply (voltage_source_materials_succeed Example.str_50 Example.built).
  - apply example_built_like.
  - constructor 2; [|constructor 1].
    intros _. repeat split; try (simpl; lia).
Defined.

Lemma next_material_derived (ms : list Material.t) (m : Material.t) :
  catalogue_ok ms -> Material.numID m = Z.of_nat (length ms) ->
  next_material (ms ++ [m]) (Z.of_nat (length ms)) = Ok m.
Proof.
  intros Hok Hm. unfold next_material.
  assert (Hnone : Forall (fun x => Material.numID x <> Z.of_nat (length ms)) ms).
  { apply Forall_forall. intros x Hx.
    apply list_elem_of_lookup_1 in Hx as [i Hi].
    rewrite (Hok _ _ Hi). apply lookup_lt_Some in Hi. lia. }
  rewrite <- Hm in Hnone |- *. clear Hok Hm.
  induction Hnone as [|x l Hx _ IH]; simpl.
  - rewrite Z.eqb_refl. reflexivity.
  - destruct (Z.eqb_spec (Material.numID x) (Material.numID m));
      [contradiction | exact IH].
Qed.

(** X15: two voltage sources with a resistance on the same edge stack:
    when the catalogue numbers its materials by their places, the pass
    for the second source finds the material that the pass for the first
    one derived, so that the material the edge ends up with has the
    conductivity of the built material raised by the contribution of
    the first source and then by that of the second, each sum rounded,
    and carries both of them in its name. *)
Theorem voltage_sources_stack (str : float -> string) (G G1 G2 : FDTDGrid)
    (s1 s2 : Source.t) :
  catalogue_ok (materials G) ->
  source_edge s2 = source_edge s1 ->
  voltage_source_material str G s1 = Ok G1 ->
  voltage_source_material str G1 s2 = Ok G2 ->
  exists v m m2,
    getitem (ID G) (source_edge s1) = Ok v
    /\ next_material (materials G) v = Ok m
    /\ getitem (ID G2) (source_edge s1)
       = Ok (Z.of_nat (length (materials G)) + 1)
    /\ next_material (materials G2) (Z.of_nat (length (materials G)) + 1)
       = Ok m2
    /\ Material.se m2
       = fadd (fadd (Material.se m) (source_conductivity G s1))
           (source_conductivity G s2)
    /\ Material.ID m2
       = (Material.ID m +:+ "|VoltageSource_"
          +:+ str (Source.resistance s1))
         +:+ "|VoltageSource_" +:+ str (Source.resistance s2).
Proof.
  intros Hok Hedge H1 H2.
  apply voltage_source_material_inv in H1
    as (v & m & ID1 & Hv & Hm & Hset1 & ->).
  apply voltage_source_material_inv in H2
    as (v2 & m1 & ID2 & Hv2 & Hm1 & Hset2 & ->).
  simpl in *. rewrite Hedge in *.
  rewrite (getitem_setitem _ _ _ _ Hset1) in Hv2. injection Hv2 as <-.
  rewrite next_material_derived in Hm1 by (assumption || reflexivity).
  injection Hm1 as <-.
  exists v, m. eexists. split; [exact Hv|]. split; [exact Hm|].
  split.
  { rewrite (getitem_setitem _ _ _ _ Hset2), length_app. simpl.
    f_equal. lia. }
  split.
  { replace (Z.of_nat (length (materials G)) + 1)
      with (Z.of_nat (length (materials G ++
              [derive_material str m s1 (Z.of_nat (length (materials G)))
                 (source_conductivity G s1)])))
      by (rewrite length_app; simpl; lia).
    apply next_material_derived; [|reflexivity].
    apply catalogue_ok_app; [exact Hok | reflexivity]. }
  split; [|reflexivity].
  simpl. unfold source_conductivity. simpl. reflexivity.
Qed.

Lemma voltage_sources_stack_witness :
  exists G1 G2 m2,
    voltage_source_material Example.str_50 Example.built Example.vs = Ok G1
    /\ voltage_source_material Example.str_50 G1 Example.vs = Ok G2
    /\ next_material (materials G2) 3 = Ok m2
    /\ Material.se m2 = float_of_Z 40.
Proof.
  do 2 eexists.
  destruct (voltage_sources_stack Example.str_50 Example.built _ _
              Example.vs Example.vs example_catalogue_ok eq_refl
              eq_refl eq_refl)
    as (v & m & m2 & Hv & Hm & _ & Hm2 & Hse & _).
  exists m2. split; [reflexivity|]. split; [reflexivity|].
  split; [exact Hm2|].
  injection Hv as <-. injection Hm as <-. rewrite Hse. vm_compute.
  reflexivity.
Defined.

(** ** The voltage sources and the stepping of a run *)

Section VoltageLoopFacts.
Variable str : float -> string.

Local Abbreviation pass :=
  (fun G source =>
     if negb (feqb (Source.resistance source) f0)
     then voltage_source_material str G source
     else Ok G).

Lemma pass_inv (G G' : FDTDGrid) (a : Source.t) :
  pass G a = Ok G' ->
  (feqb (Source.resistance a) f0 = true /\ G' = G)
  \/ (feqb (Source.resistance a) f0 = false
      /\ voltage_source_material str G a = Ok G').
Proof.
  simpl. destruct (feqb (Source.resistance a) f0) eqn:E; simpl.
  - intros [= <-]. by left.
  - intros H. by right.
Qed.

Lemma pass_grows (G G' : FDTDGrid) (a : Source.t) :
  pass G a = Ok G' -> (length (materials G) <= length (materials G'))%nat.
Proof.
  intros H. apply pass_inv in H as [[_ ->]|[_ H]]; [lia|].
  apply voltage_source_material_inv in H as (v & m & ID' & _ & _ & _ & ->).
  simpl. rewrite length_app. lia.
Qed.

Lemma loop_keeps_mark (l : list Source.t) (G0 G1 : FDTDGrid) (idx : list Z)
    (v n : Z) :
  for_result l pass G0 = Ok G1 ->
  getitem (ID G0) idx = Ok v -> n <= v ->
  n <= Z.of_nat (length (materials G0)) ->
  exists v', getitem (ID G1) idx = Ok v' /\ n <= v'.
Proof.
  revert G0 v. induction l as [|a l IH]; intros G0 v H Hv Hn Hlen.
  - injection H as <-. eauto.
  - cbn [for_result] in H. apply bind_Ok in H as (G0' & Ha & H).
    pose proof (pass_grows _ _ _ Ha) as Hgrow.
    apply pass_inv in Ha as [[_ ->]|[_ Ha]]; [by eapply IH|].
    apply voltage_source_material_inv in Ha
      as (u & m & ID' & _ & _ & Hset & ->).
    destruct (getitem_setitem_other _ _ _ idx v _ Hset Hv) as [Hi|Hi];
      (eapply IH; [exact H | exact Hi | lia | simpl in *; lia]).
Qed.

Lemma loop_marks (l : list Source.t) (G0 G1 : FDTDGrid) (s : Source.t) :
  for_result l pass G0 = Ok G1 ->
  In s l -> feqb (Source.resistance s) f0 = false ->
  exists v, getitem (ID G1) (source_edge s) = Ok v
            /\ Z.of_nat (length (materials G0)) <= v.
Proof.
  revert G0. induction l as [|a l IH]; intros G0 H Hin HR; [destruct Hin|].
  cbn [for_result] in H. apply bind_Ok in H as (G0' & Ha & H).
  pose proof (pass_grows _ _ _ Ha) as Hgrow.
  destruct Hin as [->|Hin].
  - apply pass_inv in Ha as [[HR0 _]|[_ Ha]]; [congruence|].
    apply voltage_source_material_inv in Ha
      as (u & m & ID' & _ & _ & Hset & ->).
    eapply loop_keeps_mark; [exact H | | reflexivity | simpl in *; lia].
    simpl. by eapply getitem_setitem.
  - destruct (IH _ H Hin HR) as (v & Hv & Hle). exists v. split; [exact Hv|lia].
Qed.

Lemma loop_frame (l : list Source.t) (G0 G1 : FDTDGrid) (idx : list Z) :
  for_result l pass G0 = Ok G1 ->
  Forall (fun i => 0 <= i) idx -> Forall on_front l ->
  (forall a, In a l -> feqb (Source.resistance a) f0 = false ->
     source_edge a <> idx) ->
  getitem (ID G1) idx = getitem (ID G0) idx.
Proof.
  revert G0. induction l as [|a l IH]; intros G0 H Hidx Hl Hne.
  - injection H as <-. reflexivity.
  - cbn [for_result] in H. apply bind_Ok in H as (G0' & Ha & H).
    inversion Hl as [|? ? (Hx & Hy & Hz) Hl']; subst.
    rewrite (IH _ H Hidx Hl') by (intros; apply Hne; [by right | assumption]).
    apply pass_inv in Ha as [[_ ->]|[HR Ha]]; [reflexivity|].
    apply voltage_source_material_inv in Ha
      as (u & m & ID' & _ & _ & Hset & ->).
    simpl. eapply getitem_setitem_ne; [exact Hset | | exact Hidx |].
    + by apply source_edge_nonneg.
    + apply Hne; [by left | exact HR].
Qed.

Lemma loop_keeps_lists (G G1 : FDTDGrid) :
  voltage_source_materials str G = Ok G1 ->
  voltagesources G1 = voltagesources G
  /\ hertziandipoles G1 = hertziandipoles G
  /\ magneticdipoles G1 = magneticdipoles G
  /\ rxs G1 = rxs G
  /\ (srcstepx G1, srcstepy G1, srcstepz G1)
     = (srcstepx G, srcstepy G, srcstepz G)
  /\ (rxstepx G1, rxstepy G1, rxstepz G1)
     = (rxstepx G, rxstepy G, rxstepz G).
Proof.
  apply (voltage_loop_invariant str (fun G1 =>
    voltagesources G1 = voltagesources G
    /\ hertziandipoles G1 = hertziandipoles G
    /\ magneticdipoles G1 = magneticdipoles G
    /\ rxs G1 = rxs G
    /\ (srcstepx G1, srcstepy G1, srcstepz G1)
       = (srcstepx G, srcstepy G, srcstepz G)
    /\ (rxstepx G1, rxstepy G1, rxstepz G1)
       = (rxstepx G, rxstepy G, rxstepz G))); [|repeat split].
  intros G0 s G0' _ HP H.
  apply voltage_source_material_inv in H as (v & m & ID' & _ & _ & _ & ->).
  exact HP.
Qed.

Lemma loop_unfold (G G1 : FDTDGrid) :
  voltage_source_materials str G = Ok G1 ->
  for_result (voltagesources G) pass G = Ok G1.
Proof.
  unfold voltage_source_materials.
  destruct (voltagesources G); [intros [= <-]; reflexivity | exact id].
Qed.

(** The search of [next]: the material found is the first of the
    catalogue with the required [numID]. *)
Lemma next_material_first (ms : list Material.t) (v : Z) (m : Material.t) :
  next_material ms v = Ok m ->
  exists pre post,
    ms = pre ++ m :: post /\ Material.numID m = v
    /\ Forall (fun x => Material.numID x <> v) pre.
Proof.
  unfold next_material.
  destruct (List.find _ ms) as [m'|] eqn:E; [|discriminate].
  intros [= ->]. induction ms as [|x ms IH]; [discriminate|].
  simpl in E. destruct (Z.eqb_spec (Material.numID x) v) as [Hx|Hx].
  - injection E as ->. exists [], ms. repeat split; [exact Hx | constructor].
  - destruct (IH E) as (pre & post & -> & Hm & Hpre).
    exists (x :: pre), post. repeat split; [exact Hm | by constructor].
Qed.

Lemma voltage_source_material_derived (G G' : FDTDGrid) (s : Source.t) :
  voltage_source_material str G s = Ok G' -> derived_at str G s G'.
Proof.
  intros H. apply voltage_source_material_inv in H
    as (v & m & ID' & Hv & Hm & Hset & ->).
  apply next_material_first in Hm as (pre & post & Hms & <- & Hpre).
  exists m, (derive_material str m s (Z.of_nat (length (materials G)))
               (source_conductivity G s)).
  split; [exists pre, post; repeat split; assumption|].
  simpl. repeat split; try reflexivity. exact Hset.
Qed.

Lemma loop_passes (l : list Source.t) (G0 G1 : FDTDGrid) :
  for_result l pass G0 = Ok G1 -> passes (source_pass str) G0 l G1.
Proof.
  revert G0. induction l as [|a l IH]; intros G0 H.
  - injection H as <-. constructor.
  - cbn [for_result] in H. apply bind_Ok in H as (G0' & Ha & H).
    apply (passes_cons _ _ _ G0'); [|by apply IH].
    unfold source_pass.
    apply pass_inv in Ha as [[-> ->]|[-> Ha]]; [reflexivity|].
    by apply voltage_source_material_derived.
Qed.
End VoltageLoopFacts.

(** C3: the loop over the voltage sources, which [run_model] runs on the
    built grid and before it sets up and fills the arrays of update
    coefficients, deals with the sources one after the other, and for
    every source with a resistance [R] that is not zero it appends to
    the catalogue a copy of the material that governs the edge of the
    source, the first one whose [numID] is the entry of [ID] there: the
    conductivity of the copy is that of the material plus
    [d_a / (R * d_b * d_c)], in floats and with the operations in this
    order, its [average] flag is false, its [numID] is the length of
    the catalogue before the append, its name has the suffix
    [|VoltageSource_R], and the entry of [ID] at the edge becomes this
    [numID].  A source without resistance changes nothing.  The loop
    returns on a built grid whose voltage sources lie on nodes of the
    grid and whose divisors [R * d_b * d_c] are not zero. *)
Theorem voltage_source_material_spec (str : float -> string) (G : FDTDGrid) :
  (forall G', voltage_source_materials str G = Ok G' ->
     passes (source_pass str) G (voltagesources G) G'
     /\ forall (World : Type) (exec : Call -> World -> World)
          (geometry_only : bool) (modelrun numbermodelruns : Z)
          (root : string) (maxpoles : Z) (w : World),
          run_model str exec geometry_only modelrun numbermodelruns root
            maxpoles G w
          = after_voltage_sources exec geometry_only modelrun
              numbermodelruns root maxpoles G' w)
  /\ (built_like G G -> Forall (source_in_grid G) (voltagesources G) ->
      exists G', voltage_source_materials str G = Ok G').
Proof.
  split.
  - intros G' HG'. split.
    + apply loop_passes. by apply loop_unfold.
    + intros. unfold run_model. by rewrite HG'.
  - intros HG Hsrc.
    destruct (voltage_loop_returns str G HG Hsrc) as (G' & HG' & _). eauto.
Qed.

Lemma example_sources_in_grid :
  Forall (source_in_grid Example.built) (voltagesources Example.built).
Proof.
  constructor 2; [|constructor 1].
  intros _. repeat split; try (simpl; lia).
Qed.

(** On the example the edge of the source is governed by free space,
    not by the perfect conductor that comes first in the catalogue, and
    the copy has the conductivity 0.001 / (50 * 0.001 * 0.001) = 20. *)
Lemma voltage_source_material_spec_witness :
  exists G',
    voltage_source_materials Example.str_50 Example.built = Ok G'
    /\ materials G'
       = [Example.pec; Example.free_space;
          Material.mk 2 "free_space|VoltageSource_50.0" Example.one
            (float_of_Z 20) Example.one f0 false [] []]
    /\ getitem (ID G') (source_edge Example.vs) = Ok 2.
Proof.
  destruct (voltage_source_material_spec Example.str_50 Example.built)
    as [Hpass Hret].
  destruct (Hret example_built_like example_sources_in_grid) as [G' HG'].
  exists G'. split; [exact HG'|].
  destruct (Hpass G' HG') as [Hp _].
  change (voltagesources Example.built) with [Example.vs] in Hp.
  inversion Hp as [|? ? G1 ? ? Hs Hrest]; subst.
  inversion Hrest; subst. unfold source_pass in Hs.
  change (feqb (Source.resistance Example.vs) f0) with false in Hs.
  cbv iota in Hs.
  destruct Hs as (m & new & (pre & post & Hms & Hid & Hpre) & Hmat & Hse
                  & Hav & Hnum & Hname & Her & Hmr & Hsm & Hde & Htau
                  & Hset & _).
  assert (Hm : m = Example.free_space).
  { change (materials Example.built)
      with [Example.pec; Example.free_space] in Hms.
    change (getitem (ID Example.built) (source_edge Example.vs))
      with (@Ok Z 1) in Hid.
    injection Hid as Hid.
    destruct pre as [|p0 [|p1 [|p2 pre]]]; simpl in Hms.
    - injection Hms as <- _. discriminate Hid.
    - by injection Hms as _ <- _.
    - injection Hms as _ _ Hms. discriminate Hms.
    - injection Hms as _ _ Hms. discriminate Hms. }
  subst m. split.
  - rewrite Hmat. destruct new as [n i e se mr sm av de ta].
    simpl in Hse, Hav, Hnum, Hname, Her, Hmr, Hsm, Hde, Htau.
    subst. vm_compute. reflexivity.
  - rewrite Hnum in Hset. exact (getitem_setitem _ _ _ _ Hset).
Defined.

Lemma adjust_positions_sources (modelrun : Z) (G : FDTDGrid) :
  ID (adjust_positions modelrun G) = ID G
  /\ materials (adjust_positions modelrun G) = materials G
  /\ (0 < srcstepx G \/ 0 < srcstepy G \/ 0 < srcstepz G ->
      voltagesources (adjust_positions modelrun G)
      = map (step_source modelrun G) (voltagesources G)).
Proof.
  unfold adjust_positions.
  destruct ((0 <? srcstepx G) || (0 <? srcstepy G) || (0 <? srcstepz G))
    eqn:Es; rewrite any_positive in Es;
  (destruct ((0 <? rxstepx _) || (0 <? rxstepy _) || (0 <? rxstepz _));
   simpl; repeat split; tauto).
Qed.

(** X16: in a run that steps its sources the material that was derived
    for the resistance of a voltage source stays where the input file
    put the source.  The loop over the voltage sources runs before the
    positions are adjusted: when the loop has returned the grid [G1],
    the grid [adjust_positions modelrun G1] with which the main loop
    would start carries a derived material at the edge of the source as
    the input file has it, and, at the edge at which the stepped source
    feeds the grid, what the build put there, when no voltage source
    with a resistance started on it. *)
Theorem derived_material_stays (str : float -> string) (modelrun : Z)
    (G G1 : FDTDGrid) (s : Source.t) :
  voltage_source_materials str G = Ok G1 ->
  0 < srcstepx G \/ 0 < srcstepy G \/ 0 < srcstepz G ->
  In s (voltagesources G) -> feqb (Source.resistance s) f0 = false ->
  Forall on_front (voltagesources G) ->
  on_front (step_source modelrun G s) ->
  (forall a, In a (voltagesources G) ->
     feqb (Source.resistance a) f0 = false ->
     source_edge a <> source_edge (step_source modelrun G s)) ->
  voltagesources (adjust_positions modelrun G1)
  = map (step_source modelrun G) (voltagesources G)
  /\ (exists v,
        getitem (ID (adjust_positions modelrun G1)) (source_edge s) = Ok v
        /\ Z.of_nat (length (materials G)) <= v)
  /\ getitem (ID (adjust_positions modelrun G1))
       (source_edge (step_source modelrun G s))
     = getitem (ID G) (source_edge (step_source modelrun G s)).
Proof.
  intros HG1 Hstep Hin HR Hfront (Hx & Hy & Hz) Hne.
  destruct (loop_keeps_lists str _ _ HG1) as (Hvs & _ & _ & _ & Hsteps & _).
  injection Hsteps as Hsx Hsy Hsz.
  destruct (adjust_positions_sources modelrun G1) as (-> & _ & Hmoved).
  rewrite Hmoved by lia. rewrite Hvs.
  apply loop_unfold in HG1.
  split.
  { apply map_ext. intros a. unfold step_source. congruence. }
  split.
  - eapply loop_marks; eauto.
  - eapply loop_frame; [exact HG1 | | exact Hfront | exact Hne].
    by apply source_edge_nonneg.
Qed.

Lemma derived_material_stays_witness :
  exists G1,
    voltage_source_materials Example.str_50 Example.built = Ok G1
    /\ map source_position (voltagesources (adjust_positions 2 G1))
       = [(2, 1, 1)]
    /\ getitem (ID (adjust_positions 2 G1)) [0; 1; 1; 1] = Ok 2
    /\ getitem (ID (adjust_positions 2 G1)) [0; 2; 1; 1] = Ok 1.
Proof.
  eexists. split; [reflexivity|].
  edestruct (derived_material_stays Example.str_50 2 Example.built _
               Example.vs eq_refl)
    as (Hvs & _ & Hedge).
  - left. reflexivity.
  - left. reflexivity.
  - reflexivity.
  - constructor 2; [|constructor 1]. repeat split; simpl; lia.
  - repeat split; simpl; lia.
  - intros a [<-|[]] _. discriminate.
  - rewrite Hvs. split; [reflexivity|]. split; [reflexivity|].
    exact Hedge.
Defined.


(** ** More on the stepping of sources and receivers *)

Lemma step_source_first (G : FDTDGrid) (l : list Source.t) :
  map (step_source 1 G) l = l.
Proof.
  induction l as [|s l IH]; simpl; [reflexivity|]. rewrite IH. f_equal.
  destruct s. unfold step_source. simpl. f_equal; lia.
Qed.

Lemma step_receiver_first (G : FDTDGrid) (l : list Rx.t) :
  map (step_receiver 1 G) l = l.
Proof.
  induction l as [|s l IH]; simpl; [reflexivity|]. rewrite IH. f_equal.
  destruct s. unfold step_receiver. simpl. f_equal; lia.
Qed.

(** X17: the first run of a series is the model of the input file: for
    [modelrun = 1] the adjustment of the positions leaves the grid as it
    is, whatever the steps are. *)
Theorem adjust_positions_first_run (G : FDTDGrid) :
  adjust_positions 1 G = G.
Proof.
  unfold adjust_positions.
  destruct ((0 <? srcstepx G) || (0 <? srcstepy G) || (0 <? srcstepz G)).
  - rewrite !step_source_first.
    destruct ((0 <? rxstepx _) || (0 <? rxstepy _) || (0 <? rxstepz _)).
    + rewrite step_receiver_first. destruct G. reflexivity.
    + destruct G. reflexivity.
  - destruct ((0 <? rxstepx _) || (0 <? rxstepy _) || (0 <? rxstepz _)).
    + rewrite step_receiver_first. destruct G. reflexivity.
    + reflexivity.
Qed.

Lemma adjust_positions_stepped (modelrun : Z) (G : FDTDGrid) :
  0 < srcstepx G \/ 0 < srcstepy G \/ 0 < srcstepz G ->
  stepped_sources (adjust_positions modelrun G)
  = map (step_source modelrun G) (stepped_sources G)
  /\ forall co, getattr_n (adjust_positions modelrun G) co = getattr_n G co.
Proof.
  intros Hs. unfold adjust_positions.
  replace ((0 <? srcstepx G) || (0 <? srcstepy G) || (0 <? srcstepz G))
    with true by (symmetry; by apply any_positive).
  destruct ((0 <? rxstepx _) || (0 <? rxstepy _) || (0 <? rxstepz _));
    unfold stepped_sources; simpl; rewrite !map_app; split;
    try reflexivity; intros []; reflexivity.
Qed.

(** X18: the stepping of the sources is not held inside the grid.  For a
    source that is stepped along an axis with a positive step there is a
    run from which on the source lies beyond the last node of that axis,
    where [within_bounds] raises the error of the axis: the adjustment
    makes no such check. *)
Theorem adjust_positions_leaves_grid (G : FDTDGrid) (s : Source.t)
    (co : axis) :
  0 < srcstep G co -> In s (stepped_sources G) ->
  exists first, forall modelrun, first <= modelrun ->
    let G' := adjust_positions modelrun G in
    let s' := step_source modelrun G s in
    In s' (stepped_sources G')
    /\ getattr_n G co < source_coordinate s' co
    /\ (within_bounds G' [(co, source_coordinate s' co)]).2
       = Raise (ValueError (axis_name co)).
Proof.
  intros Hstep Hin.
  exists (Z.max 2 (getattr_n G co - source_coordinate s co + 2)).
  intros modelrun Hm G' s'. subst G' s'.
  destruct (adjust_positions_stepped modelrun G) as (Hsrc & Hn).
  { destruct co; simpl in Hstep; lia. }
  assert (Hout : getattr_n G co
                 < source_coordinate (step_source modelrun G s) co).
  { destruct co; simpl in *; nia. }
  split; [rewrite Hsrc; by apply in_map|]. split; [exact Hout|].
  unfold within_bounds. simpl. rewrite Hn.
  replace (getattr_n G co <? _) with true by (symmetry; by apply Z.ltb_lt).
  rewrite orb_true_r. reflexivity.
Qed.

Lemma adjust_positions_leaves_grid_witness :
  exists first, forall modelrun, first <= modelrun ->
    (within_bounds (adjust_positions modelrun Example.grid)
       [(ax_x, Source.positionx (step_source modelrun Example.grid Example.hd))]).2
    = Raise (ValueError "x").
Proof.
  destruct (adjust_positions_leaves_grid Example.grid Example.hd ax_x)
    as [first H]; [reflexivity | left; reflexivity |].
  exists first. intros modelrun Hm. apply (H modelrun Hm).
Defined.

(** ** Snapshots *)

Lemma omap_map_some {A B C} (f : B -> option C) (g : A -> B) (h : A -> C)
    (l : list A) :
  (forall a, f (g a) = Some (h a)) -> omap f (map g l) = map h l.
Proof.
  intros H. induction l as [|a l IH]; csimpl; [reflexivity|].
  by rewrite H, IH.
Qed.

Lemma timestep_calls_snapshots (G : FDTDGrid) (maxpoles n : Z) (t : float) :
  omap snapshot_of (timestep_calls G maxpoles n t)
  = List.filter (fun s => Snapshot.time s =? n + 1) (snapshots G).
Proof.
  unfold timestep_calls.
  rewrite !omap_app.
  rewrite (omap_map_some snapshot_of write_snapshot (fun s => s))
    by reflexivity.
  rewrite !omap_map_none by reflexivity.
  rewrite map_id, app_nil_r.
  destruct (maxpoles =? 1); [|destruct (1 <? maxpoles)]; csimpl;
    by rewrite ?app_nil_r.
Qed.

Lemma filter_split {A} (p q r : A -> bool) (l : list A) :
  (forall x, r x = p x || q x) -> (forall x, p x && q x = false) ->
  Permutation (List.filter r l) (List.filter p l ++ List.filter q l).
Proof.
  intros Hr Hpq. induction l as [|x l IH]; simpl; [constructor|].
  rewrite Hr. specialize (Hpq x).
  destruct (p x), (q x); simpl in *; try discriminate.
  - by constructor.
  - by apply Permutation_cons_app.
  - exact IH.
Qed.

Lemma in_run_spec (n : Z) (s : Snapshot.t) :
  in_run n s = true <-> 1 <= Snapshot.time s <= n.
Proof.
  unfold in_run. rewrite andb_true_iff, !Z.leb_le. reflexivity.
Qed.

Lemma bool_ext (a b : bool) : (a = true <-> b = true) -> a = b.
Proof. destruct a, b; intuition congruence. Qed.

Lemma snapshots_of_steps (snaps : list Snapshot.t) (k : nat) :
  Permutation
    (flat_map
       (fun i => List.filter (fun s => Snapshot.time s =? Z.of_nat i + 1) snaps)
       (seq 0 k))
    (List.filter (in_run (Z.of_nat k)) snaps).
Proof.
  induction k as [|k IH].
  - simpl. induction snaps as [|s l IHl]; simpl; [constructor|].
    replace (in_run (Z.of_nat 0) s) with false; [exact IHl|].
    symmetry. apply not_true_is_false. rewrite in_run_spec. lia.
  - rewrite seq_S, flat_map_app. simpl. rewrite app_nil_r.
    rewrite IH. symmetry. apply filter_split; intros x.
    + apply bool_ext.
      rewrite orb_true_iff, !in_run_spec, Z.eqb_eq. lia.
    + apply not_true_is_false.
      rewrite andb_true_iff, in_run_spec, Z.eqb_eq. lia.
Qed.

(** X19: the snapshots that a run writes are the listed snapshots whose
    time lies between 1 and the number of iterations, each of them once
    for each time it is listed.  A snapshot with time 0 or with a time
    after the last timestep is never written, and the run says nothing
    about it. *)
Theorem snapshots_written {World : Type} (exec : Call -> World -> World)
    (G : FDTDGrid) (maxpoles : Z) (w : World) :
  Permutation
    (omap snapshot_of (log (main_loop exec G maxpoles w)))
    (List.filter (in_run (iterations G)) (snapshots G))
  /\ forall s,
       In (write_snapshot s) (log (main_loop exec G maxpoles w))
       <-> In s (snapshots G) /\ 1 <= Snapshot.time s <= iterations G.
Proof.
  assert (HP : Permutation
    (omap snapshot_of (log (main_loop exec G maxpoles w)))
    (List.filter (in_run (iterations G)) (snapshots G))).
  { destruct (main_loop_log exec G maxpoles w) as [-> _].
    rewrite omap_flat_map.
    rewrite (flat_map_ext _
      (fun i => List.filter (fun s => Snapshot.time s =? Z.of_nat i + 1)
                  (snapshots G)))
      by (intros; apply timestep_calls_snapshots).
    rewrite snapshots_of_steps.
    erewrite List.filter_ext; [reflexivity|].
    intros s. apply bool_ext. rewrite !in_run_spec. lia. }
  split; [exact HP|]. intros s.
  transitivity (In s (omap snapshot_of (log (main_loop exec G maxpoles w)))).
  - rewrite <- !list_elem_of_In, list_elem_of_omap. split.
    + intros H. exists (write_snapshot s). split; [exact H | reflexivity].
    + intros (c & Hc & Hs). destruct c; try discriminate.
      injection Hs as ->. exact Hc.
  - rewrite <- !list_elem_of_In, HP, !list_elem_of_In, List.filter_In.
    rewrite in_run_spec. reflexivity.
Qed.

(** ** Output files *)

Lemma string_length_app (a b : string) :
  String.length (a +:+ b) = (String.length a + String.length b)%nat.
Proof. induction a as [|x a IH]; simpl; [reflexivity | by rewrite IH]. Qed.

Lemma string_app_inv_tail (a b c : string) : a +:+ c = b +:+ c -> a = b.
Proof.
  revert b. induction a as [|x a IH]; intros [|y b] H.
  - reflexivity.
  - apply (f_equal String.length) in H.
    rewrite !string_length_app in H. simpl in H. lia.
  - apply (f_equal String.length) in H.
    rewrite !string_length_app in H. simpl in H. lia.
  - simpl in H. injection H as -> H. f_equal. by apply IH.
Qed.

Lemma outputfile_inj (root : string) (m1 m2 numbermodelruns : Z) :
  numbermodelruns <> 1 ->
  outputfile root m1 numbermodelruns = outputfile root m2 numbermodelruns ->
  m1 = m2.
Proof.
  intros Hn. unfold outputfile.
  destruct (Z.eqb_spec numbermodelruns 1); [contradiction|]. intros H.
  apply String.app_inj, string_app_inv_tail in H. by apply pretty_Z_inj.
Qed.

Lemma NoDup_map_inj_on {A B} (f : A -> B) (l : list A) :
  (forall x y, In x l -> In y l -> f x = f y -> x = y) ->
  NoDup l -> NoDup (map f l).
Proof.
  intros Hinj Hl. induction Hl as [|x l Hx Hl IH]; simpl; constructor.
  - rewrite list_elem_of_In, in_map_iff. intros (y & Hy & Hin).
    apply Hx. rewrite list_elem_of_In.
    rewrite (Hinj x y); [exact Hin | by left | by right | by symmetry].
  - apply IH. intros a b Ha Hb. apply Hinj; by right.
Qed.

Lemma NoDup_range_from_1 (n : Z) : NoDup (range_from_1 n).
Proof.
  unfold range_from_1, range. rewrite map_map.
  apply NoDup_map_inj_on; [intros; lia | apply NoDup_seq].
Qed.

Lemma range_from_1_one : range_from_1 1 = [1].
Proof. reflexivity. Qed.

Lemma written_by_runs (args : Args) (root : string) (numbermodelruns : Z)
    (l : list Z) :
  omap (written_file args root)
    (map (fun modelrun => run_model_call modelrun numbermodelruns) l)
  = if geometry_only args then []
    else map (fun modelrun => outputfile root modelrun numbermodelruns) l.
Proof.
  destruct (geometry_only args) eqn:E.
  - apply omap_map_none. intros a. simpl. by rewrite E.
  - apply omap_map_some. intros a. simpl. by rewrite E.
Qed.

(** X20: the runs of a standard simulation do not write over each
    other: whatever the number of runs is, the names of the output files
    that the calls of [run_model] from [main] write are all different. *)
Theorem runs_write_distinct_files (args : Args) (N : Z) (root : string)
    (evs : list Event) :
  opt_taguchi args = false ->
  main args N root = Completed evs ->
  NoDup (omap (written_file args root) evs).
Proof.
  unfold main. intros ->. simpl.
  destruct (mpi args && (n args =? 1)); [discriminate|].
  destruct (mpi args); intros [= <-]; [constructor|].
  rewrite written_by_runs. destruct (geometry_only args); [constructor|].
  destruct (Z.eq_dec (n args) 1) as [->|Hne].
  - rewrite range_from_1_one. simpl. apply NoDup_singleton.
  - apply NoDup_map_inj_on; [|apply NoDup_range_from_1].
    intros x y _ _. by apply outputfile_inj.
Qed.

Lemma runs_write_distinct_files_witness :
  NoDup [outputfile "model" 1 3; outputfile "model" 2 3;
         outputfile "model" 3 3].
Proof.
  apply (runs_write_distinct_files (mk_Args false 3 false false false) 0
           "model"
           [run_model_call 1 3; run_model_call 2 3; run_model_call 3 3]);
    reflexivity.
Defined.

Lemma reads_written_app (args : Args) (root : string) (a b : list Event)
    (w : list string) :
  reads_written args root w (a ++ b)
  <-> reads_written args root w a
      /\ reads_written args root (w ++ omap (written_file args root) a) b.
Proof.
  revert w. induction a as [|e a IH]; intros w.
  - csimpl. rewrite app_nil_r. tauto.
  - cbn [app reads_written]. rewrite IH.
    replace (w ++ omap (written_file args root) (e :: a))
      with ((w ++ match written_file args root e with
                  | Some f => [f]
                  | None => []
                  end) ++ omap (written_file args root) a);
      [tauto|].
    csimpl. rewrite <- app_assoc. f_equal.
    destruct (written_file args root e); reflexivity.
Qed.

Lemma reads_written_runs (args : Args) (root : string) (N : Z) (l : list Z)
    (w : list string) :
  reads_written args root w (map (fun m => run_model_call m N) l).
Proof.
  revert w. induction l as [|m l IH]; intros w; simpl; [exact I|].
  split; [exact I | apply IH].
Qed.

Lemma reads_written_reads (args : Args) (root : string) (fs : list string)
    (w : list string) :
  reads_written args root w (map fitness_max_call fs)
  <-> forall f, In f fs -> In f w.
Proof.
  revert w. induction fs as [|f fs IH]; intros w; simpl.
  - split; [intros _ f [] | trivial].
  - rewrite app_nil_r, IH. split.
    + intros [Hf H] g [<-|Hg]; auto.
    + intros H. split; [apply H; by left | intros g Hg; apply H; by right].
Qed.

Lemma taguchi_iteration_reads (args : Args) (N : Z) (root : string)
    (w : list string) :
  mpi args = false -> geometry_only args = false ->
  reads_written args root w (taguchi_iteration args N root)
  <-> forall exp, In exp (range_from_1 N) ->
        In (root +:+ pretty exp +:+ ".out")
          (w ++ map (fun m => outputfile root m N) (range_from_1 N)).
Proof.
  intros Hmpi Hgeo. unfold taguchi_iteration. rewrite Hmpi.
  rewrite !reads_written_app, !written_by_runs, Hgeo.
  rewrite <- (map_map (fun exp => root +:+ pretty exp +:+ ".out")
                fitness_max_call).
  rewrite reads_written_reads. split.
  - intros (_ & H & _) exp Hexp. apply H, in_map_iff. eauto.
  - intros H. split; [apply reads_written_runs|]. split.
    + intros f Hf. apply in_map_iff in Hf as (exp & <- & Hexp). by apply H.
    + split; [apply reads_written_runs|]. simpl. split; [|exact I].
      apply in_app_iff. right. by left.
Qed.

(** X21: in a Taguchi optimisation run without MPI, [main] reads the
    fitness of every experiment from the file that the run of the
    experiment has written before, and the fitness of the confirmation
    run likewise, exactly when the number of experiments is not 1.  With
    one experiment [run_model] names its file without the number of the
    run, and [main] asks for the file with the number. *)
Theorem taguchi_reads_what_runs_wrote (args : Args) (N : Z) (root : string)
    (evs : list Event) :
  opt_taguchi args = true -> mpi args = false ->
  geometry_only args = false ->
  main args N root = Completed evs ->
  (reads_written args root [] evs <-> N <> 1).
Proof.
  unfold main. intros -> Hmpi Hgeo. simpl.
  destruct (1 <? n args); [discriminate|]. intros [= <-].
  change (range maxiterations) with [0; 1]. cbn [flat_map].
  rewrite app_nil_r, reads_written_app.
  rewrite !taguchi_iteration_reads by assumption. split.
  - intros [H _] ->. specialize (H 1 (or_introl eq_refl)).
    simpl in H. destruct H as [H|[]].
    apply String.app_inj in H. discriminate.
  - intros HN. assert (Hin : forall w exp, In exp (range_from_1 N) ->
      In (root +:+ pretty exp +:+ ".out")
        (w ++ map (fun m => outputfile root m N) (range_from_1 N))).
    { intros w exp Hexp. apply in_app_iff. right. apply in_map_iff.
      exists exp. split; [|exact Hexp]. unfold outputfile.
      by destruct (Z.eqb_spec N 1). }
    split; apply Hin.
Qed.

Lemma taguchi_reads_what_runs_wrote_witness :
  exists evs,
    main (mk_Args false 1 false false true) 2 "model" = Completed evs
    /\ reads_written (mk_Args false 1 false false true) "model" [] evs.
Proof.
  eexists. split; [reflexivity|].
  apply (taguchi_reads_what_runs_wrote (mk_Args false 1 false false true) 2
           "model" _ eq_refl eq_refl eq_refl eq_refl).
  discriminate.
Defined.

(** ** The task farm of [mpi_runs] *)

Lemma master_loop_dispatch (numworkers N : Z) (inbox : list (Z * Z)) :
  forall st st' sent done,
    master_loop numworkers N st inbox = (st', sent, done) ->
    master_modelrun st <= master_modelrun st'
    /\ master_modelrun st' <= Z.max (master_modelrun st) (N + 1)
    /\ started_runs sent
       = map (fun i => master_modelrun st + Z.of_nat i)
           (seq 0 (Z.to_nat (master_modelrun st' - master_modelrun st)))
    /\ (forall m, In m sent -> tag m = EXIT -> N + 1 <= master_modelrun st').
Proof.
  induction inbox as [|[source t] rest IH]; intros st st' sent done H;
    cbn [master_loop] in H.
  - assert (st' = st /\ sent = []) as [-> ->]
      by (destruct (closedworkers st <? numworkers); by injection H).
    rewrite Z.sub_diag. simpl. repeat split; try lia; try (intros m []).
  - destruct (closedworkers st <? numworkers).
    2:{ injection H as <- <- <-. rewrite Z.sub_diag. simpl.
        repeat split; try lia; try (intros m []). }
    destruct (t =? READY).
    + destruct (Z.ltb_spec (master_modelrun st) (N + 1)) as [Hlt|Hge].
      * destruct (master_loop numworkers N
                    (mk_Master (master_modelrun st + 1) (closedworkers st))
                    rest) as [[st1 sent1] done1] eqn:E.
        injection H as <- <- <-.
        destruct (IH _ _ _ _ E) as (H1 & H2 & H3 & H4). simpl in *.
        split; [lia|]. split; [lia|]. split.
        -- unfold started_runs in *. csimpl. rewrite H3.
           replace (Z.to_nat (master_modelrun st1 - master_modelrun st))
             with (S (Z.to_nat (master_modelrun st1 - (master_modelrun st + 1))))
             by lia.
           cbn [seq map]. rewrite <- seq_shift, map_map. f_equal; [f_equal; lia|].
           apply map_ext. intros i. lia.
        -- intros m [<-|Hm] Ht; [discriminate | exact (H4 m Hm Ht)].
      * destruct (master_loop numworkers N st rest)
          as [[st1 sent1] done1] eqn:E.
        injection H as <- <- <-.
        destruct (IH _ _ _ _ E) as (H1 & H2 & H3 & H4).
        split; [lia|]. split; [lia|]. split.
        -- unfold started_runs in *. csimpl. exact H3.
        -- intros m _ _. lia.
    + destruct (t =? DONE); [exact (IH _ _ _ _ H)|].
      destruct (t =? EXIT); [|exact (IH _ _ _ _ H)].
      exact (IH _ _ _ _ H).
Qed.

(** X22: the master hands out the model runs 1, 2, 3, ... in this order,
    each of them once, and none after [numbermodelruns]: whatever mail
    it gets, the runs it has sent out with [START] are the runs from 1
    to some [k], and [k] is at most [numbermodelruns]. *)
Theorem master_hands_out_runs_in_order (size numbermodelruns : Z)
    (inbox : list (Z * Z)) :
  let sent := (master size numbermodelruns inbox).1.2 in
  exists k,
    started_runs sent = range_from_1 k
    /\ k <= Z.max 0 numbermodelruns
    /\ NoDup (started_runs sent).
Proof.
  unfold master.
  destruct (master_loop (size - 1) numbermodelruns (mk_Master 1 0) inbox)
    as [[st' sent] done] eqn:E.
  destruct (master_loop_dispatch _ _ _ _ _ _ _ E) as (H1 & H2 & H3 & _).
  simpl in *. exists (master_modelrun st' - 1).
  assert (Hruns : started_runs sent = range_from_1 (master_modelrun st' - 1)).
  { rewrite H3. unfold range_from_1, range. rewrite map_map.
    apply map_ext. intros i. lia. }
  split; [exact Hruns|]. split; [lia|].
  rewrite Hruns. apply NoDup_range_from_1.
Qed.

(** X23: the master tells a worker to exit only when it has handed out
    every model run: if one of its sends carries [EXIT], the runs it
    sent out with [START] are the runs 1 to [numbermodelruns], all of
    them. *)
Theorem master_exit_after_all_runs (size numbermodelruns : Z)
    (inbox : list (Z * Z)) (st : Master) (sent : list Send) (done : bool)
    (m : Send) :
  0 <= numbermodelruns ->
  master size numbermodelruns inbox = (st, sent, done) ->
  In m sent -> tag m = EXIT ->
  started_runs sent = range_from_1 numbermodelruns.
Proof.
  unfold master. intros HN E Hm Ht.
  destruct (master_loop_dispatch _ _ _ _ _ _ _ E) as (H1 & H2 & H3 & H4).
  specialize (H4 m Hm Ht). simpl in *.
  rewrite H3. unfold range_from_1, range. rewrite map_map.
  replace (Z.to_nat (master_modelrun st - 1)) with (Z.to_nat numbermodelruns)
    by lia.
  apply map_ext. intros i. lia.
Qed.

Lemma master_exit_after_all_runs_witness :
  started_runs
    [mk_Send (Some 1) 1 START; mk_Send (Some 2) 2 START;
     mk_Send None 1 EXIT; mk_Send None 2 EXIT]
  = range_from_1 2.
Proof.
  apply (master_exit_after_all_runs 3 2
           [(1, READY); (2, READY); (1, DONE); (1, READY); (2, DONE);
            (2, READY); (1, EXIT); (2, EXIT)]
           (mk_Master 3 2) _ true (mk_Send None 1 EXIT));
    [lia | reflexivity | simpl; tauto | reflexivity].
Defined.

Lemma master_loop_done (numworkers N : Z) (inbox : list (Z * Z)) :
  forall st,
    (master_loop numworkers N st inbox).2 = true
    <-> numworkers <= closedworkers st + exits_received inbox.
Proof.
  unfold exits_received.
  induction inbox as [|[source t] rest IH]; intros st; cbn [master_loop].
  - destruct (Z.ltb_spec (closedworkers st) numworkers); simpl; split;
      (discriminate || lia || reflexivity).
  - destruct (Z.ltb_spec (closedworkers st) numworkers) as [Hlt|Hge].
    2:{ simpl. split; [intros _|reflexivity].
        destruct (t =? EXIT); simpl; lia. }
    cbn [List.filter snd].
    destruct (Z.eqb_spec t READY) as [->|HR].
    + change (READY =? EXIT) with false.
      destruct (master_modelrun st <? N + 1).
      * specialize (IH (mk_Master (master_modelrun st + 1) (closedworkers st))).
        destruct (master_loop _ _ _ rest) as [[st1 sent1] done1].
        exact IH.
      * specialize (IH st).
        destruct (master_loop _ _ _ rest) as [[st1 sent1] done1].
        exact IH.
    + destruct (Z.eqb_spec t DONE) as [->|HD]; [exact (IH st)|].
      destruct (Z.eqb_spec t EXIT) as [->|HE]; [|exact (IH st)].
      rewrite IH. simpl. lia.
Qed.

(** X24: the master leaves its loop exactly when its mail holds [EXIT]
    from as many senders as there are workers; with a single process
    there is no worker, the master leaves at once, and no model is
    run. *)
Theorem master_leaves_after_exits (size numbermodelruns : Z)
    (inbox : list (Z * Z)) :
  ((master size numbermodelruns inbox).2 = true
   <-> size - 1 <= exits_received inbox)
  /\ (size <= 1 ->
      master size numbermodelruns inbox = (mk_Master 1 0, [], true)).
Proof.
  unfold master. split.
  - rewrite master_loop_done. simpl. reflexivity.
  - intros Hs. destruct inbox as [|[source t] rest]; cbn [master_loop];
      simpl; replace (0 <? size - 1) with false by lia; reflexivity.
Qed.

Lemma worker_cons (m : option Z) (t : Z) (rest : list (option Z * Z)) :
  worker ((m, t) :: rest)
  = if t =? START then
      (worker_send READY :: worker_run_model m :: worker_send DONE
         :: (worker rest).1, (worker rest).2)
    else if t =? EXIT then ([worker_send READY; worker_send EXIT], true)
    else (worker_send READY :: (worker rest).1, (worker rest).2).
Proof. cbn [worker]. by destruct (worker rest). Qed.

(** X25: a worker runs the models that the master starts it on, in the
    order of the [START] messages and up to the first [EXIT], and
    reports [DONE] once for each of them; it leaves its loop and sends
    its own [EXIT] exactly when an [EXIT] has reached it, and what comes
    after that [EXIT] is not run. *)
Theorem worker_runs_what_is_started (inbox : list (option Z * Z)) :
  runs_of (worker inbox).1 = started inbox
  /\ length (List.filter (fun a => match a with
                                   | worker_send t => t =? DONE
                                   | _ => false
                                   end) (worker inbox).1)
     = length (started inbox)
  /\ ((worker inbox).2 = true <-> In EXIT (map snd inbox))
  /\ (In (worker_send EXIT) (worker inbox).1 <-> In EXIT (map snd inbox)).
Proof.
  induction inbox as [|[m t] rest (IH1 & IH2 & IH3 & IH4)].
  - simpl. split; [reflexivity|]. split; [reflexivity|].
    split; (split; [|intros []]); [discriminate|].
    intros [H|[]]. discriminate.
  - rewrite worker_cons. cbn [started map snd In].
    destruct (Z.eqb_spec t START) as [->|HS].
    + change (START =? EXIT) with false. cbn [fst snd In].
      split; [unfold runs_of in *; csimpl; by rewrite IH1|].
      split; [cbn [List.filter]; simpl; by rewrite IH2|].
      split; [rewrite IH3; split; [by right | intros [H|H]; [discriminate | exact H]]|].
      rewrite <- IH4. split.
      * intros [H|[H|[H|H]]]; try discriminate. by right.
      * intros [H|H]; [discriminate|]. right. right. by right.
    + destruct (Z.eqb_spec t EXIT) as [->|HE]; cbn [fst snd In].
      * split; [reflexivity|]. split; [reflexivity|].
        split; (split; intros _); [by left | reflexivity | by left |].
        right. by left.
      * split; [unfold runs_of in *; csimpl; by rewrite IH1|].
        split; [cbn [List.filter]; simpl; by rewrite IH2|].
        split; [rewrite IH3; split; [by right | intros [H|H]; [congruence | exact H]]|].
        rewrite <- IH4. split.
        -- intros [H|H]; [discriminate | by right].
        -- intros [H|H]; [congruence | by right].
Qed.

(** ** The generic grid *)

Lemma grid_init_inv {A} (a : ndarray A) (g : Grid.t A) (d0 d1 d2 : Z) :
  shape a = [d0; d1; d2] -> Grid.init a = Ok g ->
  g = Grid.mk d0 d1 d2 1 1 1 (d0 - 1) (d1 - 1) (d2 - 1) a.
Proof.
  unfold Grid.init, Grid.shape_item. intros ->. simpl. congruence.
Qed.

(** X26: the generic grid made from a three-dimensional array has one
    node for each sample of the array, and [get] returns a sample
    exactly for the index tuples that numpy accepts, each index from
    [-n] to [n - 1] on its axis; for every other tuple it raises
    [IndexError]. *)
Theorem grid_get_defined {A} (a : ndarray A) (g : Grid.t A) (d0 d1 d2 : Z) :
  shape a = [d0; d1; d2] -> 0 <= d0 -> 0 <= d1 -> 0 <= d2 ->
  well_formed a -> Grid.init a = Ok g ->
  Grid.n_nodes g = Z.of_nat (length (data a))
  /\ forall i j k,
       ((exists v, Grid.get g i j k = Ok v)
        <-> - Grid.nx g <= i < Grid.nx g /\ - Grid.ny g <= j < Grid.ny g
            /\ - Grid.nz g <= k < Grid.nz g)
       /\ ((forall v, Grid.get g i j k <> Ok v) ->
           Grid.get g i j k = Raise IndexError).
Proof.
  intros Hshape H0 H1 H2 Hwf Hg.
  rewrite (grid_init_inv a g d0 d1 d2 Hshape Hg).
  unfold Grid.n_nodes, Grid.get. simpl. split.
  - rewrite Hwf, Hshape. unfold size_of. simpl. nia.
  - intros i j k. split.
    + rewrite (getitem_Ok_offset a _ Hwf), Hshape. apply offset3_defined.
    + intros Hno. destruct (getitem a [i; j; k]) as [v|e] eqn:E.
      * by destruct (Hno v).
      * f_equal. by eapply getitem_Raise.
Qed.

Lemma grid_get_defined_witness :
  Grid.get (Grid.mk 3 2 2 1 1 1 2 1 1 Example.aHx) 3 0 0 = Raise IndexError.
Proof.
  apply (grid_get_defined Example.aHx _ 3 2 2); try reflexivity; try lia.
  intros v. discriminate.
Defined.

(** X27: on the generic grid [within_bounds] is no guard for [get].
    [nx], [ny] and [nz] are the numbers of nodes there, and
    [within_bounds] accepts the coordinate [n] on every axis, one past
    the last node: at this index [get] raises [IndexError]. *)
Theorem grid_within_bounds_is_no_guard {A} (a : ndarray A) (g : Grid.t A)
    (d0 d1 d2 : Z) (co : axis) :
  shape a = [d0; d1; d2] -> 0 <= d0 -> 0 <= d1 -> 0 <= d2 ->
  Grid.init a = Ok g ->
  let '(i, j, k) := Grid.on_axis co (Grid.getattr_n g co) in
  Grid.within_bounds g [(ax_x, i); (ax_y, j); (ax_z, k)] = Ok tt
  /\ Grid.get g i j k = Raise IndexError.
Proof.
  intros Hshape H0 H1 H2 Hg.
  rewrite (grid_init_inv a g d0 d1 d2 Hshape Hg).
  assert (Hout : forall d, np_index d d = Raise IndexError).
  { intros d. unfold np_index.
    destruct (Z.leb_spec 0 d), (Z.ltb_spec d d), (Z.leb_spec (- d) d),
      (Z.ltb_spec d 0); simpl; try reflexivity; lia. }
  destruct co; simpl; unfold Grid.get; simpl; unfold getitem;
    rewrite Hshape; simpl.
  - split.
    + destruct (Z.ltb_spec d0 0), (Z.ltb_spec d0 d0), (Z.ltb_spec d1 0),
        (Z.ltb_spec d2 0); simpl; try reflexivity; lia.
    + by rewrite Hout.
  - split.
    + destruct (Z.ltb_spec d0 0), (Z.ltb_spec d1 0), (Z.ltb_spec d1 d1),
        (Z.ltb_spec d2 0); simpl; try reflexivity; lia.
    + destruct (np_index d0 0) eqn:E; simpl; [by rewrite Hout|].
      f_equal. by eapply np_index_Raise.
  - split.
    + destruct (Z.ltb_spec d0 0), (Z.ltb_spec d1 0), (Z.ltb_spec d2 0),
        (Z.ltb_spec d2 d2); simpl; try reflexivity; lia.
    + destruct (np_index d0 0) eqn:E; simpl;
        [|f_equal; by eapply np_index_Raise].
      destruct (np_index d1 0) eqn:E'; simpl;
        [by rewrite Hout | f_equal; by eapply np_index_Raise].
Qed.

Lemma grid_within_bounds_is_no_guard_witness :
  Grid.within_bounds (Grid.mk 3 2 2 1 1 1 2 1 1 Example.aHx)
    [(ax_x, 0); (ax_y, 2); (ax_z, 0)] = Ok tt
  /\ Grid.get (Grid.mk 3 2 2 1 1 1 2 1 1 Example.aHx) 0 2 0
     = Raise IndexError.
Proof.
  refine (grid_within_bounds_is_no_guard Example.aHx
            (Grid.mk 3 2 2 1 1 1 2 1 1 Example.aHx) 3 2 2 ax_y
            eq_refl _ _ _ eq_refl); lia.
Defined.

(** ** More on [dispersion_check] *)

Section DispersionCheckEdges.
Variable c : float.
Variable spectrum_maxfreq : Waveform.t -> Z -> float -> result float.

Lemma find_maxfreqs_grid (G G' : FDTDGrid) (ws : list Waveform.t) :
  iterations G' = iterations G -> dt G' = dt G ->
  find_maxfreqs spectrum_maxfreq G' ws = find_maxfreqs spectrum_maxfreq G ws.
Proof.
  intros Hi Hd. induction ws as [|w ws IH]; simpl; [reflexivity|].
  by rewrite IH, Hi, Hd.
Qed.

Lemma find_maxfreqs_filter (G : FDTDGrid) (ws : list Waveform.t) :
  find_maxfreqs spectrum_maxfreq G (List.filter (fun w => negb (silent w)) ws)
  = find_maxfreqs spectrum_maxfreq G ws.
Proof.
  induction ws as [|w ws IH]; [reflexivity|].
  cbn [List.filter find_maxfreqs]. unfold silent at 1.
  destruct (String.eqb_spec (Waveform.type w) "sine") as [Hs|Hs].
  { rewrite Hs. simpl. rewrite Hs. simpl. by rewrite IH. }
  destruct (String.eqb_spec (Waveform.type w) "contsine") as [Hc|Hc].
  { rewrite Hc. simpl. rewrite Hc. simpl. by rewrite IH. }
  destruct (String.eqb (Waveform.type w) "impulse"
            || String.eqb (Waveform.type w) "zero") eqn:E; simpl.
  - exact IH.
  - apply String.eqb_neq in Hs, Hc. rewrite Hs, Hc, E. simpl.
    by rewrite IH.
Qed.

(** X28: impulse and zero waveforms take no part in the check: the
    outcome of [dispersion_check], a value or an error, is the outcome
    for the grid without them. *)
Theorem dispersion_check_ignores_silent (G : FDTDGrid) :
  dispersion_check c spectrum_maxfreq
    (set_waveforms G (List.filter (fun w => negb (silent w)) (waveforms G)))
  = dispersion_check c spectrum_maxfreq G.
Proof.
  unfold dispersion_check. cbn [waveforms materials set_waveforms].
  rewrite (find_maxfreqs_grid G) by reflexivity.
  by rewrite find_maxfreqs_filter.
Qed.

Lemma find_maxfreqs_some (G : FDTDGrid) (ws : list Waveform.t) :
  (exists w, In w ws
             /\ (Waveform.type w = "sine" \/ Waveform.type w = "contsine")) ->
  (forall w, In w ws ->
     exists f, spectrum_maxfreq w (iterations G) (dt G) = Ok f) ->
  exists f fs, find_maxfreqs spectrum_maxfreq G ws = Ok (f :: fs).
Proof.
  assert (Hall : forall l,
    (forall w, In w l ->
       exists f, spectrum_maxfreq w (iterations G) (dt G) = Ok f) ->
    exists fs, find_maxfreqs spectrum_maxfreq G l = Ok fs).
  { induction l as [|w l IH]; intros Hl; simpl; [eauto|].
    destruct IH as [fs ->]; [intros; apply Hl; by right|].
    destruct (Hl w (or_introl eq_refl)) as [f ->]. simpl.
    destruct (_ || _); [eauto|]. destruct (_ || _); eauto. }
  induction ws as [|w ws IH]; intros (w0 & Hin & Hty) Hspec; [destruct Hin|].
  simpl. destruct Hin as [->|Hin].
  - destruct (Hall ws) as [fs ->]; [intros; apply Hspec; by right|].
    destruct Hty as [-> | ->]; simpl; eauto.
  - destruct IH as (f & fs & ->); [eauto | intros; apply Hspec; by right|].
    destruct (Hspec w (or_introl eq_refl)) as [f' ->]. simpl.
    destruct (_ || _); [eauto|]. destruct (_ || _); eauto.
Qed.

(** X29: with a frequency to check and no material in the catalogue
    the check raises a [ValueError]: when one of the waveforms is a sine
    or a continuous sine, and the spectra of the others can be taken,
    [dispersion_check] on a grid without materials ends in the [max] of
    an empty list. *)
Theorem dispersion_check_without_materials (G : FDTDGrid) :
  (exists w, In w (waveforms G)
             /\ (Waveform.type w = "sine" \/ Waveform.type w = "contsine")) ->
  (forall w, In w (waveforms G) ->
     exists f, spectrum_maxfreq w (iterations G) (dt G) = Ok f) ->
  materials G = [] ->
  exists message,
    dispersion_check c spectrum_maxfreq G
    = Raise (ValueError message).
Proof.
  intros Hsine Hspec Hm. unfold dispersion_check.
  destruct (find_maxfreqs_some G _ Hsine Hspec) as (f & fs & ->).
  rewrite Hm. simpl. eauto.
Qed.
End DispersionCheckEdges.

Lemma dispersion_check_without_materials_witness :
  exists message,
    dispersion_check Example.c (fun w i d => Ok f0)
      (set_materials Example.sine_grid [])
    = Raise (ValueError message).
Proof.
  apply (dispersion_check_without_materials Example.c
           (fun w i d => Ok f0) (set_materials Example.sine_grid [])).
  - exists Example.sine. split; [by left | by left].
  - intros w _. eauto.
  - reflexivity.
Defined.
